(** * docusaurus-plugin-mdc-rules: a shallow embedding and its specification

    The development follows the sources of the plugin:
    - [metadata-parser.ts]  (module [MetadataParser]),
    - [link-resolver.ts]    (module [LinkResolver]),
    - [sidebar-generator.ts] (module [SidebarGenerator]),
    - [content-loader.ts]   (module [ContentLoader]),
    - [index.ts]            (module [Plugin], with the last properties).

    JavaScript strings are modelled by [string], a character standing for
    a code unit below [U+0100]; the built-ins of the language and of Node's
    [path] module (POSIX flavour) that the sources call are modelled in
    [JsString], [Regex] and [NodePath]. *)

From Stdlib Require Import ZArith QArith Ascii String List Bool Lia DecimalString.
From Stdlib Require Import Sorting.Sorted Sorting.Permutation.
From Stdlib Require Import Floats Uint63 SpecFloat.
From stdpp Require Import base option gmap strings.

Local Open Scope nat_scope.

(** ** JavaScript string built-ins *)
Module JsString.

Definition code (c : ascii) : nat := nat_of_ascii c.

(** The double quote, [U+0022]. *)
Definition dq : ascii := ascii_of_nat 34.
Definition sq : ascii := ascii_of_nat 39.
Definition lf : ascii := ascii_of_nat 10.
Definition cr : ascii := ascii_of_nat 13.
Definition backslash : ascii := ascii_of_nat 92.

Definition ascii_eqb (a b : ascii) : bool := Ascii.eqb a b.

(** [\s] and the characters removed by [String.prototype.trim]:
    TAB, LF, VT, FF, CR, SP and NBSP (the ones below [U+0100]). *)
Definition is_space (c : ascii) : bool :=
  let n := code c in
  ((9 <=? n) && (n <=? 13)) || (n =? 32) || (n =? 160).

(** Line terminators below [U+0100]: LF and CR. *)
Definition is_line_terminator (c : ascii) : bool :=
  let n := code c in (n =? 10) || (n =? 13).

Definition is_digit (c : ascii) : bool :=
  let n := code c in (48 <=? n) && (n <=? 57).

Definition is_upper (c : ascii) : bool :=
  let n := code c in (65 <=? n) && (n <=? 90).

Definition is_lower (c : ascii) : bool :=
  let n := code c in (97 <=? n) && (n <=? 122).

(** [\w] *)
Definition is_word (c : ascii) : bool :=
  is_digit c || is_upper c || is_lower c || (code c =? 95).

(** [[-_]] *)
Definition isDashOrUnderscore (c : ascii) : bool := (code c =? 45) || (code c =? 95).

(** [toLowerCase] of one character: the letters [A]-[Z] and, above
    [U+007F], the capital letters [U+00C0]-[U+00DE] (the multiplication
    sign [U+00D7] apart) have their small letter 32 places further. *)
Definition lower_char (c : ascii) : ascii :=
  let n := code c in
  if is_upper c || ((192 <=? n) && (n <=? 222) && negb (n =? 215))
  then ascii_of_nat (n + 32) else c.

(** [toUpperCase] of one character matched by [\w]. *)
Definition upper_char (c : ascii) : ascii :=
  if is_lower c then ascii_of_nat (code c - 32) else c.

Fixpoint map_chars (f : ascii -> ascii) (s : string) : string :=
  match s with
  | EmptyString => EmptyString
  | String c s' => String (f c) (map_chars f s')
  end.

Definition toLowerCase : string -> string := map_chars lower_char.

(** [toUpperCase] of a one-character string: the small letters have their
    capital 32 places before, and the capital of the sharp s [U+00DF] is
    [SS].  The capitals of the micro sign and of the y with diaeresis lie
    above [U+00FF]: these two characters are left as they are. *)
Definition capital (c : ascii) : string :=
  let n := code c in
  if is_lower c || ((224 <=? n) && (n <=? 254) && negb (n =? 247))
  then String (ascii_of_nat (n - 32)) EmptyString
  else if n =? 223 then String (ascii_of_nat 83) (String (ascii_of_nat 83) EmptyString)
  else String c EmptyString.

Fixpoint rev_onto (s acc : string) : string :=
  match s with
  | EmptyString => acc
  | String c s' => rev_onto s' (String c acc)
  end.

Definition rev (s : string) : string := rev_onto s EmptyString.

Fixpoint trimStart (s : string) : string :=
  match s with
  | String c s' => if is_space c then trimStart s' else s
  | EmptyString => EmptyString
  end.

Definition trimEnd (s : string) : string := rev (trimStart (rev s)).

Definition trim (s : string) : string := trimEnd (trimStart s).

Fixpoint startsWith (s p : string) : bool :=
  match p, s with
  | EmptyString, _ => true
  | String a p', String b s' => ascii_eqb a b && startsWith s' p'
  | String _ _, EmptyString => false
  end.

Definition endsWith (s p : string) : bool := startsWith (rev s) (rev p).

(** [s.indexOf(p)] as the number of characters before the first occurrence. *)
Fixpoint find (s p : string) : option nat :=
  if startsWith s p then Some 0
  else match s with
       | EmptyString => None
       | String _ s' => S <$> find s' p
       end.

(** [s.indexOf(p)], with [-1] when there is no occurrence. *)
Definition indexOf (s p : string) : Z :=
  match find s p with Some n => Z.of_nat n | None => (-1)%Z end.

Definition includes (s p : string) : bool :=
  match find s p with Some _ => true | None => false end.

Fixpoint drop (n : nat) (s : string) : string :=
  match n, s with
  | O, _ => s
  | S n', String _ s' => drop n' s'
  | S _, EmptyString => EmptyString
  end.

Fixpoint take (n : nat) (s : string) : string :=
  match n, s with
  | O, _ => EmptyString
  | S n', String c s' => String c (take n' s')
  | S _, EmptyString => EmptyString
  end.

(** [s.substring(i)] and [s.substring(i, j)] for [0 <= i <= j]. *)
Definition substringFrom (s : string) (i : nat) : string := drop i s.
Definition substring (s : string) (i j : nat) : string := take (j - i) (drop i s).

(** [s.slice(1, -1)] *)
Definition slice_1_m1 (s : string) : string :=
  substring s 1 (String.length s - 1).

(** [s.split(c)] for a one-character separator. *)
Fixpoint split_go (sep : ascii) (s : string) (cur : string) : list string :=
  match s with
  | EmptyString => [rev cur]
  | String c s' =>
      if ascii_eqb c sep then rev cur :: split_go sep s' EmptyString
      else split_go sep s' (String c cur)
  end.

Definition split (sep : ascii) (s : string) : list string :=
  split_go sep s EmptyString.

(** [s.split(/[...]/)] for a class of one-character separators. *)
Fixpoint splitWhere_go (p : ascii -> bool) (s : string) (cur : string) : list string :=
  match s with
  | EmptyString => [rev cur]
  | String c s' =>
      if p c then rev cur :: splitWhere_go p s' EmptyString
      else splitWhere_go p s' (String c cur)
  end.

Definition splitWhere (p : ascii -> bool) (s : string) : list string :=
  splitWhere_go p s EmptyString.

(** [l.join(sep)] *)
Fixpoint join (sep : string) (l : list string) : string :=
  match l with
  | [] => EmptyString
  | [x] => x
  | x :: l' => x +:+ sep +:+ join sep l'
  end.

(** [s.replace(/\\/g, '/')] and the like: a character-wise replacement. *)
Definition replaceChars (p : ascii -> bool) (by_ : ascii) (s : string) : string :=
  map_chars (fun c => if p c then by_ else c) s.

Definition isBackslash (c : ascii) : bool := code c =? 92.
Definition slash : ascii := ascii_of_nat 47.

(** [s.replace(/\\/g, '/')] *)
Definition normalizeSeparators (s : string) : string :=
  replaceChars isBackslash slash s.

(** [s.replace(/^p/, '')] for a literal [p]. *)
Definition stripPrefix (p s : string) : string :=
  if startsWith s p then drop (String.length p) s else s.

(** [s.replace(/p$/, '')] for a literal [p]. *)
Definition stripSuffix (p s : string) : string :=
  if endsWith s p then take (String.length s - String.length p) s else s.

(** The expansion of the replacement text of [String.prototype.replace]
    with a string pattern (GetSubstitution without captures): [$$] is a
    dollar, [$&] the matched text, [$`] the text before the match and
    [$'] the text after it; any other character stands for itself. *)
Fixpoint getSubstitution (matched before after repl : string) : string :=
  match repl with
  | EmptyString => EmptyString
  | String c r =>
      if code c =? 36 then
        match r with
        | String d r' =>
            if code d =? 36 then String c (getSubstitution matched before after r')
            else if code d =? 38 then matched +:+ getSubstitution matched before after r'
            else if code d =? 96 then before +:+ getSubstitution matched before after r'
            else if code d =? 39 then after +:+ getSubstitution matched before after r'
            else String c (getSubstitution matched before after r)
        | EmptyString => String c EmptyString
        end
      else String c (getSubstitution matched before after r)
  end.

(** [s.replace(p, repl)] for string [p] and [repl]: only the first
    occurrence is replaced. *)
Definition replace (s p repl : string) : string :=
  match find s p with
  | None => s
  | Some i =>
      let before := take i s in
      let after := drop (i + String.length p) s in
      before +:+ getSubstitution p before after repl +:+ after
  end.

(** The default order of [Array.prototype.sort]: code units,
    lexicographically. *)
Fixpoint ltb (a b : string) : bool :=
  match a, b with
  | _, EmptyString => false
  | EmptyString, String _ _ => true
  | String x a', String y b' =>
      if code x <? code y then true
      else if code y <? code x then false
      else ltb a' b'
  end.

Definition leb (a b : string) : bool := negb (ltb b a).

Fixpoint sort_insert (x : string) (l : list string) : list string :=
  match l with
  | [] => [x]
  | y :: l' => if leb x y then x :: l else y :: sort_insert x l'
  end.

(** [l.sort()] on strings. *)
Definition sort (l : list string) : list string :=
  fold_right sort_insert [] l.

End JsString.

(** ** Regular expressions, with the backtracking semantics of the language

    A pattern is matched by a continuation-passing matcher: alternatives
    are tried from left to right, a greedy star tries one more iteration
    before the continuation and a lazy star the continuation first; an
    iteration that consumes nothing fails, as in RepeatMatcher. *)
Module Regex.
Import JsString.

Inductive regex : Type :=
| Eps
| Chr (p : ascii -> bool)
| Cat (r1 r2 : regex)
| Alt (r1 r2 : regex)
| Star (greedy : bool) (r : regex)
| Group (n : nat) (r : regex)
| LineStart
| LineEnd
| InputStart
| InputEnd.

(** The matcher's state: the last character consumed, the rest of the
    input, the index reached and the captures (group, start, end). *)
Record mstate : Type := MState {
  prev : option ascii;
  rest : string;
  pos : nat;
  caps : list (nat * (nat * nat))
}.

Definition advance (c : ascii) (tl : string) (st : mstate) : mstate :=
  MState (Some c) tl (S (pos st)) (caps st).

Definition capture (n : nat) (from : nat) (st : mstate) : mstate :=
  MState (prev st) (rest st) (pos st) ((n, (from, pos st)) :: caps st).

Definition orElse {A} (x y : option A) : option A :=
  match x with Some _ => x | None => y end.

(** The iterations of a star whose body is matched by [body]. *)
Fixpoint star_loop {A : Type}
    (body : mstate -> (mstate -> option A) -> option A)
    (greedy : bool) (k : mstate -> option A)
    (fuel : nat) (st : mstate) : option A :=
  match fuel with
  | O => k st
  | S fuel' =>
      let again :=
        body st (fun st' =>
          if pos st' =? pos st then None
          else star_loop body greedy k fuel' st') in
      if greedy then orElse again (k st) else orElse (k st) again
  end.

Fixpoint rmatch {A : Type} (r : regex) (st : mstate)
    (k : mstate -> option A) : option A :=
  match r with
  | Eps => k st
  | Chr p =>
      match rest st with
      | String c tl => if p c then k (advance c tl st) else None
      | EmptyString => None
      end
  | Cat r1 r2 => rmatch r1 st (fun st' => rmatch r2 st' k)
  | Alt r1 r2 => orElse (rmatch r1 st k) (rmatch r2 st k)
  | Star greedy r1 =>
      star_loop (rmatch r1) greedy k (S (String.length (rest st))) st
  | Group n r1 => rmatch r1 st (fun st' => k (capture n (pos st) st'))
  | LineStart =>
      match prev st with
      | None => k st
      | Some c => if is_line_terminator c then k st else None
      end
  | LineEnd =>
      match rest st with
      | EmptyString => k st
      | String c _ => if is_line_terminator c then k st else None
      end
  | InputStart => match prev st with None => k st | Some _ => None end
  | InputEnd => match rest st with EmptyString => k st | String _ _ => None end
  end.

(** Derived forms. *)
Definition lit_char (c : ascii) : regex := Chr (ascii_eqb c).

Fixpoint lit (s : string) : regex :=
  match s with
  | EmptyString => Eps
  | String c EmptyString => lit_char c
  | String c s' => Cat (lit_char c) (lit s')
  end.

Definition plus (r : regex) : regex := Cat r (Star true r).
Definition opt (r : regex) : regex := Alt r Eps.
Fixpoint seq (l : list regex) : regex :=
  match l with
  | [] => Eps
  | [r] => r
  | r :: l' => Cat r (seq l')
  end.

(** A match: where it starts and ends, and its captures. *)
Record rmatch_result : Type := Match {
  m_start : nat;
  m_end : nat;
  m_caps : list (nat * (nat * nat))
}.

(** The match of [r] that starts exactly at the state [st], if any. *)
Definition match_here (r : regex) (st : mstate) : option rmatch_result :=
  rmatch r st (fun st' => Some (Match (pos st) (pos st') (caps st'))).

(** The leftmost match at or after the state [st]. *)
Fixpoint search (r : regex) (fuel : nat) (st : mstate) : option rmatch_result :=
  match match_here r st with
  | Some m => Some m
  | None =>
      match fuel, rest st with
      | S fuel', String c tl => search r fuel' (MState (Some c) tl (S (pos st)) [])
      | _, _ => None
      end
  end.

Definition start_state (s : string) : mstate := MState None s 0 [].

(** [r.exec(s)] without the [g] flag. *)
Definition exec (r : regex) (s : string) : option rmatch_result :=
  search r (String.length s) (start_state s).

(** [r.test(s)] *)
Definition test (r : regex) (s : string) : bool :=
  match exec r s with Some _ => true | None => false end.

(** The state [i] characters after [st], captures forgotten. *)
Fixpoint skip (i : nat) (st : mstate) : mstate :=
  match i, rest st with
  | S i', String c tl => skip i' (MState (Some c) tl (S (pos st)) [])
  | _, _ => MState (prev st) (rest st) (pos st) []
  end.

(** [s.matchAll(r)] with the [g] flag: the successive leftmost matches,
    each search starting where the previous match ended (one further when
    the match was empty). *)
Fixpoint matchAll_from (r : regex) (fuel : nat) (st : mstate) : list rmatch_result :=
  match fuel with
  | O => []
  | S fuel' =>
      match search r (String.length (rest st)) st with
      | None => []
      | Some m =>
          let next := if m_end m =? m_start m then S (m_end m) else m_end m in
          if String.length (rest st) + pos st <? next then [m]
          else m :: matchAll_from r fuel' (skip (next - pos st) st)
      end
  end.

Definition matchAll (r : regex) (s : string) : list rmatch_result :=
  matchAll_from r (S (String.length s)) (start_state s).

(** The text of capture group [n] of a match in [s] ([undefined] when the
    group did not take part in the match).  The most recent capture of a
    group is the first in the list. *)
Fixpoint lookup_cap (n : nat) (cs : list (nat * (nat * nat))) : option (nat * nat) :=
  match cs with
  | [] => None
  | (g, se) :: cs' => if g =? n then Some se else lookup_cap n cs'
  end.

Definition group (s : string) (m : rmatch_result) (n : nat) : option string :=
  match n with
  | O => Some (substring s (m_start m) (m_end m))
  | _ => match lookup_cap n (m_caps m) with
         | Some (a, b) => Some (substring s a b)
         | None => None
         end
  end.

End Regex.

(** ** Node's [path] module, POSIX flavour *)
Module NodePath.
Import JsString.

Definition isSlash (c : ascii) : bool := code c =? 47.

(** One step of [normalizeString]: the segments kept so far, last first. *)
Definition normalizeStep (allowAboveRoot : bool) (stack : list string)
    (seg : string) : list string :=
  if String.eqb seg "" then stack
  else if String.eqb seg "." then stack
  else if String.eqb seg ".." then
    match stack with
    | top :: stack' =>
        if String.eqb top ".." then
          (if allowAboveRoot then seg :: stack else stack)
        else stack'
    | [] => if allowAboveRoot then [seg] else []
    end
  else seg :: stack.

Definition normalizeString (path : string) (allowAboveRoot : bool) : string :=
  join "/" (List.rev (fold_left (normalizeStep allowAboveRoot) (split slash path) [])).

(** [path.normalize(p)] *)
Definition normalize (path : string) : string :=
  if String.eqb path "" then "."
  else
    let isAbsolute := startsWith path "/" in
    let trailingSeparator := endsWith path "/" in
    let p := normalizeString path (negb isAbsolute) in
    if String.eqb p "" then
      (if isAbsolute then "/" else if trailingSeparator then "./" else ".")
    else
      let p' := if trailingSeparator then p +:+ "/" else p in
      if isAbsolute then "/" +:+ p' else p'.

(** [path.join(...args)] *)
Definition join (args : list string) : string :=
  let parts := List.filter (fun a => negb (String.eqb a "")) args in
  match parts with
  | [] => "."
  | _ => normalize (JsString.join "/" parts)
  end.

(** The comparison of the last component with the extension, both read
    from their ends, as the loop of [basename] performs it. *)
Inductive suffix_scan : Type :=
| Mismatch
| SuffixDone (rest_rev : string)
| ComponentDone.

Fixpoint scan_suffix (comp_rev suffix_rev : string) : suffix_scan :=
  match suffix_rev with
  | EmptyString => SuffixDone comp_rev
  | String b suffix' =>
      match comp_rev with
      | EmptyString => ComponentDone
      | String a comp' =>
          if ascii_eqb a b then scan_suffix comp' suffix' else Mismatch
      end
  end.

Fixpoint dropSlashes (s : string) : string :=
  match s with
  | String c s' => if isSlash c then dropSlashes s' else s
  | EmptyString => EmptyString
  end.

Fixpoint takeToSlash (s : string) : string :=
  match s with
  | String c s' => if isSlash c then EmptyString else String c (takeToSlash s')
  | EmptyString => EmptyString
  end.

(** [path.basename(p, suffix)] *)
Definition basename (path suffix : string) : string :=
  let stripped_rev := dropSlashes (rev path) in
  let comp_rev := takeToSlash stripped_rev in
  let comp := rev comp_rev in
  if negb (String.eqb suffix "") && (String.length suffix <=? String.length path) then
    if String.eqb suffix path then ""
    else if String.eqb stripped_rev "" then path
    else
      match scan_suffix comp_rev (rev suffix) with
      | Mismatch => comp
      | SuffixDone rest_rev =>
          if String.eqb rest_rev "" then comp else rev rest_rev
      | ComponentDone =>
          comp +:+ drop (String.length stripped_rev) path
      end
  else comp.

End NodePath.

(** ** [metadata-parser.ts] *)
Module MetadataParser.
Import JsString Regex.

(** The values [parseValue] produces.  A number is a finite binary64,
    held as the rational that it is; [parseInt] and [parseFloat] below
    read a literal exactly, which is the number of the source whenever
    the literal denotes a binary64 (the rounding of the other literals,
    and the overflow of the longest, are not modelled). *)
Inductive jsvalue : Type :=
| VString (s : string)
| VBool (b : bool)
| VNull
| VNumber (q : Q)
| VArray (items : list string).

(** A metadata object: the own properties of a [Record<string, any>]. *)
Abbreviation Metadata := (gmap string jsvalue).

Record parsed : Type := Parsed {
  p_metadata : Metadata;
  p_content : string
}.

Definition digit : regex := Chr is_digit.

(** [/^-?\d+$/] *)
Definition INT_PATTERN : regex :=
  seq [InputStart; opt (lit "-"); plus digit; InputEnd].

(** [/^-?\d*\.?\d+$/] *)
Definition FLOAT_PATTERN : regex :=
  seq [InputStart; opt (lit "-"); Star true digit; opt (lit "."); plus digit; InputEnd].

Definition digit_value (c : ascii) : Z := Z.of_nat (code c - 48).

(** The number denoted by the leading decimal digits of [s], read after
    [acc], together with the number of digits read and the rest. *)
Fixpoint read_digits (s : string) (acc : Z) (n : nat) : Z * nat * string :=
  match s with
  | String c s' =>
      if is_digit c then read_digits s' (acc * 10 + digit_value c)%Z (S n)
      else (acc, n, s)
  | EmptyString => (acc, n, s)
  end.

(** An optional sign: [true] for a minus. *)
Definition read_sign (s : string) : bool * string :=
  match s with
  | String c s' =>
      if code c =? 45 then (true, s')
      else if code c =? 43 then (false, s')
      else (false, s)
  | EmptyString => (false, s)
  end.

(** [parseInt(s, 10)]: [None] stands for [NaN].  The digits are read
    exactly: this is the number of the source when its magnitude is at
    most [2^53], or when it is another binary64. *)
Definition parseInt (s : string) : option Z :=
  let '(neg, s1) := read_sign (trimStart s) in
  let '(v, n, _) := read_digits s1 0%Z 0 in
  if n =? 0 then None else Some (if neg then (- v)%Z else v).

Definition pow10 (k : nat) : positive := Nat.iter k (Pos.mul 10) 1%positive.

(** [parseFloat(s)] on decimal literals without exponent: [None] stands
    for [NaN].  The literal is read exactly: this is the number of the
    source when the literal denotes a binary64, as [0.5] and [2.75] do. *)
Definition parseFloat (s : string) : option Q :=
  let '(neg, s1) := read_sign (trimStart s) in
  let '(ip, n, s2) := read_digits s1 0%Z 0 in
  let '(num, k, m) :=
    match s2 with
    | String c s3 =>
        if code c =? 46 then
          let '(v, k, _) := read_digits s3 ip 0 in (v, k, n + k)
        else (ip, 0, n)
    | EmptyString => (ip, 0, n)
    end in
  if m =? 0 then None
  else Some (Qmake (if neg then (- num)%Z else num) (pow10 k)).

Definition number_or_string (s : string) (o : option Q) : jsvalue :=
  match o with Some q => VNumber q | None => VString s end.

Definition isQuoted (value : string) : bool :=
  (startsWith value (String dq "") && endsWith value (String dq ""))
  || (startsWith value (String sq "") && endsWith value (String sq "")).

(** [parseValue] *)
Definition parseValue (value : string) : jsvalue :=
  if String.eqb value "" then VString ""
  else if isQuoted value then VString (slice_1_m1 value)
  else if String.eqb (toLowerCase value) "true" then VBool true
  else if String.eqb (toLowerCase value) "false" then VBool false
  else if String.eqb (toLowerCase value) "null" || String.eqb (toLowerCase value) "~"
  then VNull
  else if test INT_PATTERN value then
    match parseInt value with
    | Some z => VNumber (inject_Z z)
    | None => VString value
    end
  else if test FLOAT_PATTERN value then number_or_string value (parseFloat value)
  else if includes value "," && negb (includes value " ") then
    VArray (map trim (split "," value))
  else VString value.

(** The object that [parseMetadataLines] fills: its own properties, and
    whether it still inherits the accessor [__proto__] of
    [Object.prototype].  It does after the literal [{}], and also once an
    array has become its prototype (through [Array.prototype]); it does
    not once its prototype is [null]. *)
Record MetadataObject : Type := MkMetadataObject {
  ownProperties : Metadata;
  inheritsProto : bool
}.

(** The assignment [metadata[key] = v].  While the accessor is inherited,
    the key [__proto__] names it and the assignment creates no own
    property: [null] becomes the prototype of the object, an array becomes
    its prototype, and any other value is ignored.  Every other
    assignment -- also to [__proto__], once the prototype is [null] --
    creates or updates an own property. *)
Definition setProperty (metadata : MetadataObject) (key : string) (v : jsvalue)
    : MetadataObject :=
  if String.eqb key "__proto__" && inheritsProto metadata then
    match v with
    | VNull => MkMetadataObject (ownProperties metadata) false
    | _ => metadata
    end
  else MkMetadataObject (<[key := v]> (ownProperties metadata)) (inheritsProto metadata).

(** One turn of the loop of [parseMetadataLines].  The look-ahead of the
    source for an empty value chooses between two branches that both
    store the empty string. *)
Definition parseMetadataLine (metadata : MetadataObject) (rawLine : string)
    : MetadataObject :=
  let line := trim rawLine in
  if String.eqb line "" then metadata
  else
    let colonIndex := indexOf line ":" in
    if (0 <? colonIndex)%Z then
      let key := trim (substring line 0 (Z.to_nat colonIndex)) in
      let valueAfterColon := trim (substringFrom line (Z.to_nat colonIndex + 1)) in
      if String.eqb valueAfterColon "" then setProperty metadata key (VString "")
      else setProperty metadata key (parseValue valueAfterColon)
    else metadata.

(** [parseMetadataLines]: the own properties of the object it returns. *)
Definition parseMetadataLines (metadataLines : list string) : Metadata :=
  ownProperties (fold_left parseMetadataLine metadataLines (MkMetadataObject ∅ true)).

(** The index, counted from [i], of the first line that is [---] once
    trimmed. *)
Fixpoint findClosing (lines : list string) (i : nat) : option nat :=
  match lines with
  | [] => None
  | l :: lines' =>
      if String.eqb (trim l) "---" then Some i else findClosing lines' (S i)
  end.

(** [parseMetadata] *)
Definition parseMetadata (content : string) : parsed :=
  let trimmedContent := trim content in
  if negb (startsWith trimmedContent "---") then Parsed ∅ trimmedContent
  else
    let lines := split lf trimmedContent in
    match findClosing (List.tl lines) 1 with
    | None => Parsed ∅ trimmedContent
    | Some metadataEndIndex =>
        let metadataLines := firstn (metadataEndIndex - 1) (skipn 1 lines) in
        let remainingContent :=
          trim (join (String lf "") (skipn (metadataEndIndex + 1) lines)) in
        Parsed (parseMetadataLines metadataLines) remainingContent
    end.

Definition isNull (v : jsvalue) : bool :=
  match v with VNull => true | _ => false end.

(** The clean-up of [parseWithNormalization]: the [globs] field becomes
    an array, the [alwaysApply] field a boolean, and the keys bound to
    [null] are deleted. *)
Definition normalizeGlobs (m : Metadata) : Metadata :=
  match m !! "globs" with
  | Some (VString s) =>
      if String.eqb (trim s) "" then <["globs" := VArray []]> m
      else <["globs" := VArray [s]]> m
  | Some _ => m
  | None => <["globs" := VArray []]> m
  end.

Definition normalizeAlwaysApply (m : Metadata) : Metadata :=
  match m !! "alwaysApply" with
  | Some (VString s) =>
      <["alwaysApply" := VBool (String.eqb (toLowerCase s) "true")]> m
  | Some _ => m
  | None => <["alwaysApply" := VBool false]> m
  end.

Definition removeNulls (m : Metadata) : Metadata :=
  filter (fun kv => isNull kv.2 = false) m.

Definition normalizeMetadata (m : Metadata) : Metadata :=
  removeNulls (normalizeAlwaysApply (normalizeGlobs m)).

(** [parseWithNormalization] *)
Definition parseWithNormalization (content : string) : parsed :=
  let result := parseMetadata content in
  Parsed (normalizeMetadata (p_metadata result)) (p_content result).

End MetadataParser.

(** ** [types.ts] *)
Module Types.
Import MetadataParser.

Record TOCItem : Type := MkTOCItem {
  toc_value : string;
  toc_id : string;
  toc_level : nat
}.

Record InternalPluginConfig : Type := MkConfig {
  sourceDir : string;
  targetPath : string;
  includeMetadata : bool;
  mainRule : string;
  component : string;
  crossReferenceBase : string
}.

Record RuleContent : Type := MkRuleContent {
  id : string;
  filePath : string;
  title : string;
  content : string;
  metadata : Metadata;
  permalink : string;
  toc : list TOCItem
}.

Record CrossReference : Type := MkCrossReference {
  original : string;
  resolved : string;
  isValid : bool
}.

Record ProcessingResult : Type := MkProcessingResult {
  r_content : list RuleContent;
  r_crossReferences : list CrossReference;
  r_warnings : list string;
  r_errors : list string
}.

End Types.

(** ** A [Map] with string keys: its entries in insertion order *)
Module JsMap.

Definition t (V : Type) : Type := list (string * V).

Definition empty {V} : t V := [].

Fixpoint has {V} (m : t V) (k : string) : bool :=
  match m with
  | [] => false
  | (k', _) :: m' => String.eqb k' k || has m' k
  end.

(** [m.set(k, v)]: a known key keeps its place. *)
Fixpoint set {V} (m : t V) (k : string) (v : V) : t V :=
  match m with
  | [] => [(k, v)]
  | (k', v') :: m' =>
      if String.eqb k' k then (k', v) :: m' else (k', v') :: set m' k v
  end.

Definition keys {V} (m : t V) : list string := map fst m.

(** The change [f] made in place to the value that [m.get(k)] returns. *)
Fixpoint update {V} (m : t V) (k : string) (f : V -> V) : t V :=
  match m with
  | [] => []
  | (k', v) :: m' =>
      if String.eqb k' k then (k', f v) :: m' else (k', v) :: update m' k f
  end.

End JsMap.

(** ** Numbers of the statistics: IEEE 754 binary64 *)
Module JsNumber.

(** The number of a length or a count (exact below [2^53]). *)
Definition ofNat (n : nat) : float := of_uint63 (Uint63.of_Z (Z.of_nat n)).

Definition ofZ (z : Z) : float :=
  if (z <? 0)%Z then PrimFloat.opp (of_uint63 (Uint63.of_Z (- z)))
  else of_uint63 (Uint63.of_Z z).

(** [Math.round(x)]: the integer closest to [x], a tie going towards
    plus infinity; zeros, infinities and [NaN] are returned as they are,
    and a result of zero keeps the sign of [x]. *)
Definition round (x : float) : float :=
  match Prim2SF x with
  | S754_finite s m e =>
      if (0 <=? e)%Z then x
      else
        let sm := if s then Z.neg m else Z.pos m in
        let r := ((2 * sm + 2 ^ (- e)) / 2 ^ (1 - e))%Z in
        if (r =? 0)%Z then (if s then PrimFloat.opp 0%float else 0%float)
        else ofZ r
  | _ => x
  end.

End JsNumber.

(** ** [link-resolver.ts] *)
Module LinkResolver.
Import JsString Regex Types.

Definition notSpaceNorQuote (c : ascii) : bool :=
  negb (is_space c || ascii_eqb c dq || ascii_eqb c sq).

Definition notSpaceNorBracket (c : ascii) : bool :=
  negb (is_space c || (code c =? 41) || (code c =? 93)).

Definition isQuote (c : ascii) : bool := ascii_eqb c dq || ascii_eqb c sq.
Definition notGt (c : ascii) : bool := negb (code c =? 62).
Definition notLt (c : ascii) : bool := negb (code c =? 60).
Definition dot : regex := Chr (fun c => negb (is_line_terminator c)).
Definition ws : regex := Chr is_space.

(** The three forms of a reference, over the characters [cls]:
    [\.\/cls+\.mdc|\.cursor\/rules\/cls+\.mdc|mdc:cls+\.mdc]. *)
Definition reference (cls : ascii -> bool) : regex :=
  Alt (seq [lit "./"; plus (Chr cls); lit ".mdc"])
   (Alt (seq [lit ".cursor/rules/"; plus (Chr cls); lit ".mdc"])
        (seq [lit "mdc:"; plus (Chr cls); lit ".mdc"])).

(** [MDC_LINK_PATTERN]: group 1 is an anchor element, group 2 its
    destination, group 3 a bare reference. *)
Definition MDC_LINK_PATTERN : regex :=
  Alt
    (Group 1
       (seq [lit "<a"; plus ws; Star true (Chr notGt); lit "href";
             Star true ws; lit "="; Star true ws; Chr isQuote;
             Group 2 (reference notSpaceNorQuote);
             Chr isQuote; Star true (Chr notGt); lit ">";
             Star false dot; lit "</a>"]))
    (Group 3 (reference notSpaceNorBracket)).

(** The pattern of the label: a [>], group 1 with the longest run of
    characters other than [<], and a [<]. *)
Definition LINK_TEXT_PATTERN : regex :=
  seq [lit ">"; Group 1 (Star true (Chr notLt)); lit "<"].

Abbreviation DiscoveredFiles := (JsMap.t RuleContent).

(** [setDiscoveredFiles] *)
Definition setDiscoveredFiles (ruleContents : list RuleContent) : DiscoveredFiles :=
  fold_left
    (fun files content =>
       let files1 := JsMap.set files (filePath content) content in
       JsMap.set files1 (normalizeSeparators (filePath content)) content)
    ruleContents JsMap.empty.

(** The path relative to the source root that [resolveSingleLink] derives
    from a reference (its variable [targetFilePath]). *)
Definition targetFilePath (config : InternalPluginConfig) (originalLink : string) : string :=
  if startsWith originalLink "mdc:" then
    let mdcPath := substringFrom originalLink 4 in
    if startsWith mdcPath (sourceDir config +:+ "/") then
      substringFrom mdcPath (String.length (sourceDir config) + 1)
    else if startsWith mdcPath ("./" +:+ sourceDir config +:+ "/") then
      substringFrom mdcPath (String.length ("./" +:+ sourceDir config +:+ "/"))
    else mdcPath
  else if includes originalLink ".cursor/rules/" then
    let rulesIndex :=
      (indexOf originalLink ".cursor/rules/" + Z.of_nat (String.length ".cursor/rules/"))%Z in
    substringFrom originalLink (Z.to_nat rulesIndex)
  else if startsWith originalLink "./" then substringFrom originalLink 2
  else originalLink.

(** [validateTargetExists] *)
Definition validateTargetExists (files : DiscoveredFiles)
    (relativePath originalLink : string) : bool :=
  if JsMap.has files relativePath then true
  else
    let cleanPath := stripPrefix "./" relativePath in
    if JsMap.has files cleanPath then true
    else
      let normalizedPath := normalizeSeparators cleanPath in
      if JsMap.has files normalizedPath then true else false.

(** [resolveSingleLink]; nothing in its [try] block throws. *)
Definition resolveSingleLink (config : InternalPluginConfig) (files : DiscoveredFiles)
    (originalLink sourceFilePath : string) : CrossReference :=
  let targetFilePath := targetFilePath config originalLink in
  let pathWithoutExt := stripSuffix ".mdc" targetFilePath in
  let normalizedPath := normalizeSeparators pathWithoutExt in
  let resolvedUrl := NodePath.join [crossReferenceBase config; normalizedPath] in
  let isValid := validateTargetExists files targetFilePath originalLink in
  MkCrossReference originalLink resolvedUrl isValid.

(** The label of an anchor element: [textMatch ? textMatch[1] : 'link']. *)
Definition linkTextOf (anchorTag : string) : string :=
  match exec LINK_TEXT_PATTERN anchorTag with
  | Some textMatch =>
      match group anchorTag textMatch 1 with Some t => t | None => "link" end
  | None => "link"
  end.

Definition newAnchorTag (resolved linkText : string) : string :=
  "<a href=" +:+ String dq resolved +:+ String dq ">" +:+ linkText +:+ "</a>".

(** A capture that is defined and not empty. *)
Definition truthy (o : option string) : option string :=
  match o with
  | Some s => if String.eqb s "" then None else Some s
  | None => None
  end.

Record resolution : Type := MkResolution {
  res_content : string;
  res_crossReferences : list CrossReference
}.

(** One turn of the loop of [resolveLinks] over the matches. *)
Definition resolveMatch (config : InternalPluginConfig) (files : DiscoveredFiles)
    (content sourceFilePath : string)
    (acc : resolution) (m : rmatch_result) : resolution :=
  match truthy (group content m 1) with
  | Some anchorTag =>
      let originalLink := default "" (group content m 2) in
      let linkText := linkTextOf anchorTag in
      let resolvedInfo := resolveSingleLink config files originalLink sourceFilePath in
      MkResolution
        (replace (res_content acc) anchorTag (newAnchorTag (resolved resolvedInfo) linkText))
        (res_crossReferences acc ++ [resolvedInfo])
  | None =>
      match truthy (group content m 3) with
      | Some originalLink =>
          let resolvedInfo := resolveSingleLink config files originalLink sourceFilePath in
          MkResolution
            (replace (res_content acc) originalLink (resolved resolvedInfo))
            (res_crossReferences acc ++ [resolvedInfo])
      | None => acc
      end
  end.

(** [resolveLinks] *)
Definition resolveLinks (config : InternalPluginConfig) (files : DiscoveredFiles)
    (content sourceFilePath : string) : resolution :=
  fold_left (resolveMatch config files content sourceFilePath)
    (matchAll MDC_LINK_PATTERN content) (MkResolution content []).

(** [findSimilarFiles] *)
Definition isSimilar (linkBasename file : string) : bool :=
  let fileBasename := toLowerCase (NodePath.basename file ".mdc") in
  if String.eqb fileBasename linkBasename then true
  else includes fileBasename linkBasename || includes linkBasename fileBasename.

Definition findSimilarFiles (originalLink : string) (availableFiles : list string) : list string :=
  let linkBasename := toLowerCase (NodePath.basename originalLink ".mdc") in
  firstn 3 (List.filter (isSimilar linkBasename) availableFiles).

(** The known paths a warning lists: the keys with the extension, each
    prefixed with [./], sorted. *)
Definition availableFiles (files : DiscoveredFiles) : list string :=
  sort (map (fun path => "./" +:+ path)
          (List.filter (fun path => endsWith path ".mdc") (JsMap.keys files))).

(** The decimal text of a number, as a template literal prints it. *)
Definition showNat (n : nat) : string :=
  DecimalString.NilZero.string_of_uint (Nat.to_uint n).

Definition newline : string := String lf "".

(** The message [generateWarnings] builds for one broken reference. *)
Definition warningMessage (files : DiscoveredFiles) (sourceFilePath : string)
    (ref : CrossReference) : string :=
  let availableFiles := availableFiles files in
  let suggestions := findSimilarFiles (original ref) availableFiles in
  let header := "Broken cross-reference in " +:+ sourceFilePath +:+ ": " +:+ original ref in
  let withSuggestions :=
    if 0 <? List.length suggestions
    then header +:+ newline +:+ "  Suggestions: " +:+ join ", " suggestions
    else header in
  let withAvailable :=
    withSuggestions +:+ newline +:+ "  Available files: " +:+ join ", " (firstn 5 availableFiles) in
  if 5 <? List.length availableFiles
  then withAvailable +:+ " (and " +:+ showNat (List.length availableFiles - 5) +:+ " more)"
  else withAvailable.

(** [generateWarnings] *)
Definition generateWarnings (files : DiscoveredFiles)
    (crossReferences : list CrossReference) (sourceFilePath : string) : list string :=
  fold_left
    (fun warnings ref =>
       if negb (isValid ref) then warnings ++ [warningMessage files sourceFilePath ref]
       else warnings)
    crossReferences [].

Record ResolutionStats : Type := MkStats {
  total : nat;
  valid : nat;
  broken : nat;
  successRate : float
}.

(** [getResolutionStats] *)
Definition getResolutionStats (allCrossReferences : list CrossReference) : ResolutionStats :=
  let total := List.length allCrossReferences in
  let valid := List.length (List.filter isValid allCrossReferences) in
  let broken := total - valid in
  let successRate :=
    if PrimFloat.ltb 0%float (JsNumber.ofNat total)
    then ((JsNumber.ofNat valid / JsNumber.ofNat total) * 100)%float
    else 100%float in
  MkStats total valid broken (JsNumber.round (successRate * 100) / 100)%float.

End LinkResolver.

(** ** [sidebar-generator.ts] *)
Module SidebarGenerator.
Import JsString MetadataParser Types.

#[local] Set Warnings "-register-all".

(** A [SidebarItem]: a link or a category, each with the optional
    [position] of the intersection type.  A position is a finite number,
    taken as the rational it is. *)
Inductive SidebarItem : Type :=
| Link (label href : string) (position : option Q)
| Category (label : string) (items : list SidebarItem)
    (collapsed collapsible : bool) (position : option Q).

Definition label (item : SidebarItem) : string :=
  match item with
  | Link l _ _ => l
  | Category l _ _ _ _ => l
  end.

Definition position (item : SidebarItem) : option Q :=
  match item with
  | Link _ _ p => p
  | Category _ _ _ _ p => p
  end.

(** The truth value of a metadata value ([ToBoolean]). *)
Definition truthy (v : jsvalue) : bool :=
  match v with
  | VString s => negb (String.eqb s "")
  | VBool b => b
  | VNull => false
  | VNumber q => negb (Qeq_bool q 0)
  | VArray _ => true
  end.

(** [a || b] on properties that may be [undefined]. *)
Definition jsOr (a b : option jsvalue) : option jsvalue :=
  match a with
  | Some v => if truthy v then a else b
  | None => b
  end.

(** [extractSidebarPosition] *)
Definition extractSidebarPosition (metadata : Metadata) : option Q :=
  let position := jsOr (metadata !! "sidebar_position") (metadata !! "sidebarPosition") in
  match position with
  | Some (VNumber q) => Some q
  | Some (VString s) =>
      match parseInt s with
      | Some parsed => Some (inject_Z parsed)
      | None => None
      end
  | _ => None
  end.

(** [createSidebarItemFromFile], on the rule of the file node. *)
Definition createSidebarItemFromFile (rule : RuleContent) : SidebarItem :=
  Link (title rule) (permalink rule) (extractSidebarPosition (metadata rule)).

(** The comparison function given to [sort] in [sortSidebarItems];
    [localeCompare] is the collation of the host. *)
Definition compareItems (localeCompare : string -> string -> Z)
    (a b : SidebarItem) : Q :=
  match position a, position b with
  | Some pa, Some pb => pa - pb
  | Some _, None => inject_Z (-1)
  | None, Some _ => inject_Z 1
  | None, None => inject_Z (localeCompare (label a) (label b))
  end.

(** [Array.prototype.sort] with a comparison function: a stable sort;
    [x] stays before [y] unless the comparison is positive. *)
Fixpoint sortInsert {A} (cmp : A -> A -> Q) (x : A) (l : list A) : list A :=
  match l with
  | [] => [x]
  | y :: l' => if Qle_bool (cmp x y) 0 then x :: l else y :: sortInsert cmp x l'
  end.

Definition sortBy {A} (cmp : A -> A -> Q) (l : list A) : list A :=
  fold_right (sortInsert cmp) [] l.

(** [sortSidebarItems] *)
Definition sortSidebarItems (localeCompare : string -> string -> Z)
    (items : list SidebarItem) : list SidebarItem :=
  sortBy (compareItems localeCompare) items.

(** The nodes of the directory tree. *)
Record FileNode : Type := MkFileNode {
  fn_name : string;
  fn_path : string;
  fn_rule : RuleContent
}.

Inductive DirectoryNode : Type :=
| MkDirectoryNode (name path : string) (children : JsMap.t DirectoryNode)
    (items : list FileNode).

Definition dn_name (node : DirectoryNode) : string :=
  match node with MkDirectoryNode name _ _ _ => name end.

(** The walk of [addFileToTree] from [currentNode]: [dirs] are the
    directories still to enter (created when they are not there yet),
    [entered] the ones already entered; the file node is pushed on the
    items of the last directory. *)
Fixpoint descend (dirs entered : list string) (fileNode : FileNode)
    (currentNode : DirectoryNode) {struct dirs} : DirectoryNode :=
  match currentNode with
  | MkDirectoryNode name path children items =>
      match dirs with
      | [] => MkDirectoryNode name path children (items ++ [fileNode])
      | dirName :: dirs' =>
          let dirPath := join "/" (entered ++ [dirName]) in
          let children' :=
            if JsMap.has children dirName then children
            else JsMap.set children dirName
                   (MkDirectoryNode dirName dirPath JsMap.empty []) in
          MkDirectoryNode name path
            (JsMap.update children' dirName
               (descend dirs' (entered ++ [dirName]) fileNode))
            items
      end
  end.

(** [addFileToTree], with [/] for [path.sep]. *)
Definition addFileToTree (root : DirectoryNode) (rule : RuleContent) : DirectoryNode :=
  let pathParts :=
    List.filter (fun part => negb (String.eqb part "")) (split "/" (filePath rule)) in
  let fileNode :=
    MkFileNode (NodePath.basename (filePath rule) ".mdc") (filePath rule) rule in
  descend (removelast pathParts) [] fileNode root.

(** [buildDirectoryTree] *)
Definition buildDirectoryTree (ruleContent : list RuleContent) : DirectoryNode :=
  fold_left addFileToTree ruleContent (MkDirectoryNode "" "" JsMap.empty []).

(** [formatDirectoryLabel] *)
Definition capitalize (word : string) : string :=
  match word with
  | EmptyString => EmptyString
  | String c word' => capital c +:+ toLowerCase word'
  end.

Definition formatDirectoryLabel (dirName : string) : string :=
  join " " (map capitalize (splitWhere isDashOrUnderscore dirName)).

(** [convertTreeToSidebarItems], with [createSidebarItemFromDirectory]
    in the second loop: the files of the directory, then its
    subdirectories as categories, sorted. *)
Fixpoint convertTreeToSidebarItems (localeCompare : string -> string -> Z)
    (tree : DirectoryNode) : list SidebarItem :=
  match tree with
  | MkDirectoryNode _ _ children items =>
      sortSidebarItems localeCompare
        (map (fun fileNode => createSidebarItemFromFile (fn_rule fileNode)) items ++
         map (fun entry =>
                match entry with
                | (_, dirNode) =>
                    Category (formatDirectoryLabel (dn_name dirNode))
                      (convertTreeToSidebarItems localeCompare dirNode)
                      true true None
                end)
             children)
  end.

(** [generateSidebar] *)
Definition generateSidebar (localeCompare : string -> string -> Z)
    (ruleContent : list RuleContent) : list SidebarItem :=
  convertTreeToSidebarItems localeCompare (buildDirectoryTree ruleContent).

End SidebarGenerator.

(** ** [content-loader.ts] *)
Module ContentLoader.
Import JsString Regex MetadataParser Types.

(** The result of a call that may throw. *)
Inductive outcome (A : Type) : Type :=
| Returned (a : A)
| Thrown (message : string).
Arguments Returned {A} a.
Arguments Thrown {A} message.

#[export] Instance outcome_ret : MRet outcome := fun A a => Returned a.
#[export] Instance outcome_fmap : FMap outcome := fun A B f x =>
  match x with
  | Returned a => Returned (f a)
  | Thrown e => Thrown e
  end.
#[export] Instance outcome_bind : MBind outcome := fun A B f x =>
  match x with
  | Returned a => f a
  | Thrown e => Thrown e
  end.

(** [try { body } catch (error) { handler(error) }] *)
Definition tryCatch {A} (body : outcome A) (handler : string -> outcome A) : outcome A :=
  match body with
  | Returned a => Returned a
  | Thrown e => handler e
  end.

(** The collaborators of the loader: the file system, the enumerator,
    the renderer and the path functions that consult the working
    directory. *)
Record Host : Type := MkHost {
  existsSync : string -> bool;
  glob : string -> outcome (list string);
  readFileSync : string -> outcome string;
  statMtimeISO : string -> outcome string;
  processor : string -> outcome string;
  resolve : string -> string -> string;
  relative : string -> string -> string
}.

(** The pattern of the first heading: line start, [#], spaces, group 1
    with the rest of the line, line end. *)
Definition HEADING_PATTERN : regex :=
  seq [LineStart; lit "#"; plus LinkResolver.ws; Group 1 (plus LinkResolver.dot); LineEnd].

(** [s.replace(/\b\w/g, l => l.toUpperCase())]: [before] tells whether
    the previous character is a word character. *)
Fixpoint capitalizeWords (before : bool) (s : string) : string :=
  match s with
  | EmptyString => EmptyString
  | String c s' =>
      String (if is_word c && negb before then upper_char c else c)
             (capitalizeWords (is_word c) s')
  end.

Definition nonEmptyString (o : option jsvalue) : option string :=
  match o with
  | Some (VString s) => if String.eqb s "" then None else Some s
  | _ => None
  end.

(** [extractTitle] *)
Definition extractTitle (metadata : Metadata) (content relativePath : string) : string :=
  match nonEmptyString (metadata !! "title") with
  | Some t => t
  | None =>
      match nonEmptyString (metadata !! "description") with
      | Some d => d
      | None =>
          match exec HEADING_PATTERN content with
          | Some headingMatch => trim (default "" (group content headingMatch 1))
          | None =>
              let filename := NodePath.basename relativePath ".mdc" in
              capitalizeWords false (replaceChars isDashOrUnderscore " "%char filename)
          end
      end
  end.

(** [generatePermalink] *)
Definition generatePermalink (config : InternalPluginConfig) (relativePath : string) : string :=
  let pathWithoutExt := stripSuffix ".mdc" relativePath in
  let normalizedPath := normalizeSeparators pathWithoutExt in
  NodePath.join [crossReferenceBase config; normalizedPath].

(** [processMarkdown]: a failure of the renderer is replaced by the
    content in a [pre] element. *)
Definition processMarkdown (host : Host) (content : string) : outcome string :=
  tryCatch (processor host content)
    (fun _ => Returned ("<pre>" +:+ content +:+ "</pre>")).

(** The pattern of [extractTOC], with the flag [i]: an opening heading
    tag (group 1 is its name), an optional [id] attribute right after the
    name (group 2 is its value), the rest of the tag, the shortest
    content (group 3) and a closing heading tag. *)
Definition ci (c : ascii) : regex :=
  Chr (fun x => ascii_eqb (lower_char x) (lower_char c)).
Definition isLevel (c : ascii) : bool := (49 <=? code c) && (code c <=? 54).
Definition notDq (c : ascii) : bool := negb (ascii_eqb c dq).

Definition HEADING_TAG_PATTERN : regex :=
  seq [lit "<"; Group 1 (Cat (ci "h") (Chr isLevel));
       opt (seq [plus LinkResolver.ws; ci "i"; ci "d"; lit "="; lit_char dq;
                 Group 2 (Star true (Chr notDq)); lit_char dq]);
       Star true (Chr LinkResolver.notGt); lit ">";
       Group 3 (Star false LinkResolver.dot);
       lit "</"; ci "h"; Chr isLevel; lit ">"].

(** The pattern of a tag: [<], characters other than [>], [>]. *)
Definition TAG_PATTERN : regex :=
  seq [lit "<"; Star true (Chr LinkResolver.notGt); lit ">"].

(** The matches that end after index [i]. *)
Fixpoint endingAfter (i : nat) (ms : list rmatch_result) : list rmatch_result :=
  match ms with
  | m :: ms' => if m_end m <=? i then endingAfter i ms' else ms
  | [] => []
  end.

(** The text of [s], read from index [i], outside the matches [ms]. *)
Fixpoint keepOutside (s : string) (i : nat) (ms : list rmatch_result) : string :=
  match s with
  | EmptyString => EmptyString
  | String c s' =>
      let ms' := endingAfter i ms in
      match ms' with
      | m :: _ =>
          if m_start m <=? i then keepOutside s' (S i) ms'
          else String c (keepOutside s' (S i) ms')
      | [] => String c (keepOutside s' (S i) ms')
      end
  end.

(** [s.replace(TAG_PATTERN, '')] with the flag [g]. *)
Definition removeTags (s : string) : string :=
  keepOutside s 0 (matchAll TAG_PATTERN s).

Definition tocItemOf (htmlContent : string) (m : rmatch_result) : option TOCItem :=
  let tagName := toLowerCase (default "" (group htmlContent m 1)) in
  let id := default "" (group htmlContent m 2) in
  let value := trim (removeTags (default "" (group htmlContent m 3))) in
  let level := Z.to_nat (default 0%Z (parseInt (substring tagName 1 2))) in
  if negb (String.eqb id "") && negb (String.eqb value "")
  then Some (MkTOCItem value id level) else None.

(** [extractTOC] *)
Definition extractTOC (htmlContent : string) : list TOCItem :=
  omap (tocItemOf htmlContent) (matchAll HEADING_TAG_PATTERN htmlContent).

(** The [try] block of [processFile]. *)
Definition transform (host : Host) (config : InternalPluginConfig)
    (filePath sourceDir : string) : outcome RuleContent :=
  fileContent ← readFileSync host filePath;
  let parsed := parseWithNormalization fileContent in
  let metadata := p_metadata parsed in
  let content := p_content parsed in
  let relativePath := relative host sourceDir filePath in
  let title := extractTitle metadata content relativePath in
  let permalink := generatePermalink config relativePath in
  processedContent ← processMarkdown host content;
  let toc := extractTOC processedContent in
  let sourceFile := NodePath.join [Types.sourceDir config; relativePath] in
  lastModified ← statMtimeISO host filePath;
  mret (MkRuleContent
          (normalizeSeparators (stripSuffix ".mdc" relativePath))
          relativePath title processedContent
          (<["lastModified" := VString lastModified]>
             (<["sourceFile" := VString sourceFile]> metadata))
          permalink toc).

(** [processFile]: whatever is thrown in the [try] block is logged and
    the result is [null]. *)
Definition processFile (host : Host) (config : InternalPluginConfig)
    (filePath sourceDir : string) : outcome (option RuleContent) :=
  tryCatch (Some <$> transform host config filePath sourceDir)
    (fun _ => Returned None).

(** [discoverMdcFiles]: a failure of the enumerator yields no file. *)
Definition discoverMdcFiles (host : Host) (sourceDir : string) : outcome (list string) :=
  tryCatch
    (glob host (normalizeSeparators (NodePath.join [sourceDir; "**/*.mdc"])))
    (fun _ => Returned []).

(** The first pass of [loadContent]: one turn per file, with the
    [try]/[catch] around the call of [processFile]. *)
Definition processOne (host : Host) (config : InternalPluginConfig) (sourceDir : string)
    (acc : list RuleContent * list string) (filePath : string)
    : list RuleContent * list string :=
  let '(processedContent, errors) := acc in
  match processFile host config filePath sourceDir with
  | Returned (Some content) => (processedContent ++ [content], errors)
  | Returned None => (processedContent, errors)
  | Thrown errorMessage =>
      (processedContent,
       errors ++ ["Error processing file " +:+ filePath +:+ ": " +:+ errorMessage])
  end.

Definition firstPass (host : Host) (config : InternalPluginConfig) (sourceDir : string)
    (mdcFiles : list string) : list RuleContent * list string :=
  fold_left (processOne host config sourceDir) mdcFiles ([], []).

Definition withContent (rule : RuleContent) (newContent : string) : RuleContent :=
  MkRuleContent (id rule) (filePath rule) (title rule) newContent
    (metadata rule) (permalink rule) (toc rule).

(** The second pass: the references of every document are resolved
    against the index of all the documents of the first pass.  (The index
    is consulted through its keys only, which the rewriting of a body
    does not change.) *)
Definition resolveOne (config : InternalPluginConfig) (files : LinkResolver.DiscoveredFiles)
    (acc : list RuleContent * list CrossReference * list string) (content : RuleContent)
    : list RuleContent * list CrossReference * list string :=
  let '(done, allCrossReferences, warnings) := acc in
  let linkResult :=
    LinkResolver.resolveLinks config files (Types.content content) (filePath content) in
  let linkWarnings :=
    LinkResolver.generateWarnings files
      (LinkResolver.res_crossReferences linkResult) (filePath content) in
  (done ++ [withContent content (LinkResolver.res_content linkResult)],
   allCrossReferences ++ LinkResolver.res_crossReferences linkResult,
   warnings ++ linkWarnings).

Definition secondPass (config : InternalPluginConfig) (processedContent : list RuleContent)
    : list RuleContent * list CrossReference * list string :=
  let files := LinkResolver.setDiscoveredFiles processedContent in
  fold_left (resolveOne config files) processedContent ([], [], []).

(** [loadContent] *)
Definition loadContent (host : Host) (config : InternalPluginConfig)
    (projectRoot : string) : ProcessingResult :=
  let sourceDir := resolve host projectRoot (Types.sourceDir config) in
  let body : outcome ProcessingResult :=
    if negb (existsSync host sourceDir) then
      Returned (MkProcessingResult [] []
                  ["Source directory not found: " +:+ sourceDir] [])
    else
      mdcFiles ← discoverMdcFiles host sourceDir;
      let '(processedContent, errors) := firstPass host config sourceDir mdcFiles in
      let '(finalContent, allCrossReferences, warnings) :=
        secondPass config processedContent in
      mret (MkProcessingResult finalContent allCrossReferences warnings errors) in
  match body with
  | Returned result => result
  | Thrown errorMessage =>
      MkProcessingResult [] [] []
        ["Error loading content from " +:+ sourceDir +:+ ": " +:+ errorMessage]
  end.

End ContentLoader.

(** * Facts about the models *)

(** ** Binary64 numbers *)
Module FloatFacts.
Local Open Scope Z_scope.

Lemma digits2_pos_upper (p : positive) : Z.pos p < 2 ^ Z.pos (digits2_pos p).
Proof.
  induction p as [p IH|p IH|]; simpl digits2_pos;
    rewrite ?Pos2Z.inj_succ, ?Z.pow_succ_r by lia; lia.
Qed.

Lemma digits2_pos_le (p : positive) (k : Z) :
  0 <= k -> Z.pos p < 2 ^ k -> Z.pos (digits2_pos p) <= k.
Proof.
  revert k. induction p as [p IH|p IH|]; intros k Hk H; simpl digits2_pos.
  - assert (k <> 0) by (intros ->; simpl in H; lia).
    replace k with (Z.succ (k - 1)) in H by lia.
    rewrite Z.pow_succ_r in H by lia.
    specialize (IH (k - 1)). rewrite Pos2Z.inj_succ. lia.
  - assert (k <> 0) by (intros ->; simpl in H; lia).
    replace k with (Z.succ (k - 1)) in H by lia.
    rewrite Z.pow_succ_r in H by lia.
    specialize (IH (k - 1)). rewrite Pos2Z.inj_succ. lia.
  - assert (k <> 0) by (intros ->; simpl in H; lia). lia.
Qed.

Lemma Zdigits2_le (z k : Z) :
  0 <= z -> 0 <= k -> z < 2 ^ k -> 0 <= Zdigits2 z <= k.
Proof.
  intros Hz Hk H. destruct z as [|p|p]; simpl; try lia.
  split; [lia|]. apply digits2_pos_le; assumption.
Qed.

Lemma Zdigits2_mono (a b : Z) : 0 <= a <= b -> 0 <= Zdigits2 a <= Zdigits2 b.
Proof.
  intros [Ha Hab]. destruct b as [|q|q]; try lia.
  - assert (a = 0) as -> by lia. simpl. lia.
  - apply Zdigits2_le; [lia|simpl; lia|].
    pose proof (digits2_pos_upper q). simpl. lia.
Qed.

Lemma Zdigits2_succ (a : Z) : 0 <= a -> 0 <= Zdigits2 (a + 1) <= Zdigits2 a + 1.
Proof.
  intros Ha. destruct a as [|p|p]; try lia.
  - simpl. lia.
  - apply Zdigits2_le; [lia|simpl; lia|].
    pose proof (digits2_pos_upper p). simpl Zdigits2.
    rewrite Z.pow_add_r by lia. lia.
Qed.

Lemma digits2_pos_iter_xO (p d : positive) :
  digits2_pos (Pos.iter xO p d) = (digits2_pos p + d)%positive.
Proof.
  induction d as [|d IH] using Pos.peano_ind.
  - simpl. lia.
  - rewrite Pos.iter_succ. simpl. rewrite IH. lia.
Qed.

Lemma shr_1_bound (mrs : shr_record) :
  0 <= shr_m mrs -> 0 <= shr_m (shr_1 mrs) <= shr_m mrs.
Proof.
  destruct mrs as [m r s]. simpl. destruct m as [|[p|p|]|p]; simpl; lia.
Qed.

Lemma iter_shr_1_bound (n : positive) (mrs : shr_record) :
  0 <= shr_m mrs -> 0 <= shr_m (SpecFloat.iter_pos shr_1 n mrs) <= shr_m mrs.
Proof.
  revert mrs. induction n as [n IH|n IH|]; intros mrs H; simpl.
  - pose proof (shr_1_bound mrs H) as H1.
    pose proof (IH (shr_1 mrs) (proj1 H1)) as H2.
    pose proof (IH _ (proj1 H2)) as H3. lia.
  - pose proof (IH mrs H) as H2.
    pose proof (IH _ (proj1 H2)) as H3. lia.
  - apply shr_1_bound, H.
Qed.

Lemma shr_record_of_loc_m (m : Z) (l : location) : shr_m (shr_record_of_loc m l) = m.
Proof. destruct l as [|[]]; reflexivity. Qed.

(** The result of [shr_fexp] on a mantissa that is not negative. *)
Lemma shr_fexp_bound (m e : Z) (l : location) :
  0 <= m ->
  let '(mrs, e') := shr_fexp prec emax m e l in
  0 <= shr_m mrs <= m /\
  (e' = e \/ e' = fexp prec emax (Zdigits2 m + e)).
Proof.
  intros Hm. unfold shr_fexp, shr.
  destruct (fexp prec emax (Zdigits2 m + e) - e) as [|n|n] eqn:E.
  - rewrite shr_record_of_loc_m. split; [lia|left; reflexivity].
  - split; [|right; lia].
    pose proof (iter_shr_1_bound n (shr_record_of_loc m l)) as H.
    rewrite shr_record_of_loc_m in H. apply H, Hm.
  - rewrite shr_record_of_loc_m. split; [lia|left; reflexivity].
Qed.

Lemma round_nearest_even_bound (m : Z) (l : location) :
  0 <= m -> m <= round_nearest_even m l <= m + 1.
Proof.
  intros Hm. unfold round_nearest_even.
  destruct l as [|[]]; try lia. destruct (Z.even m); lia.
Qed.

(** Rounding a positive mantissa of moderate size gives zero or a
    positive finite number. *)
Lemma binary_round_aux_finite (mx ex : Z) (lx : location) :
  0 <= mx -> Zdigits2 mx <= 200 -> -1074 <= ex <= 200 ->
  binary_round_aux prec emax false mx ex lx = S754_zero false \/
  exists m e, binary_round_aux prec emax false mx ex lx = S754_finite false m e.
Proof.
  intros Hm Hd He. unfold binary_round_aux.
  pose proof (shr_fexp_bound mx ex lx Hm) as H1.
  destruct (shr_fexp prec emax mx ex lx) as [mrs' e'].
  destruct H1 as [Hm' He'].
  pose proof (round_nearest_even_bound (shr_m mrs') (loc_of_shr_record mrs') (proj1 Hm')) as Hr.
  set (m1 := round_nearest_even (shr_m mrs') (loc_of_shr_record mrs')) in *.
  assert (Hm1 : 0 <= m1) by lia.
  pose proof (shr_fexp_bound m1 e' loc_Exact Hm1) as H2.
  destruct (shr_fexp prec emax m1 e' loc_Exact) as [mrs'' e''].
  destruct H2 as [Hm'' He''].
  assert (Hd1 : 0 <= Zdigits2 m1 <= 201).
  { pose proof (Zdigits2_mono (shr_m mrs') mx Hm').
    pose proof (Zdigits2_succ (shr_m mrs') (proj1 Hm')).
    pose proof (Zdigits2_mono m1 (shr_m mrs' + 1)). lia. }
  assert (Hdx : 0 <= Zdigits2 mx) by (destruct mx; simpl; lia).
  assert (Hb : e'' <= emax - prec).
  { unfold fexp, emin, emax, prec in *. lia. }
  destruct (shr_m mrs'') as [|m|m]; [left; reflexivity| |lia].
  right. apply Z.leb_le in Hb. rewrite Hb. eauto.
Qed.

Lemma of_uint63_finite (i : int) :
  Prim2SF (of_uint63 i) = S754_zero false \/
  exists m e, Prim2SF (of_uint63 i) = S754_finite false m e.
Proof.
  rewrite of_uint63_spec. pose proof (Uint63.to_Z_bounded i) as Hi.
  unfold binary_normalize.
  destruct (Uint63.to_Z i) as [|p|p]; [left; reflexivity| |lia].
  unfold binary_round, shl_align.
  assert (Hp : Z.pos (digits2_pos p) <= 63).
  { apply digits2_pos_le; [lia|].
    change wB with 9223372036854775808 in Hi.
    change (2 ^ 63) with 9223372036854775808. lia. }
  set (ex' := fexp prec emax (Z.pos (digits2_pos p) + 0)).
  assert (Hex : -52 <= ex' <= 10) by (unfold ex', fexp, emin, emax, prec; lia).
  destruct (ex' - 0) as [|d|d] eqn:E.
  - apply binary_round_aux_finite; simpl; lia.
  - apply binary_round_aux_finite; simpl; lia.
  - apply binary_round_aux_finite; [lia| |lia].
    simpl Zdigits2. rewrite digits2_pos_iter_xO. lia.
Qed.

(** A finite number divided by itself is one. *)
Lemma SFdiv_diag (s : bool) (m : positive) (e : Z) :
  SFdiv prec emax (S754_finite s m e) (S754_finite s m e) = Prim2SF 1%float.
Proof.
  unfold SFdiv, SFdiv_core_binary.
  rewrite Z.sub_diag, Z.sub_diag.
  change (Z.min (fexp prec emax 0) 0) with (-53).
  change (0 - -53) with 53.
  assert (E : Z.div_eucl (Z.shiftl (Z.pos m) 53) (Z.pos m) = (2 ^ 53, 0)).
  { rewrite Z.shiftl_mul_pow2 by lia.
    pose proof (Z.div_eucl_eq (Z.pos m * 2 ^ 53) (Z.pos m)) as H.
    pose proof (Z.mod_pos_bound (Z.pos m * 2 ^ 53) (Z.pos m)) as Hb.
    unfold Z.modulo in Hb.
    destruct (Z.div_eucl (Z.pos m * 2 ^ 53) (Z.pos m)) as [q r].
    assert (Hr : 0 <= r < Z.pos m) by (apply Hb; lia).
    assert (Hq : Z.pos m * 2 ^ 53 = Z.pos m * q + r) by (apply H; lia).
    assert (q = 2 ^ 53) by nia. assert (r = 0) by nia. congruence. }
  cbv iota.
  change (IntDef.Z.div_eucl (IntDef.Z.shiftl (Z.pos m) 53) (Z.pos m))
    with (Z.div_eucl (Z.shiftl (Z.pos m) 53) (Z.pos m)).
  rewrite E. rewrite xorb_nilpotent.
  unfold new_location, new_location_even, new_location_odd.
  change (0 =? 0) with true. destruct (Z.even (Z.pos m)); vm_compute; reflexivity.
Qed.

(** A mantissa of 53 bits with an exponent in range is kept as it is. *)
Lemma binary_round_aux_canonical (s : bool) (mz : positive) (ez : Z) :
  digits2_pos mz = 53%positive -> -1074 <= ez <= 971 ->
  binary_round_aux prec emax s (Z.pos mz) ez loc_Exact = S754_finite s mz ez.
Proof.
  intros Hd He. unfold binary_round_aux, shr_fexp. simpl Zdigits2. rewrite Hd.
  match goal with
  | |- context [shr _ ez ?n] =>
      assert (E : n = 0) by (unfold fexp, emin, emax, prec; lia); rewrite E
  end.
  cbn [shr shr_record_of_loc shr_m shr_r shr_s loc_of_shr_record
       round_nearest_even Zdigits2].
  rewrite Hd.
  match goal with
  | |- context [shr _ ez ?n] =>
      assert (E' : n = 0) by (unfold fexp, emin, emax, prec; lia); rewrite E'
  end.
  cbn [shr shr_m].
  match goal with
  | |- context [if ?b then _ else _] =>
      assert (Hb : b = true) by (apply Z.leb_le; unfold emax, prec; lia); rewrite Hb
  end.
  reflexivity.
Qed.

(** The number of a positive integer below [2^53] is finite and positive. *)
Lemma of_uint63_positive (i : int) :
  0 < Uint63.to_Z i < 2 ^ 53 ->
  exists m e, Prim2SF (of_uint63 i) = S754_finite false m e.
Proof.
  intros Hi. rewrite of_uint63_spec. unfold binary_normalize.
  destruct (Uint63.to_Z i) as [|p|p]; try lia.
  unfold binary_round, shl_align.
  assert (Hp : Z.pos (digits2_pos p) <= 53) by (apply digits2_pos_le; lia).
  set (ex' := fexp prec emax (Z.pos (digits2_pos p) + 0)).
  assert (E : ex' = Z.pos (digits2_pos p) - 53)
    by (unfold ex', fexp, emin, emax, prec; lia).
  destruct (ex' - 0) as [|d|d] eqn:Ed.
  - eexists _, _. apply binary_round_aux_canonical; lia.
  - lia.
  - eexists _, _. apply binary_round_aux_canonical; [|lia].
    rewrite digits2_pos_iter_xO. lia.
Qed.

Lemma ltb_0_of_uint63 (i : int) :
  0 < Uint63.to_Z i < 2 ^ 53 -> PrimFloat.ltb 0%float (of_uint63 i) = true.
Proof.
  intros Hi. rewrite FloatAxioms.ltb_spec.
  destruct (of_uint63_positive i Hi) as (m & e & ->). reflexivity.
Qed.

Lemma div_diag_of_uint63 (i : int) :
  PrimFloat.ltb 0%float (of_uint63 i) = true ->
  (of_uint63 i / of_uint63 i)%float = 1%float.
Proof.
  intros H. apply Prim2SF_inj. rewrite FloatAxioms.div_spec. rewrite FloatAxioms.ltb_spec in H.
  destruct (of_uint63_finite i) as [E|(m & e & E)]; rewrite E in *.
  - discriminate H.
  - apply SFdiv_diag.
Qed.

End FloatFacts.

(** ** Strings *)
Module StringFacts.
Import JsString.

Lemma append_cons (x : ascii) (a b : string) : String x a +:+ b = String x (a +:+ b).
Proof. reflexivity. Qed.

Lemma append_assoc (a b c : string) : (a +:+ b) +:+ c = a +:+ b +:+ c.
Proof.
  induction a as [|x a IH]; [reflexivity|]. rewrite !append_cons, IH. reflexivity.
Qed.

Lemma append_empty_r (a : string) : a +:+ "" = a.
Proof.
  induction a as [|x a IH]; [reflexivity|]. rewrite append_cons, IH. reflexivity.
Qed.

Lemma length_append (a b : string) :
  String.length (a +:+ b) = String.length a + String.length b.
Proof.
  induction a as [|x a IH]; [reflexivity|]. rewrite append_cons. simpl. rewrite IH.
  reflexivity.
Qed.

(** [x] occurs in [s]. *)
Definition contains (s x : string) : Prop :=
  exists before after, s = before +:+ x +:+ after.

Lemma contains_here (x after : string) : contains (x +:+ after) x.
Proof. exists "", after. reflexivity. Qed.

Lemma contains_append_l (a s x : string) : contains s x -> contains (a +:+ s) x.
Proof.
  intros (p & q & ->). exists (a +:+ p), q. rewrite append_assoc. reflexivity.
Qed.

Lemma contains_append_r (s b x : string) : contains s x -> contains (s +:+ b) x.
Proof.
  intros (p & q & ->). exists p, (q +:+ b). rewrite !append_assoc. reflexivity.
Qed.

(** Every character of the string satisfies [p]. *)
Fixpoint allChars (p : ascii -> bool) (s : string) : bool :=
  match s with
  | EmptyString => true
  | String c s' => p c && allChars p s'
  end.

Lemma drop_append (a b : string) : drop (String.length a) (a +:+ b) = b.
Proof. induction a as [|c a IH]; [reflexivity|]. rewrite append_cons. exact IH. Qed.

Lemma take_append (a b : string) : take (String.length a) (a +:+ b) = a.
Proof.
  induction a as [|c a IH]; [reflexivity|]. rewrite append_cons. simpl. rewrite IH.
  reflexivity.
Qed.

Lemma startsWith_spec (s p : string) :
  startsWith s p = true <-> exists t, s = p +:+ t.
Proof.
  revert s. induction p as [|a p IH]; intros s.
  - split; [intros _; exists s; reflexivity|]. destruct s; reflexivity.
  - destruct s as [|b s]; cbn [startsWith].
    + split; [discriminate|]. intros (t & E). discriminate E.
    + rewrite andb_true_iff, IH. unfold ascii_eqb. split.
      * intros [Hab (t & ->)]. apply Ascii.eqb_eq in Hab. subst b. exists t.
        reflexivity.
      * intros (t & E). rewrite append_cons in E. injection E as -> ->.
        split; [apply Ascii.eqb_refl|]. exists t. reflexivity.
Qed.

Lemma find_unfold (s p : string) :
  find s p =
  if startsWith s p then Some 0
  else match s with
       | EmptyString => None
       | String _ s' => S <$> find s' p
       end.
Proof. destruct s; reflexivity. Qed.

(** [includes] tells whether the text occurs. *)
Lemma includes_spec (s p : string) : includes s p = true <-> contains s p.
Proof.
  unfold includes. induction s as [|c s IH]; rewrite find_unfold.
  - destruct (startsWith "" p) eqn:E.
    + split; [intros _|reflexivity]. apply startsWith_spec in E as (t & E).
      exists "", t. exact E.
    + split; [discriminate|]. intros (b & a & H).
      destruct b; [|discriminate H]. change ("" +:+ p +:+ a) with (p +:+ a) in H.
      assert (startsWith "" p = true) by (apply startsWith_spec; eauto). congruence.
  - destruct (startsWith (String c s) p) eqn:E.
    + split; [intros _|reflexivity]. apply startsWith_spec in E as (t & E).
      exists "", t. exact E.
    + split.
      * intros H. destruct (find s p) as [i|] eqn:F; [|discriminate H].
        apply (contains_append_l (String c "") s p). apply IH. reflexivity.
      * intros (b & a & H). destruct b as [|c' b].
        { change ("" +:+ p +:+ a) with (p +:+ a) in H.
          assert (startsWith (String c s) p = true) by (apply startsWith_spec; eauto).
          congruence. }
        rewrite append_cons in H. injection H as <- ->.
        assert (C : contains (b +:+ p +:+ a) p) by (exists b, a; reflexivity).
        apply IH in C. destruct (find (b +:+ p +:+ a) p); [reflexivity|discriminate C].
Qed.



Lemma length_map_chars (f : ascii -> ascii) (s : string) :
  String.length (map_chars f s) = String.length s.
Proof. induction s as [|c s IH]; [reflexivity|]. cbn. rewrite IH. reflexivity. Qed.


(** The reversal of a text. *)
Lemma rev_onto_spec (s acc : string) : rev_onto s acc = rev s +:+ acc.
Proof.
  unfold rev. revert acc. induction s as [|c s IH]; intros acc; [reflexivity|].
  cbn [rev_onto]. rewrite IH, (IH (String c "")), append_assoc. reflexivity.
Qed.

Lemma rev_cons (c : ascii) (s : string) : rev (String c s) = rev s +:+ String c "".
Proof. unfold rev at 1. cbn [rev_onto]. apply rev_onto_spec. Qed.

Lemma rev_append (a b : string) : rev (a +:+ b) = rev b +:+ rev a.
Proof.
  induction a as [|c a IH].
  - change ("" +:+ b) with b. change (rev "") with "". rewrite append_empty_r.
    reflexivity.
  - rewrite append_cons, !rev_cons, IH, append_assoc. reflexivity.
Qed.

Lemma rev_involutive (s : string) : rev (rev s) = s.
Proof.
  induction s as [|c s IH]; [reflexivity|].
  rewrite rev_cons, rev_append, IH. reflexivity.
Qed.

End StringFacts.

(** ** The matcher *)
Module RegexFacts.
Import JsString Regex StringFacts.

(** The state after [n] more characters, captures kept. *)
Fixpoint consume (n : nat) (st : mstate) : mstate :=
  match n, rest st with
  | S n', String c tl => consume n' (advance c tl st)
  | _, _ => st
  end.

Lemma consume_append (l tail : string) (st : mstate) :
  rest st = l +:+ tail ->
  rest (consume (String.length l) st) = tail /\
  pos (consume (String.length l) st) = pos st + String.length l /\
  caps (consume (String.length l) st) = caps st.
Proof.
  revert st. induction l as [|c l IH]; intros st H; simpl.
  - rewrite Nat.add_0_r. auto.
  - rewrite H. rewrite append_cons.
    destruct (IH (advance c (l +:+ tail) st) eq_refl) as (H1 & H2 & H3).
    rewrite H1, H2, H3. simpl. split; [reflexivity|]. split; [lia|reflexivity].
Qed.

Lemma star_loop_unfold {A} (body : mstate -> (mstate -> option A) -> option A)
    (greedy : bool) (k : mstate -> option A) (fuel : nat) (st : mstate) :
  star_loop body greedy k (S fuel) st =
  let again :=
    body st (fun st' =>
      if pos st' =? pos st then None else star_loop body greedy k fuel st') in
  if greedy then orElse again (k st) else orElse (k st) again.
Proof. reflexivity. Qed.

Lemma rmatch_Chr {A} (p : ascii -> bool) (st : mstate) (k : mstate -> option A) :
  rmatch (Chr p) st k =
  match rest st with
  | String c tl => if p c then k (advance c tl st) else None
  | EmptyString => None
  end.
Proof. reflexivity. Qed.

(** A greedy star over a character class takes the longest run of the
    class when the continuation accepts what follows. *)
Lemma star_loop_greedy_run {A} (p : ascii -> bool) (k : mstate -> option A)
    (l tail : string) (x : A) :
  allChars p l = true ->
  (forall c t, tail = String c t -> p c = false) ->
  forall (fuel : nat) (st : mstate),
    rest st = l +:+ tail ->
    String.length l < fuel ->
    k (consume (String.length l) st) = Some x ->
    star_loop (rmatch (Chr p)) true k fuel st = Some x.
Proof.
  intros Hall Htail. induction l as [|c l IH]; intros fuel st Hrest Hfuel Hk.
  - destruct fuel as [|fuel]; [simpl in Hfuel; lia|].
    change ("" +:+ tail) with tail in Hrest. change (consume _ st) with st in Hk.
    rewrite star_loop_unfold. cbv zeta. rewrite rmatch_Chr, Hrest.
    destruct tail as [|c t]; [exact Hk|].
    rewrite (Htail c t eq_refl). exact Hk.
  - destruct fuel as [|fuel]; [simpl in Hfuel; lia|].
    cbn [allChars] in Hall. apply andb_true_iff in Hall as [Hc Hl].
    rewrite append_cons in Hrest.
    rewrite star_loop_unfold. cbv zeta. rewrite rmatch_Chr, Hrest, Hc. cbn [pos advance].
    replace (S (pos st) =? pos st) with false by (symmetry; apply Nat.eqb_neq; lia).
    rewrite (IH Hl fuel (advance c (l +:+ tail) st) eq_refl).
    + reflexivity.
    + simpl in Hfuel. lia.
    + cbn [consume String.length] in Hk. rewrite Hrest in Hk. exact Hk.
Qed.

Lemma rmatch_Cat {A} (r1 r2 : regex) (st : mstate) (k : mstate -> option A) :
  rmatch (Cat r1 r2) st k = rmatch r1 st (fun st' => rmatch r2 st' k).
Proof. reflexivity. Qed.

Lemma rmatch_Group {A} (n : nat) (r : regex) (st : mstate) (k : mstate -> option A) :
  rmatch (Group n r) st k = rmatch r st (fun st' => k (capture n (pos st) st')).
Proof. reflexivity. Qed.

Lemma rmatch_Star {A} (greedy : bool) (r : regex) (st : mstate) (k : mstate -> option A) :
  rmatch (Star greedy r) st k =
  star_loop (rmatch r) greedy k (S (String.length (rest st))) st.
Proof. reflexivity. Qed.

Lemma search_unfold (r : regex) (fuel : nat) (st : mstate) :
  search r fuel st =
  match match_here r st with
  | Some m => Some m
  | None =>
      match fuel, rest st with
      | S fuel', String c tl => search r fuel' (MState (Some c) tl (S (pos st)) [])
      | _, _ => None
      end
  end.
Proof. destruct fuel; reflexivity. Qed.

Lemma rmatch_Alt {A} (r1 r2 : regex) (st : mstate) (k : mstate -> option A) :
  rmatch (Alt r1 r2) st k = orElse (rmatch r1 st k) (rmatch r2 st k).
Proof. reflexivity. Qed.

Lemma rmatch_InputEnd {A} (st : mstate) (k : mstate -> option A) :
  rmatch InputEnd st k = match rest st with EmptyString => k st | String _ _ => None end.
Proof. reflexivity. Qed.

Lemma rmatch_plus_class {A} (p : ascii -> bool) (st : mstate) (k : mstate -> option A) :
  rmatch (plus (Chr p)) st k =
  match rest st with
  | String c tl =>
      if p c then star_loop (rmatch (Chr p)) true k (S (String.length tl)) (advance c tl st)
      else None
  | EmptyString => None
  end.
Proof.
  unfold plus. rewrite rmatch_Cat, rmatch_Chr.
  destruct (rest st) as [|c tl]; [reflexivity|]. destruct (p c); reflexivity.
Qed.

(** *** Acceptance *)

(** Whether a match was found. *)
Definition matched {A} (o : option A) : bool :=
  match o with Some _ => true | None => false end.

Lemma matched_orElse {A} (x y : option A) :
  matched (orElse x y) = matched x || matched y.
Proof. destruct x; reflexivity. Qed.

(** Some prefix of [s] made of characters of [p] is followed by a text
    that [f] accepts. *)
Fixpoint afterRun (p : ascii -> bool) (f : string -> bool) (s : string) : bool :=
  match s with
  | String c tl => (p c && afterRun p f tl) || f s
  | EmptyString => f s
  end.

Lemma afterRun_spec (p : ascii -> bool) (f : string -> bool) (s : string) :
  afterRun p f s = true <->
  exists run tail, s = run +:+ tail /\ allChars p run = true /\ f tail = true.
Proof.
  induction s as [|c tl IH]; cbn [afterRun].
  - split.
    + intros H. exists "", "". auto.
    + intros (run & tail & E & _ & H). destruct run; [|discriminate E].
      change ("" +:+ tail) with tail in E. subst tail. exact H.
  - rewrite orb_true_iff, andb_true_iff, IH. split.
    + intros [[Hc (run & tail & -> & Hr & Ht)]|H].
      * exists (String c run), tail. rewrite append_cons. cbn [allChars].
        rewrite Hc, Hr. auto.
      * exists "", (String c tl). auto.
    + intros (run & tail & E & Hr & Ht). destruct run as [|c' run].
      * change ("" +:+ tail) with tail in E. subst tail. right. exact Ht.
      * rewrite append_cons in E. injection E as <- ->.
        cbn [allChars] in Hr. apply andb_true_iff in Hr as [Hc Hr].
        left. split; [exact Hc|]. exists run, tail. auto.
Qed.

Lemma afterRun_to_end (p : ascii -> bool) (s : string) :
  afterRun p (fun t => String.eqb t "") s = allChars p s.
Proof.
  induction s as [|c tl IH]; [reflexivity|]. cbn [afterRun allChars].
  rewrite IH. change (String.eqb (String c tl) "") with false. apply orb_false_r.
Qed.

(** A greedy star over a character class, followed by a continuation
    whose success depends on the remaining text only, succeeds when the
    continuation accepts what follows some run of the class. *)
Lemma star_class {A} (p : ascii -> bool) (k : mstate -> option A) (f : string -> bool) :
  (forall st, matched (k st) = f (rest st)) ->
  forall (s : string) (fuel : nat) (st : mstate),
    rest st = s -> String.length s < fuel ->
    matched (star_loop (rmatch (Chr p)) true k fuel st) = afterRun p f s.
Proof.
  intros Hk. induction s as [|c tl IH]; intros fuel st Hrest Hfuel;
    (destruct fuel as [|fuel]; [simpl in Hfuel; lia|]);
    rewrite star_loop_unfold; cbv zeta; rewrite matched_orElse, rmatch_Chr, Hrest, Hk, Hrest.
  - reflexivity.
  - cbn [afterRun]. destruct (p c); [|reflexivity].
    cbn [pos advance andb].
    replace (S (pos st) =? pos st) with false by (symmetry; apply Nat.eqb_neq; lia).
    rewrite (IH fuel (advance c tl st) eq_refl) by (simpl in Hfuel; lia).
    reflexivity.
Qed.

(** A pattern anchored at the start of the input matches at the first
    position or not at all. *)
Lemma search_anchored_later (r : regex) (fuel : nat) (st : mstate) (c : ascii) :
  prev st = Some c -> search (Cat InputStart r) fuel st = None.
Proof.
  revert st c. induction fuel as [|fuel IH]; intros st c Hprev;
    rewrite search_unfold; unfold match_here; rewrite rmatch_Cat;
    cbn [rmatch]; rewrite Hprev.
  - destruct (rest st); reflexivity.
  - destruct (rest st) as [|c' tl]; [reflexivity|]. apply (IH _ c'). reflexivity.
Qed.

Lemma test_anchored (r : regex) (s : string) :
  test (Cat InputStart r) s = matched (match_here r (start_state s)).
Proof.
  unfold test, exec. rewrite search_unfold.
  change (match_here (Cat InputStart r) (start_state s))
    with (match_here r (start_state s)).
  destruct (match_here r (start_state s)) as [m|]; [reflexivity|].
  destruct (String.length s) as [|fuel]; [destruct (rest (start_state s)); reflexivity|].
  destruct (rest (start_state s)) as [|c tl]; [reflexivity|].
  rewrite (search_anchored_later r fuel _ c) by reflexivity. reflexivity.
Qed.

End RegexFacts.

(** * Specification and proofs *)

(** ** The metadata parser *)
Module MetadataParserSpec.
Import JsString Regex MetadataParser StringFacts RegexFacts.

(** Some character of the string satisfies [p]. *)
Fixpoint anyChar (p : ascii -> bool) (s : string) : bool :=
  match s with
  | EmptyString => false
  | String c s' => p c || anyChar p s'
  end.

(** The block of the scenario: a title, a flag and a count, then a body. *)
Definition scenarioBlock : string :=
  "---" +:+ String lf "title: Test" +:+ String lf "published: true"
  +:+ String lf "count: 3" +:+ String lf "---" +:+ String lf "Body".

Lemma parseMetadata_scenario :
  parseMetadata scenarioBlock =
  Parsed (<["title" := VString "Test"]>
            (<["published" := VBool true]> (<["count" := VNumber (inject_Z 3)]> ∅)))
         "Body".
Proof. vm_compute. reflexivity. Qed.

(** One or more digits. *)
Definition digits1 (s : string) : bool :=
  negb (String.eqb s "") && allChars is_digit s.

(** An integer literal: an optional minus sign followed by digits only. *)
Definition integerLiteral (v : string) : Prop :=
  exists d, digits1 d = true /\ (v = d \/ v = "-" +:+ d).

(** A decimal literal: an optional minus sign, digits, an optional point,
    and one digit or more. *)
Definition decimalLiteral (v : string) : Prop :=
  exists i f, allChars is_digit i = true /\ digits1 f = true /\
    (v = i +:+ f \/ v = i +:+ "." +:+ f \/
     v = "-" +:+ i +:+ f \/ v = "-" +:+ i +:+ "." +:+ f).

Definition accepting : mstate -> option rmatch_result :=
  fun st' => Some (Match 0 (pos st') (caps st')).

(** [\d+$] *)
Lemma digits_to_end (st : mstate) :
  matched (rmatch (Cat (plus digit) InputEnd) st accepting) = digits1 (rest st).
Proof.
  rewrite rmatch_Cat. unfold digit. rewrite rmatch_plus_class.
  destruct (rest st) as [|c tl] eqn:E; [reflexivity|].
  unfold digits1. cbn [allChars]. change (String.eqb (String c tl) "") with false.
  cbn [negb andb]. destruct (is_digit c); [|reflexivity].
  rewrite (star_class is_digit _ (fun t => String.eqb t "")) with (s := tl).
  - apply afterRun_to_end.
  - intros st'. rewrite rmatch_InputEnd. destruct (rest st'); reflexivity.
  - reflexivity.
  - lia.
Qed.

(** An optional minus sign before a text that [f] accepts. *)
Definition signed (f : string -> bool) (s : string) : bool :=
  match s with
  | String c tl => (ascii_eqb "-" c && f tl) || f s
  | EmptyString => f s
  end.

Lemma signed_spec (f : string -> bool) (s : string) :
  signed f s = true <-> (f s = true \/ exists t, s = "-" +:+ t /\ f t = true).
Proof.
  destruct s as [|c tl]; cbn [signed].
  - split; [auto|]. intros [H|(t & E & _)]; [exact H|discriminate E].
  - rewrite orb_true_iff, andb_true_iff. unfold ascii_eqb. split.
    + intros [[Hc Hf]|H]; [|auto]. apply Ascii.eqb_eq in Hc. subst c.
      right. exists tl. auto.
    + intros [H|(t & E & Hf)]; [auto|]. change ("-" +:+ t) with (String "-" t) in E.
      injection E as -> ->. left. split; [apply Ascii.eqb_refl|exact Hf].
Qed.

Lemma optional_minus (r : regex) (f : string -> bool) :
  (forall st, matched (rmatch r st accepting) = f (rest st)) ->
  forall s, test (Cat InputStart (Cat (opt (lit "-")) r)) s = signed f s.
Proof.
  intros Hr s. rewrite test_anchored. unfold match_here.
  change (fun st' => Some (Match (pos (start_state s)) (pos st') (caps st')))
    with accepting.
  rewrite rmatch_Cat. unfold opt. rewrite rmatch_Alt, matched_orElse.
  change (lit "-") with (Chr (ascii_eqb "-")). rewrite rmatch_Chr.
  change (rmatch Eps (start_state s) (fun st' => rmatch r st' accepting))
    with (rmatch r (start_state s) accepting).
  rewrite Hr. change (rest (start_state s)) with s.
  destruct s as [|c tl]; [reflexivity|]. cbn [signed].
  destruct (ascii_eqb "-" c); [|reflexivity]. rewrite Hr. reflexivity.
Qed.

Lemma INT_PATTERN_spec (v : string) :
  test INT_PATTERN v = true <-> integerLiteral v.
Proof.
  change INT_PATTERN with (Cat InputStart (Cat (opt (lit "-")) (Cat (plus digit) InputEnd))).
  rewrite (optional_minus _ digits1 digits_to_end), signed_spec.
  unfold integerLiteral. split.
  - intros [H|(t & -> & H)]; [exists v|exists t]; auto.
  - intros (d & H & [->| ->]); [left; exact H|right; exists d; auto].
Qed.

(** A point followed by one digit or more. *)
Definition pointDigits (s : string) : bool :=
  match s with
  | String c tl => ascii_eqb "." c && digits1 tl
  | EmptyString => false
  end.

Lemma is_digit_not_point (c : ascii) : is_digit c = true -> ascii_eqb "." c = false.
Proof.
  intros H. unfold ascii_eqb. destruct (Ascii.eqb_spec "." c) as [<-|]; [|reflexivity].
  discriminate H.
Qed.

(** [\.?\d+$] *)
Lemma fraction_to_end (st : mstate) :
  matched (rmatch (Cat (opt (lit ".")) (Cat (plus digit) InputEnd)) st accepting) =
  pointDigits (rest st) || digits1 (rest st).
Proof.
  rewrite rmatch_Cat. unfold opt. rewrite rmatch_Alt, matched_orElse.
  change (lit ".") with (Chr (ascii_eqb ".")). rewrite rmatch_Chr.
  change (rmatch Eps st (fun st' => rmatch (Cat (plus digit) InputEnd) st' accepting))
    with (rmatch (Cat (plus digit) InputEnd) st accepting).
  rewrite digits_to_end. f_equal.
  destruct (rest st) as [|c tl]; [reflexivity|]. cbn [pointDigits].
  destruct (ascii_eqb "." c); [|reflexivity]. apply digits_to_end.
Qed.

(** [\d*\.?\d+$] *)
Lemma decimal_to_end (st : mstate) :
  matched (rmatch (Cat (Star true digit)
                     (Cat (opt (lit ".")) (Cat (plus digit) InputEnd))) st accepting) =
  afterRun is_digit (fun t => pointDigits t || digits1 t) (rest st).
Proof.
  rewrite rmatch_Cat. unfold digit at 1. rewrite rmatch_Star.
  apply (star_class is_digit _ (fun t => pointDigits t || digits1 t)).
  - intros st'. apply fraction_to_end.
  - reflexivity.
  - lia.
Qed.

Lemma FLOAT_PATTERN_spec (v : string) :
  test FLOAT_PATTERN v = true <-> decimalLiteral v.
Proof.
  change FLOAT_PATTERN
    with (Cat InputStart (Cat (opt (lit "-"))
            (Cat (Star true digit) (Cat (opt (lit ".")) (Cat (plus digit) InputEnd))))).
  rewrite (optional_minus _ _ decimal_to_end), signed_spec.
  assert (body : forall s,
    afterRun is_digit (fun t => pointDigits t || digits1 t) s = true <->
    exists i f, allChars is_digit i = true /\ digits1 f = true /\
                (s = i +:+ f \/ s = i +:+ "." +:+ f)).
  { intros s. rewrite afterRun_spec. split.
    - intros (i & t & -> & Hi & Ht). apply orb_true_iff in Ht as [Ht|Ht].
      + destruct t as [|c f]; [discriminate Ht|]. cbn [pointDigits] in Ht.
        apply andb_true_iff in Ht as [Hc Hf]. apply Ascii.eqb_eq in Hc. subst c.
        exists i, f. auto.
      + exists i, t. auto.
    - intros (i & f & Hi & Hf & [->| ->]); exists i.
      + exists f. rewrite Hf, orb_true_r. auto.
      + exists ("." +:+ f). split; [reflexivity|]. split; [exact Hi|].
        change ("." +:+ f) with (String "." f). cbn [pointDigits].
        unfold ascii_eqb. rewrite Ascii.eqb_refl, Hf. reflexivity. }
  unfold decimalLiteral. split.
  - intros [H|(t & -> & H)]; apply body in H as (i & f & Hi & Hf & [->| ->]);
      exists i, f; auto 10.
  - intros (i & f & Hi & Hf & [->|[->|[->| ->]]]).
    + left. apply body. exists i, f. auto.
    + left. apply body. exists i, f. auto.
    + right. exists (i +:+ f). split; [reflexivity|]. apply body. exists i, f. auto.
    + right. exists (i +:+ "." +:+ f). split; [reflexivity|]. apply body.
      exists i, f. auto.
Qed.

(** *** The numbers read from the literals *)


















Lemma allChars_append (p : ascii -> bool) (a b : string) :
  allChars p (a +:+ b) = allChars p a && allChars p b.
Proof.
  induction a as [|c a IH]; [reflexivity|]. rewrite append_cons. cbn [allChars].
  rewrite IH. apply andb_assoc.
Qed.




(** *** Literals go past the first rules *)











Lemma integer_is_decimal (v : string) : integerLiteral v -> decimalLiteral v.
Proof. intros (d & Hd & [->| ->]); exists "", d; auto 10. Qed.









(** *** Normalization *)

Lemma removeNulls_lookup (m : Metadata) (k : string) :
  removeNulls m !! k =
  match m !! k with
  | Some v => if isNull v then None else Some v
  | None => None
  end.
Proof.
  unfold removeNulls. rewrite map_lookup_filter.
  destruct (m !! k) as [v|]; simpl; [|reflexivity].
  destruct (isNull v) eqn:E; case_guard; simpl in *; congruence.
Qed.

Lemma removeNulls_id (m : Metadata) :
  (forall k v, m !! k = Some v -> isNull v = false) -> removeNulls m = m.
Proof.
  intros H. apply map_eq. intros k. rewrite removeNulls_lookup.
  destruct (m !! k) as [v|] eqn:E; [|reflexivity].
  rewrite (H k v E). reflexivity.
Qed.

Definition isString (v : jsvalue) : bool :=
  match v with VString _ => true | _ => false end.

Lemma normalizeGlobs_globs (m : Metadata) :
  exists v, normalizeGlobs m !! "globs" = Some v /\ isString v = false /\
            (isNull v = true -> m !! "globs" = Some VNull).
Proof.
  unfold normalizeGlobs.
  destruct (m !! "globs") as [v|] eqn:E.
  - destruct v; try (eexists; split; [exact E|split; [reflexivity|simpl; congruence]]).
    destruct (String.eqb (trim s) "");
      eexists; (split; [apply lookup_insert_eq|split; [reflexivity|discriminate]]).
  - eexists. split; [apply lookup_insert_eq|split; [reflexivity|discriminate]].
Qed.

Lemma normalizeGlobs_other (m : Metadata) (k : string) :
  k <> "globs" -> normalizeGlobs m !! k = m !! k.
Proof.
  intros Hk. unfold normalizeGlobs.
  destruct (m !! "globs") as [[s| | | |]|]; try reflexivity;
    try (destruct (String.eqb (trim s) "")); rewrite lookup_insert_ne; congruence.
Qed.

Lemma normalizeAlwaysApply_alwaysApply (m : Metadata) :
  exists v, normalizeAlwaysApply m !! "alwaysApply" = Some v /\ isString v = false /\
            (isNull v = true -> m !! "alwaysApply" = Some VNull).
Proof.
  unfold normalizeAlwaysApply.
  destruct (m !! "alwaysApply") as [v|] eqn:E.
  - destruct v; try (eexists; split; [exact E|split; [reflexivity|simpl; congruence]]).
    eexists; (split; [apply lookup_insert_eq|split; [reflexivity|discriminate]]).
  - eexists. split; [apply lookup_insert_eq|split; [reflexivity|discriminate]].
Qed.

Lemma normalizeAlwaysApply_other (m : Metadata) (k : string) :
  k <> "alwaysApply" -> normalizeAlwaysApply m !! k = m !! k.
Proof.
  intros Hk. unfold normalizeAlwaysApply.
  destruct (m !! "alwaysApply") as [[s| | | |]|]; try reflexivity;
    rewrite lookup_insert_ne; congruence.
Qed.

(** A map whose [globs] and [alwaysApply] are bound to values that are
    neither strings nor [null], and that binds no key to [null], is left
    as it is. *)
Lemma normalizeMetadata_fixed (m : Metadata) :
  (exists g, m !! "globs" = Some g /\ isString g = false) ->
  (exists a, m !! "alwaysApply" = Some a /\ isString a = false) ->
  (forall k v, m !! k = Some v -> isNull v = false) ->
  normalizeMetadata m = m.
Proof.
  intros (g & Hg & Hgs) (a & Ha & Has) Hnull.
  unfold normalizeMetadata.
  assert (normalizeGlobs m = m) as ->.
  { unfold normalizeGlobs. rewrite Hg. destruct g; try reflexivity; discriminate. }
  assert (normalizeAlwaysApply m = m) as ->.
  { unfold normalizeAlwaysApply. rewrite Ha. destruct a; try reflexivity; discriminate. }
  apply removeNulls_id, Hnull.
Qed.

Lemma normalizeMetadata_no_null (m : Metadata) (k : string) (v : jsvalue) :
  normalizeMetadata m !! k = Some v -> isNull v = false.
Proof.
  unfold normalizeMetadata. rewrite removeNulls_lookup.
  destruct (_ !! k) as [w|]; [|discriminate].
  destruct (isNull w) eqn:E; [discriminate|]. intros [= <-]. exact E.
Qed.

(** The text of a file whose [globs] field is [null]. *)
Definition nullGlobsFile : string :=
  "---" +:+ String lf "globs: null" +:+ String lf "---" +:+ String lf "Body".

(** Normalizing the normalized metadata of that file adds the [globs]
    field that the first normalization deleted. *)
Lemma normalizeMetadata_not_idempotent :
  let once := p_metadata (parseWithNormalization nullGlobsFile) in
  once !! "globs" = None /\
  normalizeMetadata once !! "globs" = Some (VArray []) /\
  normalizeMetadata once <> once.
Proof.
  intros once.
  assert (H1 : once !! "globs" = None) by (vm_compute; reflexivity).
  assert (H2 : normalizeMetadata once !! "globs" = Some (VArray []))
    by (vm_compute; reflexivity).
  clearbody once.
  split; [exact H1|]. split; [exact H2|].
  intros E. rewrite E in H2. rewrite H1 in H2. discriminate.
Qed.

(** C9 (as amended): for every metadata map in which neither [globs] nor
    [alwaysApply] is bound to [null], normalizing the normalized map
    leaves it unchanged; a normalized map binds no key to [null], and an
    empty-string value of any other key is kept. *)
Theorem normalizeMetadata_idempotent (m : Metadata) :
  m !! "globs" <> Some VNull ->
  m !! "alwaysApply" <> Some VNull ->
  normalizeMetadata (normalizeMetadata m) = normalizeMetadata m /\
  (forall k v, normalizeMetadata m !! k = Some v -> v <> VNull) /\
  (forall k, k <> "globs" -> k <> "alwaysApply" ->
     m !! k = Some (VString "") -> normalizeMetadata m !! k = Some (VString "")).
Proof.
  intros Hg Ha. split; [|split].
  - apply normalizeMetadata_fixed.
    + destruct (normalizeGlobs_globs m) as (g & Hlg & Hs & Hn).
      exists g. split; [|exact Hs].
      unfold normalizeMetadata. rewrite removeNulls_lookup.
      rewrite normalizeAlwaysApply_other by discriminate. rewrite Hlg.
      destruct (isNull g) eqn:E; [|reflexivity]. elim Hg. auto.
    + destruct (normalizeAlwaysApply_alwaysApply (normalizeGlobs m)) as (a & Hla & Hs & Hn).
      exists a. split; [|exact Hs].
      unfold normalizeMetadata. rewrite removeNulls_lookup, Hla.
      destruct (isNull a) eqn:E; [|reflexivity]. elim Ha.
      rewrite <- (normalizeGlobs_other m "alwaysApply") by discriminate. auto.
    + apply normalizeMetadata_no_null.
  - intros k v H ->. apply normalizeMetadata_no_null in H. discriminate.
  - intros k Hk1 Hk2 H. unfold normalizeMetadata.
    rewrite removeNulls_lookup, normalizeAlwaysApply_other, normalizeGlobs_other, H
      by assumption. reflexivity.
Qed.

Lemma normalizeMetadata_idempotent_witness :
  normalizeMetadata (normalizeMetadata (p_metadata (parseMetadata scenarioBlock))) =
  normalizeMetadata (p_metadata (parseMetadata scenarioBlock)).
Proof.
  refine (proj1 (normalizeMetadata_idempotent
                   (p_metadata (parseMetadata scenarioBlock)) _ _));
    vm_compute; discriminate.
Defined.

End MetadataParserSpec.

(** ** The sidebar generator *)
Module SidebarGeneratorSpec.
Import JsString MetadataParser Types SidebarGenerator.




(** *** Sorting *)

Section SortBy.
Context {A : Type} (cmp : A -> A -> Q).

(** [x] may stand before [y]: the comparison is not positive. *)
Definition notAfter (x y : A) : Prop := (cmp x y <= 0)%Q.

Hypothesis notAfter_total : forall x y, notAfter x y \/ notAfter y x.
Hypothesis notAfter_trans : forall x y z, notAfter x y -> notAfter y z -> notAfter x z.

Lemma sortInsert_perm (x : A) (l : list A) :
  Permutation (x :: l) (sortInsert cmp x l).
Proof.
  induction l as [|y l IH]; simpl; [reflexivity|].
  destruct (Qle_bool (cmp x y) 0); [reflexivity|].
  rewrite perm_swap. apply perm_skip, IH.
Qed.

Lemma sortBy_perm (l : list A) : Permutation l (sortBy cmp l).
Proof.
  induction l as [|x l IH]; simpl; [reflexivity|].
  rewrite <- sortInsert_perm. apply perm_skip, IH.
Qed.

Lemma sortInsert_sorted (x : A) (l : list A) :
  StronglySorted notAfter l -> StronglySorted notAfter (sortInsert cmp x l).
Proof.
  induction 1 as [|y l Hs IH Hall]; simpl.
  - constructor; constructor.
  - destruct (Qle_bool (cmp x y) 0) eqn:E.
    + apply Qle_bool_iff in E. constructor; [constructor; assumption|].
      constructor; [exact E|].
      eapply Forall_impl; [exact Hall|]. intros z Hz. eapply notAfter_trans; eauto.
    + constructor; [exact IH|].
      assert (Hyx : notAfter y x).
      { destruct (notAfter_total x y) as [H|H]; [|exact H].
        apply Qle_bool_iff in H. unfold notAfter in *. congruence. }
      eapply Permutation_Forall; [apply sortInsert_perm|].
      constructor; assumption.
Qed.

Lemma sortBy_sorted (l : list A) : StronglySorted notAfter (sortBy cmp l).
Proof.
  induction l as [|x l IH]; simpl; [constructor|].
  apply sortInsert_sorted, IH.
Qed.

End SortBy.

Lemma StronglySorted_lookup {A} (R : A -> A -> Prop) (l : list A) :
  StronglySorted R l ->
  forall i j a b, i < j -> l !! i = Some a -> l !! j = Some b -> R a b.
Proof.
  induction 1 as [|x l Hs IH Hall]; intros i j a b Hij Hi Hj.
  - discriminate.
  - destruct j as [|j]; [lia|]. simpl in Hj.
    destruct i as [|i]; simpl in Hi.
    + injection Hi as <-. rewrite Forall_forall in Hall.
      apply Hall. eapply list_elem_of_lookup_2, Hj.
    + eapply IH; [|exact Hi|exact Hj]. lia.
Qed.

Section SortSidebarItems.
Variable localeCompare : string -> string -> Z.

(** The collation is a total preorder. *)
Hypothesis localeCompare_total :
  forall a b, (localeCompare a b <= 0)%Z \/ (localeCompare b a <= 0)%Z.
Hypothesis localeCompare_trans :
  forall a b c, (localeCompare a b <= 0)%Z -> (localeCompare b c <= 0)%Z ->
                (localeCompare a c <= 0)%Z.

Lemma inject_Z_nonpos (z : Z) : (inject_Z z <= 0)%Q <-> (z <= 0)%Z.
Proof. unfold Qle, inject_Z. simpl. lia. Qed.

Lemma Qminus_nonpos (x y : Q) : (x - y <= 0)%Q <-> (x <= y)%Q.
Proof.
  destruct x as [a b], y as [c d]. unfold Qle, Qminus, Qplus, Qopp. simpl. lia.
Qed.

Lemma compareItems_total (a b : SidebarItem) :
  notAfter (compareItems localeCompare) a b \/
  notAfter (compareItems localeCompare) b a.
Proof.
  unfold notAfter, compareItems.
  destruct (position a) as [pa|], (position b) as [pb|].
  - rewrite !Qminus_nonpos. destruct (Qlt_le_dec pb pa) as [H|H].
    + right. apply Qlt_le_weak, H.
    + left. exact H.
  - left. apply inject_Z_nonpos. lia.
  - right. apply inject_Z_nonpos. lia.
  - rewrite !inject_Z_nonpos. apply localeCompare_total.
Qed.

Lemma compareItems_trans (a b c : SidebarItem) :
  notAfter (compareItems localeCompare) a b ->
  notAfter (compareItems localeCompare) b c ->
  notAfter (compareItems localeCompare) a c.
Proof.
  unfold notAfter, compareItems.
  destruct (position a) as [pa|], (position b) as [pb|], (position c) as [pc|];
    rewrite ?Qminus_nonpos, ?inject_Z_nonpos; try lia; try (intros; lia).
  - apply Qle_trans.
  - apply localeCompare_trans.
Qed.

(** In a list sorted by the comparison of [sortSidebarItems], the positioned
    items come first, by ascending position, and the others follow in the
    order of the collation of their labels. *)
Lemma sorted_order (sorted : list SidebarItem) :
  StronglySorted (notAfter (compareItems localeCompare)) sorted ->
  (forall i j a b x, sorted !! i = Some a -> sorted !! j = Some b ->
     position a = Some x -> position b = None -> i < j) /\
  (forall i j a b x y, i < j -> sorted !! i = Some a -> sorted !! j = Some b ->
     position a = Some x -> position b = Some y -> (x <= y)%Q) /\
  (forall i j a b, i < j -> sorted !! i = Some a -> sorted !! j = Some b ->
     position a = None -> position b = None ->
     (localeCompare (label a) (label b) <= 0)%Z).
Proof.
  intros Hs. pose proof (StronglySorted_lookup _ _ Hs) as L.
  split; [|split].
  - intros i j a b x Hi Hj Ha Hb.
    destruct (Nat.lt_trichotomy i j) as [H|[H|H]]; [exact H| |].
    + subst j. rewrite Hi in Hj. injection Hj as <-. congruence.
    + specialize (L j i b a H Hj Hi). unfold notAfter, compareItems in L.
      rewrite Ha, Hb in L. apply (proj1 (inject_Z_nonpos _)) in L. lia.
  - intros i j a b x y Hij Hi Hj Ha Hb.
    specialize (L i j a b Hij Hi Hj). unfold notAfter, compareItems in L.
    rewrite Ha, Hb in L. apply (proj1 (Qminus_nonpos _ _)), L.
  - intros i j a b Hij Hi Hj Ha Hb.
    specialize (L i j a b Hij Hi Hj). unfold notAfter, compareItems in L.
    rewrite Ha, Hb in L. apply (proj1 (inject_Z_nonpos _)), L.
Qed.

Lemma sortSidebarItems_sorted (items : list SidebarItem) :
  StronglySorted (notAfter (compareItems localeCompare))
    (sortSidebarItems localeCompare items).
Proof. apply sortBy_sorted; [apply compareItems_total|apply compareItems_trans]. Qed.

(** C7: the sorted list has the items of the given list; an item with a
    position stands before every item without one, whatever the position
    is; the items with positions are in ascending order of position; and
    the items without positions are in the order of the collation of
    their labels. *)
Theorem sortSidebarItems_order (items : list SidebarItem) :
  let sorted := sortSidebarItems localeCompare items in
  Permutation items sorted /\
  (forall i j a b x, sorted !! i = Some a -> sorted !! j = Some b ->
     position a = Some x -> position b = None -> i < j) /\
  (forall i j a b x y, i < j -> sorted !! i = Some a -> sorted !! j = Some b ->
     position a = Some x -> position b = Some y -> (x <= y)%Q) /\
  (forall i j a b, i < j -> sorted !! i = Some a -> sorted !! j = Some b ->
     position a = None -> position b = None ->
     (localeCompare (label a) (label b) <= 0)%Z).
Proof.
  intros sorted. split; [apply sortBy_perm|].
  apply sorted_order, sortSidebarItems_sorted.
Qed.

(** *** The generated sidebar *)

(** The sibling lists of a sidebar: the list itself and, for each of its
    categories, the sibling lists of the items of the category. *)
Fixpoint levelsBelow (item : SidebarItem) : list (list SidebarItem) :=
  match item with
  | Link _ _ _ => []
  | Category _ sub _ _ _ => sub :: flat_map levelsBelow sub
  end.

Definition siblingLists (sidebar : list SidebarItem) : list (list SidebarItem) :=
  sidebar :: flat_map levelsBelow sidebar.

(** Induction on a directory tree, with the property for the children. *)
Fixpoint DirectoryNode_induction (P : DirectoryNode -> Prop)
    (step : forall name path children items,
        List.Forall (fun entry => P (snd entry)) children ->
        P (MkDirectoryNode name path children items))
    (tree : DirectoryNode) : P tree :=
  match tree with
  | MkDirectoryNode name path children items =>
      step name path children items
        ((fix each (l : list (string * DirectoryNode)) :
            List.Forall (fun entry => P (snd entry)) l :=
            match l with
            | [] => @List.Forall_nil _ _
            | (k, d) :: l' =>
                @List.Forall_cons _ _ (k, d) l' (DirectoryNode_induction P step d)
                  (each l')
            end) children)
  end.

(** Every sibling list of a converted tree comes out of [sortSidebarItems]. *)
Lemma convertTree_siblingLists (tree : DirectoryNode) (l : list SidebarItem) :
  In l (siblingLists (convertTreeToSidebarItems localeCompare tree)) ->
  exists unsorted, l = sortSidebarItems localeCompare unsorted.
Proof.
  revert l. induction tree as [name path children items IH] using DirectoryNode_induction.
  intros l [<-|Hin].
  - eexists. reflexivity.
  - apply List.in_flat_map in Hin as (item & Hitem & Hl).
    cbn [convertTreeToSidebarItems] in Hitem.
    apply (Permutation_in _ (Permutation_sym (sortBy_perm _ _))) in Hitem.
    apply List.in_app_or in Hitem as [Hfile|Hdir].
    + apply List.in_map_iff in Hfile as (fileNode & <- & _). destruct Hl.
    + apply List.in_map_iff in Hdir as ([k d] & <- & Hd).
      rewrite List.Forall_forall in IH. apply (IH (k, d) Hd). exact Hl.
Qed.

(** X23: in the sidebar generated for any documents, every sibling list
    -- the top level and the items of each category, at any depth -- is
    ordered as [sortSidebarItems] orders it: the items with a position
    first, by ascending position, then the others in the order of the
    collation of their labels. *)
Theorem generateSidebar_order (ruleContent : list RuleContent) (siblings : list SidebarItem) :
  In siblings (siblingLists (generateSidebar localeCompare ruleContent)) ->
  (forall i j a b x, siblings !! i = Some a -> siblings !! j = Some b ->
     position a = Some x -> position b = None -> i < j) /\
  (forall i j a b x y, i < j -> siblings !! i = Some a -> siblings !! j = Some b ->
     position a = Some x -> position b = Some y -> (x <= y)%Q) /\
  (forall i j a b, i < j -> siblings !! i = Some a -> siblings !! j = Some b ->
     position a = None -> position b = None ->
     (localeCompare (label a) (label b) <= 0)%Z).
Proof.
  intros Hin. apply convertTree_siblingLists in Hin as (unsorted & ->).
  apply sorted_order, sortSidebarItems_sorted.
Qed.

End SortSidebarItems.

(** A collation for examples: the order of the code units. *)
Fixpoint codeUnitCompare (a b : string) : Z :=
  match a, b with
  | EmptyString, EmptyString => 0
  | EmptyString, String _ _ => -1
  | String _ _, EmptyString => 1
  | String x a', String y b' =>
      if code x <? code y then -1
      else if code y <? code x then 1
      else codeUnitCompare a' b'
  end.

Lemma codeUnitCompare_total (a b : string) :
  (codeUnitCompare a b <= 0)%Z \/ (codeUnitCompare b a <= 0)%Z.
Proof.
  revert b. induction a as [|x a IH]; intros [|y b]; simpl; try lia.
  destruct (Nat.ltb_spec (code x) (code y)), (Nat.ltb_spec (code y) (code x));
    try lia. apply IH.
Qed.

Lemma codeUnitCompare_trans (a b c : string) :
  (codeUnitCompare a b <= 0)%Z -> (codeUnitCompare b c <= 0)%Z ->
  (codeUnitCompare a c <= 0)%Z.
Proof.
  revert b c. induction a as [|x a IH]; intros [|y b] [|z c]; simpl; try lia.
  destruct (Nat.ltb_spec (code x) (code y)), (Nat.ltb_spec (code y) (code x)),
           (Nat.ltb_spec (code y) (code z)), (Nat.ltb_spec (code z) (code y)),
           (Nat.ltb_spec (code x) (code z)), (Nat.ltb_spec (code z) (code x));
    try lia. apply IH.
Qed.

(** A sibling list with two positioned links, a category and a link
    without position. *)
Definition siblings : list SidebarItem :=
  [Link "Task Levels" "/rules/task-levels" None;
   Link "Plan Mode" "/rules/modes/plan" (Some (inject_Z 2));
   Category "Modes" [] true true None;
   Link "Main Rule" "/rules/main" (Some (inject_Z 1))].

Example sortSidebarItems_siblings :
  sortSidebarItems codeUnitCompare siblings =
  [Link "Main Rule" "/rules/main" (Some (inject_Z 1));
   Link "Plan Mode" "/rules/modes/plan" (Some (inject_Z 2));
   Category "Modes" [] true true None;
   Link "Task Levels" "/rules/task-levels" None].
Proof. vm_compute. reflexivity. Qed.

(** The documents of the tests of the repository and their sidebar. *)
Definition mockRule (filePath title : string) (metadata : Metadata) : RuleContent :=
  MkRuleContent (stripSuffix ".mdc" filePath) filePath title "" metadata
    ("/rules/" +:+ stripSuffix ".mdc" filePath) [].

Definition mockRules : list RuleContent :=
  [mockRule "main.mdc" "Main Rule" {["sidebarPosition" := VNumber (inject_Z 1)]};
   mockRule "modes/implement.mdc" "Implement Mode" ∅;
   mockRule "modes/plan.mdc" "Plan Mode" {["sidebarPosition" := VNumber (inject_Z 2)]};
   mockRule "modes/doc.mdc" "Doc Mode" ∅;
   mockRule "task-levels.mdc" "Task Levels" ∅].

Example generateSidebar_mockRules :
  generateSidebar codeUnitCompare mockRules =
  [Link "Main Rule" "/rules/main" (Some (inject_Z 1));
   Category "Modes"
     [Link "Plan Mode" "/rules/modes/plan" (Some (inject_Z 2));
      Link "Doc Mode" "/rules/modes/doc" None;
      Link "Implement Mode" "/rules/modes/implement" None]
     true true None;
   Link "Task Levels" "/rules/task-levels" None] /\
  generateSidebar codeUnitCompare [] = [] /\
  formatDirectoryLabel "task-levels_and-modes" = "Task Levels And Modes".
Proof. repeat split; vm_compute; reflexivity. Qed.

Lemma sortSidebarItems_order_witness :
  Permutation siblings (sortSidebarItems codeUnitCompare siblings).
Proof.
  exact (proj1 (sortSidebarItems_order codeUnitCompare
                  codeUnitCompare_total codeUnitCompare_trans siblings)).
Defined.


End SidebarGeneratorSpec.

(** ** The content loader *)
Module ContentLoaderSpec.
Import JsString Regex MetadataParser Types ContentLoader.

(** The texts of two files with a description and a title that is, in
    the first, empty and, in the second, a number. *)
Definition emptyTitleFile : string :=
  "---" +:+ String lf "title:" +:+ String lf "description: Desc"
  +:+ String lf "---" +:+ String lf "Body".

Definition numericTitleFile : string :=
  "---" +:+ String lf "title: 2024" +:+ String lf "description: Desc"
  +:+ String lf "---" +:+ String lf "Body".

(** Both files have a metadata title, and the extracted title is the
    description: an empty title and a title that is not a string are
    passed over. *)
Lemma extractTitle_skips_empty_title :
  let empty := parseWithNormalization emptyTitleFile in
  let numeric := parseWithNormalization numericTitleFile in
  p_metadata empty !! "title" = Some (VString "") /\
  extractTitle (p_metadata empty) (p_content empty) "a.mdc" = "Desc" /\
  extractTitle (p_metadata empty) (p_content empty) "a.mdc" <> "" /\
  p_metadata numeric !! "title" = Some (VNumber (inject_Z 2024)) /\
  extractTitle (p_metadata numeric) (p_content numeric) "a.mdc" = "Desc" /\
  extractTitle (p_metadata numeric) (p_content numeric) "a.mdc" <> "2024".
Proof.
  intros empty numeric.
  assert (E1 : extractTitle (p_metadata empty) (p_content empty) "a.mdc" = "Desc")
    by (vm_compute; reflexivity).
  assert (E2 : extractTitle (p_metadata numeric) (p_content numeric) "a.mdc" = "Desc")
    by (vm_compute; reflexivity).
  assert (T1 : p_metadata empty !! "title" = Some (VString ""))
    by (vm_compute; reflexivity).
  assert (T2 : p_metadata numeric !! "title" = Some (VNumber (inject_Z 2024)))
    by (vm_compute; reflexivity).
  clearbody empty numeric.
  repeat split; try assumption; rewrite ?E1, ?E2; discriminate.
Qed.

Lemma nonEmptyString_Some (o : option jsvalue) (s : string) :
  o = Some (VString s) -> s <> "" -> nonEmptyString o = Some s.
Proof.
  intros -> Hs. simpl. destruct (String.eqb_spec s ""); congruence.
Qed.

(** C4 (as amended): the title is chosen by strict priority: the metadata
    title when it is a non-empty string (verbatim); else the metadata
    description when it is a non-empty string (verbatim); else the text,
    trimmed, that the first match of the line-anchored heading pattern
    captures in the body; else the base name of the file without its
    extension, dashes and underscores replaced by spaces and the first
    letter of each word capitalized.  In particular a metadata title that
    is a non-empty string is the extracted title, whatever the rest. *)
Theorem extractTitle_priority (metadata : Metadata) (content relativePath : string) :
  (forall t, metadata !! "title" = Some (VString t) -> t <> "" ->
     extractTitle metadata content relativePath = t) /\
  (nonEmptyString (metadata !! "title") = None ->
     (forall d, metadata !! "description" = Some (VString d) -> d <> "" ->
        extractTitle metadata content relativePath = d) /\
     (nonEmptyString (metadata !! "description") = None ->
        (forall headingMatch, exec HEADING_PATTERN content = Some headingMatch ->
           extractTitle metadata content relativePath =
             trim (default "" (group content headingMatch 1))) /\
        (exec HEADING_PATTERN content = None ->
           extractTitle metadata content relativePath =
             capitalizeWords false
               (replaceChars isDashOrUnderscore " "%char
                  (NodePath.basename relativePath ".mdc"))))).
Proof.
  unfold extractTitle. split.
  - intros t Ht Hne. rewrite (nonEmptyString_Some _ t Ht Hne). reflexivity.
  - intros ->. split.
    + intros d Hd Hne. rewrite (nonEmptyString_Some _ d Hd Hne). reflexivity.
    + intros ->. split.
      * intros h ->. reflexivity.
      * intros ->. reflexivity.
Qed.

Lemma extractTitle_priority_witness :
  extractTitle {["title" := VString "Test"]} "# Heading" "my-rule.mdc" = "Test".
Proof.
  refine (proj1 (extractTitle_priority {["title" := VString "Test"]}
                   "# Heading" "my-rule.mdc") "Test" _ _);
    [reflexivity|discriminate].
Defined.

(** The four sources of a title, on examples. *)
Example extractTitle_examples :
  extractTitle {["description" := VString "About"]} "# Heading" "my-rule.mdc" = "About" /\
  extractTitle {["title" := VNumber (inject_Z 2024)]}
    ("intro" +:+ String lf "#  Getting started  " +:+ String lf "text") "my-rule.mdc"
    = "Getting started" /\
  extractTitle ∅ "no heading here" "modes/my-rule_file.mdc" = "My Rule File".
Proof. repeat split; vm_compute; reflexivity. Qed.

(** *** The per-document loop *)

#[local] Arguments processMarkdown : simpl never.
#[local] Arguments parseWithNormalization : simpl never.
#[local] Arguments extractTitle : simpl never.
#[local] Arguments extractTOC : simpl never.
#[local] Arguments generatePermalink : simpl never.
#[local] Arguments NodePath.join : simpl never.
#[local] Arguments LinkResolver.resolveLinks : simpl never.
#[local] Arguments LinkResolver.generateWarnings : simpl never.
#[local] Arguments LinkResolver.setDiscoveredFiles : simpl never.

Definition returns {A} (x : outcome A) : bool :=
  match x with Returned _ => true | Thrown _ => false end.

Definition returned {A} (x : outcome A) : option A :=
  match x with Returned a => Some a | Thrown _ => None end.

(** [processFile] never throws: it returns the document of the [try]
    block, or [null]. *)
Lemma processFile_returns (host : Host) (config : InternalPluginConfig)
    (filePath sourceDir : string) :
  processFile host config filePath sourceDir =
  Returned (returned (transform host config filePath sourceDir)).
Proof.
  unfold processFile. destruct (transform host config filePath sourceDir); reflexivity.
Qed.

Lemma processMarkdown_returns (host : Host) (content : string) :
  exists html, processMarkdown host content = Returned html.
Proof.
  unfold processMarkdown. destruct (processor host content); simpl; eauto.
Qed.

(** The [try] block throws exactly when reading the file or its
    modification time does: a failure of the renderer is recovered. *)
Lemma transform_throws (host : Host) (config : InternalPluginConfig)
    (filePath sourceDir e : string) :
  transform host config filePath sourceDir = Thrown e <->
  readFileSync host filePath = Thrown e \/
  (returns (readFileSync host filePath) = true /\
   statMtimeISO host filePath = Thrown e).
Proof.
  unfold transform.
  destruct (readFileSync host filePath) as [text|e1]; simpl.
  - match goal with
    | |- context [processMarkdown host ?c] =>
        destruct (processMarkdown_returns host c) as [html ->]
    end. simpl.
    destruct (statMtimeISO host filePath) as [t|e2]; simpl.
    + split; [discriminate|]. intros [H|[_ H]]; discriminate H.
    + split; [intros [= ->]; right; auto|]. intros [H|[_ H]]; congruence.
  - split; [intros [= ->]; left; reflexivity|]. intros [H|[H _]]; congruence.
Qed.

Lemma transform_filePath (host : Host) (config : InternalPluginConfig)
    (file sourceDir : string) (rule : RuleContent) :
  transform host config file sourceDir = Returned rule ->
  filePath rule = relative host sourceDir file.
Proof.
  unfold transform.
  destruct (readFileSync host file) as [text|]; simpl; [|discriminate].
  destruct (processMarkdown host _) as [html|]; simpl; [|discriminate].
  destruct (statMtimeISO host file) as [t|]; simpl; [|discriminate].
  intros [= <-]. reflexivity.
Qed.

(** The documents of the files whose [try] block returns, in order. *)
Definition transformed (host : Host) (config : InternalPluginConfig)
    (sourceDir : string) (mdcFiles : list string) : list RuleContent :=
  omap (fun file => returned (transform host config file sourceDir)) mdcFiles.

Lemma firstPass_from (host : Host) (config : InternalPluginConfig) (sourceDir : string)
    (mdcFiles : list string) (done : list RuleContent) (errors : list string) :
  fold_left (processOne host config sourceDir) mdcFiles (done, errors) =
  (done ++ transformed host config sourceDir mdcFiles, errors).
Proof.
  revert done. induction mdcFiles as [|file files IH]; intros done; simpl.
  - rewrite app_nil_r. reflexivity.
  - rewrite processFile_returns. unfold transformed. simpl.
    destruct (transform host config file sourceDir) as [rule|e]; simpl.
    + rewrite IH. rewrite <- app_assoc. reflexivity.
    + apply IH.
Qed.

Lemma firstPass_spec (host : Host) (config : InternalPluginConfig) (sourceDir : string)
    (mdcFiles : list string) :
  firstPass host config sourceDir mdcFiles =
  (transformed host config sourceDir mdcFiles, []).
Proof. unfold firstPass. apply firstPass_from. Qed.

Lemma transformed_filePath (host : Host) (config : InternalPluginConfig)
    (sourceDir : string) (mdcFiles : list string) :
  map filePath (transformed host config sourceDir mdcFiles) =
  map (relative host sourceDir)
    (List.filter (fun file => returns (transform host config file sourceDir)) mdcFiles).
Proof.
  unfold transformed. induction mdcFiles as [|file files IH]; simpl; [reflexivity|].
  destruct (transform host config file sourceDir) as [rule|e] eqn:E; simpl.
  - f_equal; [exact (transform_filePath _ _ _ _ _ E)|exact IH].
  - exact IH.
Qed.

Lemma secondPass_from (config : InternalPluginConfig) (files : LinkResolver.DiscoveredFiles)
    (rules : list RuleContent) acc :
  map filePath (fold_left (resolveOne config files) rules acc).1.1 =
  map filePath acc.1.1 ++ map filePath rules.
Proof.
  revert acc. induction rules as [|rule rules IH]; intros [[done refs] warnings]; simpl.
  - rewrite app_nil_r. reflexivity.
  - rewrite IH. simpl. rewrite map_app, <- app_assoc. reflexivity.
Qed.

Lemma secondPass_filePath (config : InternalPluginConfig) (rules : list RuleContent) :
  map filePath (secondPass config rules).1.1 = map filePath rules.
Proof. unfold secondPass. rewrite secondPass_from. reflexivity. Qed.

(** A host with two files, the second of which cannot be read. *)
Definition twoFiles : Host :=
  MkHost (fun _ => true)
    (fun _ => Returned ["/site/.cursor/rules/good.mdc"; "/site/.cursor/rules/bad.mdc"])
    (fun file =>
       if String.eqb file "/site/.cursor/rules/bad.mdc" then Thrown "Bad file error"
       else Returned "# Good file")
    (fun _ => Returned "2023-01-01T00:00:00.000Z")
    (fun content => Returned ("<h1>" +:+ drop 2 content +:+ "</h1>"))
    (fun root dir => root +:+ "/" +:+ dir)
    (fun from to => drop (String.length from + 1) to).

Definition defaultConfig : InternalPluginConfig :=
  MkConfig ".cursor/rules" "rules" true "main" "RulePage" "/rules".

(** The [try] block of the second file throws, the document is left out,
    and the errors of the result are empty: no error string is recorded
    for the file. *)
Lemma loadContent_records_no_error :
  transform twoFiles defaultConfig "/site/.cursor/rules/bad.mdc" "/site/.cursor/rules"
    = Thrown "Bad file error" /\
  map filePath (r_content (loadContent twoFiles defaultConfig "/site")) = ["good.mdc"] /\
  r_errors (loadContent twoFiles defaultConfig "/site") = [] /\
  List.length (r_errors (loadContent twoFiles defaultConfig "/site")) <> 1.
Proof. repeat split; vm_compute; (reflexivity || discriminate). Qed.

(** C1 (as amended): when the source directory exists and the enumerator
    yields the files [mdcFiles], the documents of the result are those of
    the files whose transform returns, in the order of the files: a file
    whose transform throws (reading it or its modification time fails; a
    failure of the renderer is recovered) is left out and the remaining
    files are processed.  The failure is only logged: the errors of the
    result are empty. *)
Theorem loadContent_skips_failed_files (host : Host) (config : InternalPluginConfig)
    (projectRoot : string) (mdcFiles : list string) :
  let sourceDir := resolve host projectRoot (Types.sourceDir config) in
  existsSync host sourceDir = true ->
  discoverMdcFiles host sourceDir = Returned mdcFiles ->
  let result := loadContent host config projectRoot in
  map filePath (r_content result) =
    map (relative host sourceDir)
      (List.filter (fun file => returns (transform host config file sourceDir)) mdcFiles) /\
  r_errors result = [] /\
  (forall file e,
     transform host config file sourceDir = Thrown e <->
     readFileSync host file = Thrown e \/
     (returns (readFileSync host file) = true /\ statMtimeISO host file = Thrown e)).
Proof.
  intros sourceDir Hexists Hglob result. subst result. unfold loadContent.
  fold sourceDir. rewrite Hexists, Hglob. simpl.
  rewrite firstPass_spec.
  destruct (secondPass config (transformed host config sourceDir mdcFiles))
    as [[finalContent refs] warnings] eqn:E. simpl.
  split; [|split; [reflexivity|intros; apply transform_throws]].
  change finalContent with (finalContent, refs, warnings).1.1.
  rewrite <- E, secondPass_filePath. apply transformed_filePath.
Qed.

Lemma loadContent_skips_failed_files_witness :
  map filePath (r_content (loadContent twoFiles defaultConfig "/site")) =
  map (relative twoFiles "/site/.cursor/rules")
    (List.filter
       (fun file => returns (transform twoFiles defaultConfig file "/site/.cursor/rules"))
       ["/site/.cursor/rules/good.mdc"; "/site/.cursor/rules/bad.mdc"]).
Proof.
  refine (proj1 (loadContent_skips_failed_files twoFiles defaultConfig "/site"
                   ["/site/.cursor/rules/good.mdc"; "/site/.cursor/rules/bad.mdc"] _ _));
    reflexivity.
Defined.

End ContentLoaderSpec.

(** ** The link resolver *)
Module LinkResolverSpec.
Import JsString Regex Types LinkResolver StringFacts RegexFacts.

#[local] Arguments NodePath.join : simpl never.
#[local] Arguments NodePath.basename : simpl never.

(** *** The index *)

Lemma has_set {V} (m : JsMap.t V) (k k' : string) (v : V) :
  JsMap.has (JsMap.set m k v) k' = String.eqb k k' || JsMap.has m k'.
Proof.
  induction m as [|[k0 v0] m IH]; simpl.
  - rewrite orb_false_r. reflexivity.
  - destruct (String.eqb_spec k0 k) as [->|Hne]; simpl.
    + destruct (String.eqb k k'); reflexivity.
    + rewrite IH. destruct (String.eqb k0 k'), (String.eqb k k'); reflexivity.
Qed.

Lemma has_setDiscoveredFiles_from (rules : list RuleContent) (files : DiscoveredFiles)
    (k : string) :
  JsMap.has
    (fold_left
       (fun files content =>
          JsMap.set (JsMap.set files (filePath content) content)
            (normalizeSeparators (filePath content)) content)
       rules files) k =
  JsMap.has files k ||
  existsb (fun rule => String.eqb (filePath rule) k
                       || String.eqb (normalizeSeparators (filePath rule)) k) rules.
Proof.
  revert files. induction rules as [|rule rules IH]; intros files; simpl.
  - rewrite orb_false_r. reflexivity.
  - rewrite IH, !has_set.
    destruct (JsMap.has files k), (String.eqb (filePath rule) k),
      (String.eqb (normalizeSeparators (filePath rule)) k); reflexivity.
Qed.

(** The keys of the index: the paths of the documents, as they are and
    with the separators normalized. *)
Lemma has_setDiscoveredFiles (rules : list RuleContent) (k : string) :
  JsMap.has (setDiscoveredFiles rules) k = true <->
  exists rule, In rule rules /\
    (filePath rule = k \/ normalizeSeparators (filePath rule) = k).
Proof.
  unfold setDiscoveredFiles. rewrite has_setDiscoveredFiles_from. simpl.
  rewrite existsb_exists. split.
  - intros (rule & Hin & H). exists rule. split; [exact Hin|].
    apply orb_true_iff in H as [H|H]; apply String.eqb_eq in H; auto.
  - intros (rule & Hin & H). exists rule. split; [exact Hin|].
    apply orb_true_iff. destruct H as [H|H]; [left|right]; apply String.eqb_eq, H.
Qed.

(** *** Resolution of one reference *)

(** The index of the tests of the repository. *)
Definition ruleAt (path : string) : RuleContent :=
  MkRuleContent (stripSuffix ".mdc" path) path path "" ∅ ("/rules/" +:+ stripSuffix ".mdc" path) [].

Definition testConfig : InternalPluginConfig :=
  MkConfig ".cursor/rules" "rules" true "main" "RulePage" "/rules".

Definition testFiles : DiscoveredFiles :=
  setDiscoveredFiles
    [ruleAt "main.mdc"; ruleAt "modes/implement.mdc"; ruleAt "modes/plan.mdc";
     ruleAt "adr-structure.mdc"].








(** A reference stripped to the path of a document of the index built by
    [setDiscoveredFiles] is valid. *)
Lemma resolveSingleLink_known_document (config : InternalPluginConfig)
    (rules : list RuleContent) (rule : RuleContent) (originalLink sourceFilePath : string) :
  In rule rules ->
  filePath rule = targetFilePath config originalLink ->
  isValid (resolveSingleLink config (setDiscoveredFiles rules) originalLink sourceFilePath)
    = true.
Proof.
  intros Hin Hpath. unfold resolveSingleLink. cbn [isValid].
  unfold validateTargetExists.
  assert (H : JsMap.has (setDiscoveredFiles rules) (targetFilePath config originalLink)
              = true).
  { apply has_setDiscoveredFiles. exists rule. auto. }
  rewrite H. reflexivity.
Qed.

(** The references of the tests of the repository, in their three forms. *)
Example resolveSingleLink_examples :
  resolveSingleLink testConfig testFiles "./main.mdc" "test.mdc"
    = MkCrossReference "./main.mdc" "/rules/main" true /\
  resolveSingleLink testConfig testFiles ".cursor/rules/adr-structure.mdc" "test.mdc"
    = MkCrossReference ".cursor/rules/adr-structure.mdc" "/rules/adr-structure" true /\
  resolveSingleLink testConfig testFiles "mdc:.cursor/rules/modes/implement.mdc" "test.mdc"
    = MkCrossReference "mdc:.cursor/rules/modes/implement.mdc" "/rules/modes/implement" true /\
  resolveSingleLink testConfig JsMap.empty "./missing.mdc" "test.mdc"
    = MkCrossReference "./missing.mdc" "/rules/missing" false.
Proof. repeat split; vm_compute; reflexivity. Qed.

(** *** Warnings *)

Lemma sort_insert_perm (x : string) (l : list string) :
  Permutation (x :: l) (sort_insert x l).
Proof.
  induction l as [|y l IH]; simpl; [reflexivity|].
  destruct (leb x y); [reflexivity|].
  rewrite perm_swap. apply perm_skip, IH.
Qed.

Lemma sort_perm (l : list string) : Permutation l (sort l).
Proof.
  induction l as [|x l IH]; simpl; [reflexivity|].
  rewrite <- sort_insert_perm. apply perm_skip, IH.
Qed.

(** The order of [sort]: by code units, lexicographically. *)
Definition inOrder (a b : string) : Prop := leb a b = true.

Lemma ltb_trans_neg (c b a : string) :
  ltb b a = false -> ltb c b = false -> ltb c a = false.
Proof.
  revert b a. induction c as [|xc c IH]; intros [|xb b] [|ya a]; cbn [ltb];
    try discriminate; try reflexivity.
  destruct (Nat.ltb_spec (code xb) (code ya)), (Nat.ltb_spec (code ya) (code xb)),
           (Nat.ltb_spec (code xc) (code xb)), (Nat.ltb_spec (code xb) (code xc)),
           (Nat.ltb_spec (code xc) (code ya)), (Nat.ltb_spec (code ya) (code xc));
    try discriminate; try reflexivity; try lia. apply IH.
Qed.

Lemma ltb_asym (a b : string) : ltb a b = true -> ltb b a = false.
Proof.
  revert b. induction a as [|x a IH]; intros [|y b]; cbn [ltb];
    try discriminate; try reflexivity.
  destruct (Nat.ltb_spec (code x) (code y)), (Nat.ltb_spec (code y) (code x));
    try discriminate; try reflexivity; try lia. apply IH.
Qed.

Lemma sort_insert_sorted (x : string) (l : list string) :
  StronglySorted inOrder l -> StronglySorted inOrder (sort_insert x l).
Proof.
  induction 1 as [|y l Hs IH Hall]; cbn [sort_insert].
  - constructor; constructor.
  - destruct (leb x y) eqn:E.
    + constructor; [constructor; assumption|]. constructor; [exact E|].
      eapply Forall_impl; [exact Hall|]. intros z Hz. unfold inOrder, leb in *.
      apply negb_true_iff. apply negb_true_iff in E, Hz.
      apply (ltb_trans_neg z y x); assumption.
    + constructor; [exact IH|].
      assert (Hyx : inOrder y x).
      { unfold inOrder, leb in *. apply negb_false_iff in E.
        apply negb_true_iff, ltb_asym, E. }
      eapply Permutation_Forall; [apply sort_insert_perm|].
      constructor; assumption.
Qed.

Lemma sort_sorted (l : list string) : StronglySorted inOrder (sort l).
Proof.
  induction l as [|x l IH]; cbn [sort fold_right]; [constructor|].
  apply sort_insert_sorted, IH.
Qed.

Lemma availableFiles_length (files : DiscoveredFiles) :
  List.length (availableFiles files) =
  List.length (List.filter (fun path => endsWith path ".mdc") (JsMap.keys files)).
Proof.
  unfold availableFiles.
  rewrite <- (Permutation_length (sort_perm _)). apply length_map.
Qed.

Lemma availableFiles_In (files : DiscoveredFiles) (p : string) :
  In p (availableFiles files) <->
  exists key, p = "./" +:+ key /\ In key (JsMap.keys files) /\ endsWith key ".mdc" = true.
Proof.
  unfold availableFiles. split.
  - intros H. apply (Permutation_in _ (Permutation_sym (sort_perm _))) in H.
    apply in_map_iff in H as (key & <- & Hk). apply filter_In in Hk.
    exists key. tauto.
  - intros (key & -> & Hk). apply (Permutation_in _ (sort_perm _)).
    apply in_map_iff. exists key. split; [reflexivity|]. apply filter_In. exact Hk.
Qed.

Lemma In_firstn {A} (n : nat) (l : list A) (x : A) : In x (firstn n l) -> In x l.
Proof.
  revert l. induction n as [|n IH]; intros [|y l]; simpl; try tauto.
  intros [H|H]; [left; exact H|right; apply IH, H].
Qed.

Lemma findSimilarFiles_spec (originalLink : string) (available : list string) :
  List.length (findSimilarFiles originalLink available) <= 3 /\
  forall file, In file (findSimilarFiles originalLink available) ->
    In file available /\
    isSimilar (toLowerCase (NodePath.basename originalLink ".mdc")) file = true.
Proof.
  unfold findSimilarFiles. split; [apply firstn_le_length|].
  intros file H. apply In_firstn, filter_In in H. exact H.
Qed.

(** The parts of a message, in order. *)
Definition suggestionsPart (suggestions : list string) : string :=
  if 0 <? List.length suggestions
  then newline +:+ "  Suggestions: " +:+ join ", " suggestions else "".

Definition overflowPart (available : list string) : string :=
  if 5 <? List.length available
  then " (and " +:+ showNat (List.length available - 5) +:+ " more)" else "".

Lemma warningMessage_parts (files : DiscoveredFiles) (sourceFilePath : string)
    (ref : CrossReference) :
  warningMessage files sourceFilePath ref =
  "Broken cross-reference in " +:+ sourceFilePath +:+ ": " +:+ original ref
  +:+ suggestionsPart (findSimilarFiles (original ref) (availableFiles files))
  +:+ newline +:+ "  Available files: " +:+ join ", " (firstn 5 (availableFiles files))
  +:+ overflowPart (availableFiles files).
Proof.
  unfold warningMessage, suggestionsPart, overflowPart.
  destruct (0 <? _), (5 <? _);
    rewrite ?append_assoc, ?append_empty_r; simpl; rewrite ?append_assoc; reflexivity.
Qed.

Lemma generateWarnings_from (files : DiscoveredFiles) (refs : list CrossReference)
    (sourceFilePath : string) (warnings : list string) :
  fold_left
    (fun warnings ref =>
       if negb (isValid ref) then warnings ++ [warningMessage files sourceFilePath ref]
       else warnings) refs warnings =
  warnings ++ map (warningMessage files sourceFilePath)
                (List.filter (fun ref => negb (isValid ref)) refs).
Proof.
  revert warnings. induction refs as [|ref refs IH]; intros warnings; simpl.
  - rewrite app_nil_r. reflexivity.
  - rewrite IH. destruct (isValid ref); simpl; [reflexivity|].
    rewrite <- app_assoc. reflexivity.
Qed.

(** *** The suggestions *)

(** A known path qualifies as a suggestion for a reference when their
    base names, without the extension and in lower case, are equal, or
    one contains the other. *)
Definition qualifies (originalLink file : string) : bool :=
  let linkName := toLowerCase (NodePath.basename originalLink ".mdc") in
  let fileName := toLowerCase (NodePath.basename file ".mdc") in
  String.eqb fileName linkName || includes fileName linkName || includes linkName fileName.

Lemma isSimilar_qualifies (originalLink file : string) :
  isSimilar (toLowerCase (NodePath.basename originalLink ".mdc")) file =
  qualifies originalLink file.
Proof. unfold isSimilar, qualifies. cbv zeta. destruct (String.eqb _ _); reflexivity. Qed.

Lemma firstn_prefix {A} (n : nat) (l : list A) :
  exists rest, l = firstn n l ++ rest /\ (List.length (firstn n l) = n \/ rest = []).
Proof.
  exists (skipn n l). split; [symmetry; apply firstn_skipn|].
  destruct (Nat.le_gt_cases n (List.length l)) as [H|H].
  - left. apply firstn_length_le, H.
  - right. apply skipn_all2. lia.
Qed.

(** The suggestions are the first three known paths that qualify, in
    the order of the known paths. *)
Lemma findSimilarFiles_first (originalLink : string) (available : list string) :
  exists rest,
    List.filter (qualifies originalLink) available =
      findSimilarFiles originalLink available ++ rest /\
    (List.length (findSimilarFiles originalLink available) = 3 \/ rest = []).
Proof.
  unfold findSimilarFiles. cbv zeta.
  rewrite (filter_ext _ _ (isSimilar_qualifies originalLink)).
  apply firstn_prefix.
Qed.

(** *** The keys of the index *)

Lemma keys_set {V} (m : JsMap.t V) (k : string) (v : V) :
  JsMap.keys (JsMap.set m k v) =
  if JsMap.has m k then JsMap.keys m else JsMap.keys m ++ [k].
Proof.
  unfold JsMap.keys. induction m as [|[k' v'] m IH]; [reflexivity|].
  cbn [JsMap.set JsMap.has]. destruct (String.eqb k' k); [reflexivity|].
  cbn [map orb fst]. rewrite IH. destruct (JsMap.has m k); reflexivity.
Qed.

Lemma has_keys {V} (m : JsMap.t V) (k : string) :
  JsMap.has m k = true <-> In k (JsMap.keys m).
Proof.
  unfold JsMap.keys. induction m as [|[k' v'] m IH]; cbn [JsMap.has map fst In].
  - split; [discriminate|tauto].
  - rewrite orb_true_iff, IH, String.eqb_eq. tauto.
Qed.

(** The keys of the index of documents with distinct paths, none of
    which has a backslash: the paths, in the order of the documents. *)
Lemma keys_setDiscoveredFiles (rules : list RuleContent) :
  NoDup (map filePath rules) ->
  Forall (fun rule => normalizeSeparators (filePath rule) = filePath rule) rules ->
  JsMap.keys (setDiscoveredFiles rules) = map filePath rules.
Proof.
  unfold setDiscoveredFiles.
  assert (H : forall files : DiscoveredFiles,
    NoDup (JsMap.keys files ++ map filePath rules) ->
    Forall (fun rule => normalizeSeparators (filePath rule) = filePath rule) rules ->
    JsMap.keys
      (fold_left
         (fun files content =>
            JsMap.set (JsMap.set files (filePath content) content)
              (normalizeSeparators (filePath content)) content)
         rules files) = JsMap.keys files ++ map filePath rules).
  { induction rules as [|rule rules IH]; intros files Hnd Hn; cbn [fold_left map].
    - rewrite app_nil_r. reflexivity.
    - apply Forall_cons_iff in Hn as [Hrule Hn]. rewrite Hrule.
      assert (Hnew : JsMap.has files (filePath rule) = false).
      { destruct (JsMap.has files (filePath rule)) eqn:E; [|reflexivity].
        apply has_keys, list_elem_of_In in E. cbn [map] in Hnd.
        apply NoDup_app in Hnd as (_ & Hd & _). destruct (Hd _ E). left. }
      assert (Hkeys : JsMap.keys (JsMap.set (JsMap.set files (filePath rule) rule)
                                   (filePath rule) rule) =
                      JsMap.keys files ++ [filePath rule]).
      { rewrite keys_set, has_set, String.eqb_refl. cbn [orb].
        rewrite keys_set, Hnew. reflexivity. }
      rewrite IH; [rewrite Hkeys, <- app_assoc; reflexivity| |exact Hn].
      rewrite Hkeys, <- app_assoc. exact Hnd. }
  intros Hnd Hn. apply (H JsMap.empty); assumption.
Qed.

Lemma filter_all_true {A} (f : A -> bool) (l : list A) :
  Forall (fun x => f x = true) l -> List.filter f l = l.
Proof.
  induction 1 as [|x l Hx _ IH]; [reflexivity|]. cbn [List.filter]. rewrite Hx, IH.
  reflexivity.
Qed.

(** An index of eight documents and a broken reference. *)
Definition eightRules : list RuleContent :=
  map ruleAt ["rule0.mdc"; "rule1.mdc"; "rule2.mdc"; "rule3.mdc";
              "rule4.mdc"; "rule5.mdc"; "rule6.mdc"; "rule7.mdc"].

Definition eightFiles : DiscoveredFiles := setDiscoveredFiles eightRules.

Definition brokenRef : CrossReference :=
  MkCrossReference "./nonexistent.mdc" "/rules/nonexistent" false.

(** Eight documents of a directory, their paths written with a
    backslash: the index holds each path twice, as it is and with the
    separator normalized, so the message counts sixteen known paths and
    lists the first five of them, which are those of five documents. *)
Definition backslashRules : list RuleContent :=
  map (fun name => ruleAt ("modes" +:+ String backslash name))
    ["rule0.mdc"; "rule1.mdc"; "rule2.mdc"; "rule3.mdc";
     "rule4.mdc"; "rule5.mdc"; "rule6.mdc"; "rule7.mdc"].

Lemma generateWarnings_counts_keys :
  List.length backslashRules = 8 /\
  NoDup (map filePath backslashRules) /\
  List.length (availableFiles (setDiscoveredFiles backslashRules)) = 16 /\
  generateWarnings (setDiscoveredFiles backslashRules) [brokenRef] "test.mdc" =
  ["Broken cross-reference in test.mdc: ./nonexistent.mdc" +:+ newline
   +:+ "  Available files: ./modes/rule0.mdc, ./modes/rule1.mdc, ./modes/rule2.mdc, "
   +:+ "./modes/rule3.mdc, ./modes/rule4.mdc (and 11 more)"].
Proof.
  split; [reflexivity|]. split; [|split; vm_compute; reflexivity].
  unfold backslashRules. cbn [map ruleAt filePath].
  repeat (apply NoDup_cons_2; [rewrite list_elem_of_In; cbn [In]; intuition discriminate|]).
  apply NoDup_nil_2.
Qed.

(** C3 (as amended): the warnings are the messages of the invalid
    references, one each and in their order.  The message of a reference
    is made of the path of the source document and the original text of
    the reference, then the suggestions when there are any, then the first
    five known paths, then the number of the others when there are more
    than five.  The known paths are the keys of the index with the
    extension, each prefixed with [./], sorted by code units.  The
    suggestions are the first three known paths that qualify by their base
    name, in the order of the known paths: there is one as soon as a known
    path qualifies.  When the index is built from eight documents whose
    paths are distinct, have the extension and have no backslash, the
    message lists five paths, each the path of one of the documents, and
    ends with the overflow note [(and 3 more)]. *)
Theorem generateWarnings_messages (files : DiscoveredFiles)
    (crossReferences : list CrossReference) (sourceFilePath : string) :
  generateWarnings files crossReferences sourceFilePath =
    map (warningMessage files sourceFilePath)
      (List.filter (fun ref => negb (isValid ref)) crossReferences) /\
  forall ref : CrossReference,
    let message := warningMessage files sourceFilePath ref in
    let available := availableFiles files in
    let suggestions := findSimilarFiles (original ref) available in
    message =
      "Broken cross-reference in " +:+ sourceFilePath +:+ ": " +:+ original ref
      +:+ (if 0 <? List.length suggestions
           then newline +:+ "  Suggestions: " +:+ join ", " suggestions else "")
      +:+ newline +:+ "  Available files: " +:+ join ", " (firstn 5 available)
      +:+ (if 5 <? List.length available
           then " (and " +:+ showNat (List.length available - 5) +:+ " more)" else "") /\
    contains message sourceFilePath /\
    contains message (original ref) /\
    (exists others,
       List.filter (qualifies (original ref)) available = suggestions ++ others /\
       (List.length suggestions = 3 \/ others = [])) /\
    List.length suggestions <= 3 /\
    ((exists file, In file available /\ qualifies (original ref) file = true) ->
       suggestions <> [] /\
       contains message ("  Suggestions: " +:+ join ", " suggestions)) /\
    contains message ("  Available files: " +:+ join ", " (firstn 5 available)) /\
    Permutation available
      (map (fun key => "./" +:+ key)
         (List.filter (fun key => endsWith key ".mdc") (JsMap.keys files))) /\
    StronglySorted inOrder available /\
    (forall rules : list RuleContent,
       files = setDiscoveredFiles rules ->
       List.length rules = 8 ->
       NoDup (map filePath rules) ->
       Forall (fun rule => endsWith (filePath rule) ".mdc" = true /\
                           normalizeSeparators (filePath rule) = filePath rule) rules ->
       List.length (firstn 5 available) = 5 /\
       Forall (fun path => exists rule, In rule rules /\ path = "./" +:+ filePath rule)
              (firstn 5 available) /\
       exists front,
         message = front +:+ "  Available files: " +:+ join ", " (firstn 5 available)
                   +:+ " (and 3 more)").
Proof.
  split; [apply (generateWarnings_from files crossReferences sourceFilePath [])|].
  intros ref message available suggestions.
  assert (Hm := warningMessage_parts files sourceFilePath ref).
  fold message available suggestions in Hm. unfold suggestionsPart, overflowPart in Hm.
  destruct (findSimilarFiles_spec (original ref) available) as [Hlen _].
  fold suggestions in Hlen.
  destruct (findSimilarFiles_first (original ref) available) as (others & Hf & Hfull).
  fold suggestions in Hf, Hfull.
  assert (Hperm : Permutation available
            (map (fun key => "./" +:+ key)
               (List.filter (fun key => endsWith key ".mdc") (JsMap.keys files)))).
  { symmetry. apply sort_perm. }
  assert (Hsugg : suggestions <> [] ->
            contains message ("  Suggestions: " +:+ join ", " suggestions)).
  { intros Hne. rewrite Hm. do 4 apply contains_append_l.
    destruct suggestions as [|s l]; [congruence|].
    replace (0 <? List.length (s :: l)) with true by reflexivity.
    rewrite !append_assoc. apply contains_append_l.
    rewrite <- append_assoc. apply contains_here. }
  split; [exact Hm|].
  split; [rewrite Hm; apply contains_append_l, contains_here|].
  split; [rewrite Hm; do 3 apply contains_append_l; apply contains_here|].
  split; [exists others; auto|]. split; [exact Hlen|].
  split; [|split; [|split; [exact Hperm|split; [apply sort_sorted|]]]].
  - intros (file & Hin & Hq).
    assert (Hne : suggestions <> []).
    { intros E. rewrite E in Hf, Hfull. cbn [List.app List.length] in Hf, Hfull.
      assert (Hfile : In file (List.filter (qualifies (original ref)) available))
        by (apply filter_In; auto).
      destruct Hfull as [Hfull|Hfull]; [discriminate Hfull|].
      rewrite Hf, Hfull in Hfile. destruct Hfile. }
    split; [exact Hne|apply Hsugg, Hne].
  - rewrite Hm. do 6 apply contains_append_l.
    rewrite <- append_assoc. apply contains_here.
  - intros rules -> Hrules Hnd Hall.
    assert (Hkeys : List.filter (fun key => endsWith key ".mdc")
                      (JsMap.keys (setDiscoveredFiles rules)) = map filePath rules).
    { rewrite keys_setDiscoveredFiles; [|exact Hnd|].
      - apply filter_all_true, Forall_map. eapply Forall_impl; [exact Hall|].
        intros rule [H _]. exact H.
      - eapply Forall_impl; [exact Hall|]. intros rule [_ H]. exact H. }
    rewrite Hkeys in Hperm.
    assert (H8 : List.length available = 8).
    { rewrite (Permutation_length Hperm), !length_map. exact Hrules. }
    split; [rewrite length_firstn, H8; reflexivity|]. split.
    + apply List.Forall_forall. intros path Hin. apply In_firstn in Hin.
      apply (Permutation_in _ Hperm), in_map_iff in Hin as (key & <- & Hkey).
      apply in_map_iff in Hkey as (rule & <- & Hrule). exists rule. auto.
    + exists ("Broken cross-reference in " +:+ sourceFilePath +:+ ": " +:+ original ref
              +:+ (if 0 <? List.length suggestions
                   then newline +:+ "  Suggestions: " +:+ join ", " suggestions else "")
              +:+ newline).
      rewrite Hm, H8.
      change (5 <? 8) with true. change (showNat (8 - 5)) with "3".
      rewrite !append_assoc. reflexivity.
Qed.

Lemma generateWarnings_messages_witness :
  List.length (firstn 5 (availableFiles eightFiles)) = 5 /\
  exists front,
    warningMessage eightFiles "test.mdc" brokenRef =
    front +:+ "  Available files: "
    +:+ "./rule0.mdc, ./rule1.mdc, ./rule2.mdc, ./rule3.mdc, ./rule4.mdc"
    +:+ " (and 3 more)".
Proof.
  destruct (generateWarnings_messages eightFiles [brokenRef] "test.mdc") as [_ H].
  specialize (H brokenRef). cbv zeta in H.
  destruct H as (_ & _ & _ & _ & _ & _ & _ & _ & _ & H).
  assert (Hnd : NoDup (map filePath eightRules)).
  { unfold eightRules. cbn [map ruleAt filePath].
    repeat (apply NoDup_cons_2; [rewrite list_elem_of_In; cbn [In]; intuition discriminate|]).
    apply NoDup_nil_2. }
  assert (Hall : Forall (fun rule => endsWith (filePath rule) ".mdc" = true /\
                                     normalizeSeparators (filePath rule) = filePath rule)
                   eightRules).
  { unfold eightRules. cbn [map].
    repeat (apply Forall_cons_2; [split; vm_compute; reflexivity|]). apply Forall_nil_2. }
  destruct (H eightRules eq_refl eq_refl Hnd Hall) as (H5 & _ & Hfront).
  split; [exact H5|exact Hfront].
Defined.

(** The message of the scenario, in full, and a message with a
    suggestion. *)
Example generateWarnings_eight :
  generateWarnings eightFiles [brokenRef] "test.mdc" =
  ["Broken cross-reference in test.mdc: ./nonexistent.mdc" +:+ newline
   +:+ "  Available files: ./rule0.mdc, ./rule1.mdc, ./rule2.mdc, ./rule3.mdc, ./rule4.mdc"
   +:+ " (and 3 more)"] /\
  generateWarnings testFiles
    [MkCrossReference "./plan.mdc" "/rules/plan" false] "test.mdc" =
  ["Broken cross-reference in test.mdc: ./plan.mdc" +:+ newline
   +:+ "  Suggestions: ./modes/plan.mdc" +:+ newline
   +:+ "  Available files: ./adr-structure.mdc, ./main.mdc, ./modes/implement.mdc, "
   +:+ "./modes/plan.mdc"].
Proof. split; vm_compute; reflexivity. Qed.

(** *** Statistics *)

#[local] Set Warnings "-inexact-float".

(** [x] rounded to two decimal places, as the source computes it. *)
Definition roundTo2 (x : float) : float := (JsNumber.round (x * 100) / 100)%float.

Lemma ofNat_to_Z (n : nat) :
  (Z.of_nat n < 2 ^ 53)%Z ->
  Uint63.to_Z (Uint63.of_Z (Z.of_nat n)) = Z.of_nat n.
Proof.
  intros H. rewrite Uint63.of_Z_spec. apply Z.mod_small.
  change wB with 9223372036854775808%Z.
  change (2 ^ 53)%Z with 9007199254740992%Z in H. lia.
Qed.

Lemma ofNat_positive (n : nat) :
  0 < n -> (Z.of_nat n < 2 ^ 53)%Z ->
  PrimFloat.ltb 0%float (JsNumber.ofNat n) = true.
Proof.
  intros H0 H. apply FloatFacts.ltb_0_of_uint63. rewrite ofNat_to_Z by exact H. lia.
Qed.

Lemma filter_all {A} (p : A -> bool) (l : list A) :
  forallb p l = true -> List.filter p l = l.
Proof.
  induction l as [|x l IH]; simpl; [reflexivity|].
  intros H. apply andb_true_iff in H as [Hx Hl]. rewrite Hx, IH by exact Hl. reflexivity.
Qed.

Definition validRef : CrossReference := MkCrossReference "./main.mdc" "/rules/main" true.
Definition invalidRef : CrossReference := MkCrossReference "./broken.mdc" "/rules/broken" false.

(** C8: the total is the length of the sequence, the valid count the
    number of valid elements and the broken count their difference.  The
    success rate of the empty sequence is 100; for a sequence that is not
    empty it is the quotient of valid and total, times 100, rounded to two
    decimal places (in binary64 arithmetic: times 100, rounded to the
    nearest integer, divided by 100); it is 100 when every element is
    valid, and 66.67 for two valid elements and a broken one. *)
Theorem getResolutionStats_spec (allCrossReferences : list CrossReference) :
  let stats := getResolutionStats allCrossReferences in
  total stats = List.length allCrossReferences /\
  valid stats = List.length (List.filter isValid allCrossReferences) /\
  broken stats = total stats - valid stats /\
  valid stats + broken stats = total stats /\
  (allCrossReferences = [] -> successRate stats = 100%float) /\
  (allCrossReferences <> [] ->
   (Z.of_nat (List.length allCrossReferences) < 2 ^ 53)%Z ->
     successRate stats =
       roundTo2 (JsNumber.ofNat (valid stats) / JsNumber.ofNat (total stats) * 100)) /\
  (forallb isValid allCrossReferences = true -> successRate stats = 100%float) /\
  successRate (getResolutionStats [validRef; validRef; invalidRef]) = 66.67%float /\
  successRate (getResolutionStats [validRef; validRef]) = 100%float /\
  successRate (getResolutionStats []) = 100%float.
Proof.
  intros stats. subst stats. unfold getResolutionStats.
  cbn [total valid broken successRate].
  set (n := List.length allCrossReferences).
  set (v := List.length (List.filter isValid allCrossReferences)).
  assert (Hv : v <= n) by apply List.filter_length_le.
  split; [reflexivity|]. split; [reflexivity|]. split; [reflexivity|].
  split; [lia|]. split; [|split; [|split]].
  - intros ->. vm_compute. reflexivity.
  - intros Hne Hlt. rewrite ofNat_positive; [reflexivity| |exact Hlt].
    subst n. destruct allCrossReferences; [congruence|simpl; lia].
  - intros Hall. subst v. rewrite (filter_all _ _ Hall). fold n.
    destruct (PrimFloat.ltb 0 (JsNumber.ofNat n)) eqn:E.
    + unfold JsNumber.ofNat in *. rewrite (FloatFacts.div_diag_of_uint63 _ E).
      vm_compute. reflexivity.
    + vm_compute. reflexivity.
  - repeat split; vm_compute; reflexivity.
Qed.

Lemma getResolutionStats_spec_witness :
  successRate (getResolutionStats [validRef; validRef; invalidRef]) =
  roundTo2 (JsNumber.ofNat 2 / JsNumber.ofNat 3 * 100).
Proof.
  refine (proj1 (proj2 (proj2 (proj2 (proj2 (proj2
    (getResolutionStats_spec [validRef; validRef; invalidRef])))))) _ _).
  - discriminate.
  - vm_compute. reflexivity.
Defined.

(** *** Rewriting of anchor elements *)

Lemma notGt_not_gt (c : ascii) : notGt c = true -> ascii_eqb ">" c = false.
Proof.
  unfold notGt, ascii_eqb. intros H. destruct (Ascii.eqb_spec ">" c) as [<-|]; [|reflexivity].
  discriminate H.
Qed.

Lemma LINK_TEXT_PATTERN_eq :
  LINK_TEXT_PATTERN =
  Cat (Chr (ascii_eqb ">")) (Cat (Group 1 (Star true (Chr notLt))) (Chr (ascii_eqb "<"))).
Proof. reflexivity. Qed.

(** The label pattern matches at a [>] that is followed by a [<], and
    captures the text between them. *)
Lemma match_here_link_text (st : mstate) (label after : string) :
  rest st = String ">" (label +:+ String "<" after) ->
  allChars notLt label = true ->
  match_here LINK_TEXT_PATTERN st =
  Some (Match (pos st) (S (S (pos st + String.length label)))
          ((1, (S (pos st), S (pos st + String.length label))) :: caps st)).
Proof.
  intros Hrest Hlabel. unfold match_here. rewrite LINK_TEXT_PATTERN_eq.
  rewrite rmatch_Cat, rmatch_Chr, Hrest.
  change (ascii_eqb ">" ">") with true. cbv iota.
  set (st1 := advance ">" (label +:+ String "<" after) st).
  destruct (consume_append label (String "<" after) st1 eq_refl) as (H1 & H2 & H3).
  rewrite rmatch_Cat, rmatch_Group, rmatch_Star.
  apply star_loop_greedy_run with (l := label) (tail := String "<" after).
  - exact Hlabel.
  - intros c t [= <- _]. reflexivity.
  - reflexivity.
  - change (rest st1) with (label +:+ String "<" after).
    rewrite length_append. simpl. lia.
  - rewrite rmatch_Chr. cbn [rest capture]. rewrite H1.
    change (ascii_eqb "<" "<") with true. cbv iota.
    cbn [pos caps advance capture]. rewrite H2, H3.
    change (pos st1) with (S (pos st)). change (caps st1) with (caps st).
    reflexivity.
Qed.

Lemma match_here_link_text_none (st : mstate) (c : ascii) (tl : string) :
  rest st = String c tl -> notGt c = true ->
  match_here LINK_TEXT_PATTERN st = None.
Proof.
  intros Hrest Hc. unfold match_here. rewrite LINK_TEXT_PATTERN_eq.
  rewrite rmatch_Cat, rmatch_Chr, Hrest, (notGt_not_gt c Hc). reflexivity.
Qed.

Lemma search_link_text (opening label after : string) :
  allChars notGt opening = true ->
  allChars notLt label = true ->
  forall (fuel : nat) (st : mstate),
    caps st = [] ->
    rest st = opening +:+ String ">" (label +:+ String "<" after) ->
    String.length opening <= fuel ->
    search LINK_TEXT_PATTERN fuel st =
    Some (Match (pos st + String.length opening)
            (S (S (pos st + String.length opening + String.length label)))
            [(1, (S (pos st + String.length opening),
                  S (pos st + String.length opening + String.length label)))]).
Proof.
  intros Hopen Hlabel. induction opening as [|c o IH]; intros fuel st Hcaps Hrest Hfuel.
  - rewrite search_unfold.
    rewrite (match_here_link_text st label after Hrest Hlabel), Hcaps.
    cbn [String.length]. rewrite Nat.add_0_r. reflexivity.
  - cbn [allChars] in Hopen. apply andb_true_iff in Hopen as [Hc Ho].
    destruct fuel as [|fuel]; [simpl in Hfuel; lia|].
    rewrite append_cons in Hrest.
    rewrite search_unfold, (match_here_link_text_none st c _ Hrest Hc), Hrest.
    rewrite (IH Ho fuel (MState (Some c) _ (S (pos st)) []) eq_refl eq_refl)
      by (simpl in Hfuel; lia).
    cbn [pos String.length]. rewrite !Nat.add_succ_comm. reflexivity.
Qed.

(** The label of an anchor element whose opening tag has no [>] before
    its end and whose content has no [<] is the content. *)
Lemma linkTextOf_plain (opening label after : string) :
  allChars notGt opening = true ->
  allChars notLt label = true ->
  linkTextOf (opening +:+ String ">" (label +:+ String "<" after)) = label.
Proof.
  intros Hopen Hlabel. unfold linkTextOf, exec.
  rewrite (search_link_text opening label after Hopen Hlabel _
             (start_state _) eq_refl eq_refl)
    by (rewrite length_append; lia).
  unfold group, substring. cbn [lookup_cap m_caps Nat.eqb pos start_state Nat.add].
  replace (S (String.length opening + String.length label) - S (String.length opening))
    with (String.length label) by lia.
  assert (E : drop (S (String.length opening))
                (opening +:+ String ">" (label +:+ String "<" after))
              = label +:+ String "<" after).
  { replace (S (String.length opening)) with (String.length (opening +:+ ">"))
      by (rewrite length_append; simpl; lia).
    change (String ">" (label +:+ String "<" after))
      with (">" +:+ label +:+ String "<" after).
    rewrite <- (append_assoc opening ">"). apply drop_append. }
  rewrite E. apply take_append.
Qed.

Definition notDollar (c : ascii) : bool := negb (code c =? 36).

Lemma getSubstitution_plain (matched before after repl : string) :
  allChars notDollar repl = true ->
  getSubstitution matched before after repl = repl.
Proof.
  induction repl as [|c r IH]; [reflexivity|]. simpl. intros H.
  apply andb_true_iff in H as [Hc Hr]. unfold notDollar in Hc.
  apply negb_true_iff in Hc. rewrite Hc, (IH Hr). reflexivity.
Qed.

(** A replacement text without [$] is inserted as it is, in place of the
    first occurrence. *)
Lemma replace_plain (s p repl : string) (i : nat) :
  find s p = Some i -> allChars notDollar repl = true ->
  replace s p repl = take i s +:+ repl +:+ drop (i + String.length p) s.
Proof.
  intros Hf Hr. unfold replace. rewrite Hf, getSubstitution_plain by exact Hr. reflexivity.
Qed.

(** The body of the scenario and its only match. *)
Definition scenarioBody : string :=
  "See <a href=" +:+ String dq "./main.mdc" +:+ String dq ">main</a>".

Definition scenarioMatch : rmatch_result := Match 4 33 [(1, (4, 33)); (2, (13, 23))].

Example matchAll_scenarioBody :
  matchAll MDC_LINK_PATTERN scenarioBody = [scenarioMatch].
Proof. vm_compute. reflexivity. Qed.

(** An anchor element with a [title] attribute after its destination. *)
Definition titledBody : string :=
  "See <a href=" +:+ String dq "./main.mdc" +:+ String dq " title="
  +:+ String dq "Main" +:+ String dq ">main</a>".

(** The rewriting drops the [title] attribute: the rest of the element
    is not left unchanged. *)
Lemma resolveLinks_drops_attributes :
  includes titledBody "title=" = true /\
  res_content (resolveLinks testConfig testFiles titledBody "test.mdc") =
    "See <a href=" +:+ String dq "/rules/main" +:+ String dq ">main</a>" /\
  includes (res_content (resolveLinks testConfig testFiles titledBody "test.mdc"))
    "title=" = false.
Proof. repeat split; vm_compute; reflexivity. Qed.

(** An anchor element whose content is the replacement pattern [$&]. *)
Definition dollarBody : string :=
  "<a href=" +:+ String dq "./main.mdc" +:+ String dq ">$&</a>".

(** [String.prototype.replace] expands the pattern: the old element comes
    back inside the new one. *)
Example resolveLinks_expands_pattern :
  res_content (resolveLinks testConfig testFiles dollarBody "test.mdc") =
  "<a href=" +:+ String dq "/rules/main" +:+ String dq ">" +:+ dollarBody +:+ "</a>".
Proof. vm_compute. reflexivity. Qed.

(** C5 (as amended): for a match of the anchor alternative, one
    cross-reference is added and [replace] is called on the body as
    rewritten so far, with the whole matched element as the text to find
    and, as replacement, a new anchor whose only attribute is the resolved
    destination and whose content is the label of the element (the text
    between its first [>] and the next [<]).  When the element does not
    occur in that body, the body is unchanged.  When it occurs and the new
    anchor has no dollar sign, its first occurrence is replaced by the new
    anchor and the text before and after the occurrence is kept (a dollar
    sign in the new anchor is read by [replace] as a replacement pattern).
    When the content of the element is plain text (its opening tag has no
    [>] before its end and its content no [<]), the label of the new
    anchor is that content, unchanged.  Other attributes of the element
    are not kept.  The body of the scenario becomes the same sentence with
    the destination [/rules/main] and yields one valid cross-reference. *)
Theorem resolveMatch_rewrites_anchor (config : InternalPluginConfig)
    (files : DiscoveredFiles) (content sourceFilePath : string) (acc : resolution)
    (m : rmatch_result) (anchorTag originalLink : string) :
  group content m 1 = Some anchorTag -> anchorTag <> "" ->
  group content m 2 = Some originalLink ->
  let ref := resolveSingleLink config files originalLink sourceFilePath in
  let rebuilt := newAnchorTag (resolved ref) (linkTextOf anchorTag) in
  resolveMatch config files content sourceFilePath acc m =
    MkResolution (replace (res_content acc) anchorTag rebuilt)
                 (res_crossReferences acc ++ [ref]) /\
  rebuilt = "<a href=" +:+ String dq (resolved ref) +:+ String dq ">"
            +:+ linkTextOf anchorTag +:+ "</a>" /\
  (find (res_content acc) anchorTag = None ->
     replace (res_content acc) anchorTag rebuilt = res_content acc) /\
  (forall i, find (res_content acc) anchorTag = Some i ->
     allChars notDollar rebuilt = true ->
     replace (res_content acc) anchorTag rebuilt =
       take i (res_content acc) +:+ rebuilt
       +:+ drop (i + String.length anchorTag) (res_content acc)) /\
  (forall opening label,
     anchorTag = opening +:+ String ">" (label +:+ "</a>") ->
     allChars notGt opening = true -> allChars notLt label = true ->
     rebuilt = "<a href=" +:+ String dq (resolved ref) +:+ String dq ">" +:+ label +:+ "</a>") /\
  resolveLinks testConfig testFiles scenarioBody "test.mdc" =
    MkResolution ("See <a href=" +:+ String dq "/rules/main" +:+ String dq ">main</a>")
                 [MkCrossReference "./main.mdc" "/rules/main" true].
Proof.
  intros H1 Hne H2 ref rebuilt. split; [|split; [|split; [|split; [|split]]]].
  - unfold resolveMatch. rewrite H1, H2. simpl.
    destruct (String.eqb_spec anchorTag "") as [E|_]; [contradiction|]. reflexivity.
  - reflexivity.
  - intros Hf. unfold replace. rewrite Hf. reflexivity.
  - intros i Hi Hd. apply replace_plain; assumption.
  - intros opening label -> Ho Hl. subst rebuilt. unfold newAnchorTag.
    change (label +:+ "</a>") with (label +:+ String "<" "/a>").
    rewrite (linkTextOf_plain opening label "/a>" Ho Hl). reflexivity.
  - vm_compute. reflexivity.
Qed.

Lemma resolveMatch_rewrites_anchor_witness :
  resolveMatch testConfig testFiles scenarioBody "test.mdc"
    (MkResolution scenarioBody []) scenarioMatch =
  MkResolution ("See <a href=" +:+ String dq "/rules/main" +:+ String dq ">main</a>")
               [MkCrossReference "./main.mdc" "/rules/main" true].
Proof.
  destruct (resolveMatch_rewrites_anchor testConfig testFiles scenarioBody "test.mdc"
              (MkResolution scenarioBody []) scenarioMatch
              ("<a href=" +:+ String dq "./main.mdc" +:+ String dq ">main</a>")
              "./main.mdc") as (H & _).
  - vm_compute. reflexivity.
  - discriminate.
  - vm_compute. reflexivity.
  - rewrite H. vm_compute. reflexivity.
Defined.
End LinkResolverSpec.

(** * Further properties of the sources *)

(** ** White space at the ends of a text *)
Module TrimFacts.
Import JsString StringFacts.

Lemma allChars_rev (p : ascii -> bool) (s : string) : allChars p (rev s) = allChars p s.
Proof.
  induction s as [|c s IH]; [reflexivity|].
  rewrite rev_cons, MetadataParserSpec.allChars_append, IH. cbn [allChars].
  rewrite andb_true_r. apply andb_comm.
Qed.

(** The text does not begin with white space. *)
Definition headOk (s : string) : Prop :=
  match s with
  | String c _ => is_space c = false
  | EmptyString => True
  end.

(** The text does not end with white space. *)
Definition lastOk (s : string) : Prop := headOk (rev s).

Lemma trimStart_id (s : string) : headOk s -> trimStart s = s.
Proof. destruct s as [|c s]; [reflexivity|]. cbn. intros ->. reflexivity. Qed.

Lemma trimStart_split (s : string) :
  exists sp, s = sp +:+ trimStart s /\ allChars is_space sp = true /\ headOk (trimStart s).
Proof.
  induction s as [|c s (sp & E & Hsp & Hh)].
  - exists "". repeat split.
  - cbn [trimStart]. destruct (is_space c) eqn:Hc.
    + exists (String c sp). rewrite append_cons, <- E. cbn [allChars].
      rewrite Hc, Hsp. auto.
    + exists "". repeat split. exact Hc.
Qed.

Lemma headOk_trimStart (s : string) : headOk (trimStart s).
Proof. destruct (trimStart_split s) as (_ & _ & _ & H). exact H. Qed.

Lemma trimEnd_id (s : string) : lastOk s -> trimEnd s = s.
Proof.
  intros H. unfold trimEnd. rewrite (trimStart_id _ H). apply rev_involutive.
Qed.

Lemma trimEnd_split (s : string) :
  exists sp, s = trimEnd s +:+ sp /\ allChars is_space sp = true /\ lastOk (trimEnd s).
Proof.
  destruct (trimStart_split (rev s)) as (sp & E & Hsp & Hh).
  exists (rev sp). unfold trimEnd, lastOk. rewrite rev_involutive.
  split; [|split; [rewrite allChars_rev; exact Hsp|exact Hh]].
  rewrite <- rev_append, <- E, rev_involutive. reflexivity.
Qed.

Lemma lastOk_trimEnd (s : string) : lastOk (trimEnd s).
Proof. destruct (trimEnd_split s) as (_ & _ & _ & H). exact H. Qed.

Lemma headOk_prefix (a b : string) : headOk (a +:+ b) -> headOk a.
Proof. destruct a as [|c a]; [intros; exact I|]. rewrite append_cons. auto. Qed.

Lemma headOk_trimEnd (s : string) : headOk s -> headOk (trimEnd s).
Proof.
  intros H. destruct (trimEnd_split s) as (sp & E & _). rewrite E in H.
  apply (headOk_prefix _ _ H).
Qed.

Lemma trim_ends (s : string) : headOk (trim s) /\ lastOk (trim s).
Proof.
  unfold trim. split; [apply headOk_trimEnd, headOk_trimStart|apply lastOk_trimEnd].
Qed.

Lemma trim_id (s : string) : headOk s -> lastOk s -> trim s = s.
Proof. intros H1 H2. unfold trim. rewrite (trimStart_id s H1). apply trimEnd_id, H2. Qed.

Lemma trim_idempotent (s : string) : trim (trim s) = trim s.
Proof. destruct (trim_ends s). apply trim_id; assumption. Qed.

Lemma trimStart_spaces (sp t : string) :
  allChars is_space sp = true -> headOk t -> trimStart (sp +:+ t) = t.
Proof.
  intros Hsp Ht. induction sp as [|c sp IH].
  - apply trimStart_id, Ht.
  - cbn [allChars] in Hsp. apply andb_true_iff in Hsp as [Hc Hsp].
    rewrite append_cons. cbn [trimStart]. rewrite Hc. apply IH, Hsp.
Qed.

Lemma trimEnd_spaces (sp t : string) :
  allChars is_space sp = true -> lastOk t -> trimEnd (t +:+ sp) = t.
Proof.
  intros Hsp Ht. unfold trimEnd. rewrite rev_append, trimStart_spaces.
  - apply rev_involutive.
  - rewrite allChars_rev. exact Hsp.
  - exact Ht.
Qed.

Lemma headOk_append (a b : string) : headOk a -> a <> "" -> headOk (a +:+ b).
Proof. destruct a as [|c a]; [congruence|]. rewrite append_cons. auto. Qed.

Lemma rev_eq_empty (s : string) : rev s = "" -> s = "".
Proof. intros H. rewrite <- (rev_involutive s), H. reflexivity. Qed.

Lemma lastOk_append (a b : string) : lastOk b -> b <> "" -> lastOk (a +:+ b).
Proof.
  intros Hb Hne. unfold lastOk. rewrite rev_append. apply headOk_append; [exact Hb|].
  intros E. apply Hne, rev_eq_empty, E.
Qed.

(** The text between white space at both ends is what [trim] gives. *)
Lemma trim_decomp (sp1 t sp2 : string) :
  allChars is_space sp1 = true -> allChars is_space sp2 = true ->
  headOk t -> lastOk t ->
  trim (sp1 +:+ t +:+ sp2) = t.
Proof.
  intros H1 H2 Hh Hl. unfold trim. destruct t as [|c t].
  - change ("" +:+ sp2) with sp2.
    rewrite <- (append_empty_r (sp1 +:+ sp2)), trimStart_spaces; [reflexivity| |exact I].
    rewrite MetadataParserSpec.allChars_append, H1, H2. reflexivity.
  - rewrite trimStart_spaces; [|exact H1|apply headOk_append; [exact Hh|discriminate]].
    apply trimEnd_spaces; assumption.
Qed.

Lemma trim_split (s : string) :
  exists sp1 sp2, s = sp1 +:+ trim s +:+ sp2 /\
    allChars is_space sp1 = true /\ allChars is_space sp2 = true.
Proof.
  destruct (trimStart_split s) as (sp1 & E1 & H1 & _).
  destruct (trimEnd_split (trimStart s)) as (sp2 & E2 & H2 & _).
  exists sp1, sp2. unfold trim. rewrite <- E2, <- E1. auto.
Qed.

Lemma trim_spaces (s : string) : allChars is_space s = true -> trim s = "".
Proof.
  intros H. rewrite <- (append_empty_r s). change (s +:+ "") with (s +:+ "" +:+ "").
  apply trim_decomp; [exact H|reflexivity|exact I|exact I].
Qed.

Lemma trim_empty_spaces (s : string) : trim s = "" -> allChars is_space s = true.
Proof.
  intros H. destruct (trim_split s) as (sp1 & sp2 & E & H1 & H2).
  rewrite E, H, !MetadataParserSpec.allChars_append, H1, H2. reflexivity.
Qed.

End TrimFacts.

(** ** The metadata parser: lines, keys and values *)
Module MetadataParserProps.
Import JsString Regex MetadataParser StringFacts RegexFacts TrimFacts MetadataParserSpec.

(** *** Splitting and joining *)

(** [p] put in front of the first text of a list. *)
Definition prefixFirst (p : string) (l : list string) : list string :=
  match l with
  | h :: t => (p +:+ h) :: t
  | [] => [p]
  end.

Lemma split_go_spec (sep : ascii) (s cur : string) :
  split_go sep s cur = prefixFirst (rev cur) (split sep s).
Proof.
  unfold split. revert cur. induction s as [|c s IH]; intros cur.
  - cbn [split_go prefixFirst]. change (rev "") with "". rewrite append_empty_r.
    reflexivity.
  - cbn [split_go]. destruct (ascii_eqb c sep).
    + cbn [prefixFirst]. change (rev "") with "". rewrite append_empty_r. reflexivity.
    + rewrite IH, (IH (String c "")), rev_cons. change (rev (String c "")) with (String c "").
      destruct (split_go sep s "") as [|h t]; cbn [prefixFirst].
      * reflexivity.
      * rewrite append_assoc. reflexivity.
Qed.

Lemma split_nil (sep : ascii) : split sep "" = [""].
Proof. reflexivity. Qed.

Lemma split_cons (sep c : ascii) (s : string) :
  split sep (String c s) =
  if ascii_eqb c sep then "" :: split sep s
  else prefixFirst (String c "") (split sep s).
Proof.
  unfold split at 1. cbn [split_go]. destruct (ascii_eqb c sep); [reflexivity|].
  apply split_go_spec.
Qed.

Lemma split_nonempty (sep : ascii) (s : string) : split sep s <> [].
Proof.
  destruct s as [|c s]; [discriminate|]. rewrite split_cons.
  destruct (ascii_eqb c sep); [discriminate|].
  destruct (split sep s); discriminate.
Qed.

Lemma prefixFirst_app (p : string) (l l' : list string) :
  l <> [] -> prefixFirst p (l ++ l') = prefixFirst p l ++ l'.
Proof. destruct l; [congruence|reflexivity]. Qed.

(** Splitting at a separator splits the texts on both sides of it. *)
Lemma split_append (sep : ascii) (a b : string) :
  split sep (a +:+ String sep b) = split sep a ++ split sep b.
Proof.
  induction a as [|c a IH].
  - change ("" +:+ String sep b) with (String sep b). rewrite split_cons.
    unfold ascii_eqb. rewrite Ascii.eqb_refl. reflexivity.
  - rewrite append_cons, !split_cons, IH. destruct (ascii_eqb c sep); [reflexivity|].
    apply prefixFirst_app, split_nonempty.
Qed.

(** The text has no character [sep]. *)
Definition without (sep : ascii) (s : string) : bool :=
  allChars (fun x => negb (ascii_eqb x sep)) s.

Lemma split_without (sep : ascii) (s : string) : without sep s = true -> split sep s = [s].
Proof.
  unfold without. induction s as [|c s IH]; [reflexivity|]. cbn [allChars].
  intros H. apply andb_true_iff in H as [Hc Hs]. apply negb_true_iff in Hc.
  rewrite split_cons, Hc, (IH Hs). reflexivity.
Qed.

Lemma join_cons (sep x : string) (l : list string) :
  l <> [] -> join sep (x :: l) = x +:+ sep +:+ join sep l.
Proof. destruct l; [congruence|reflexivity]. Qed.

Lemma join_prefixFirst (sep p : string) (l : list string) :
  l <> [] -> join sep (prefixFirst p l) = p +:+ join sep l.
Proof.
  destruct l as [|h t]; [congruence|]. intros _. cbn [prefixFirst].
  destruct t as [|h' t]; [reflexivity|].
  rewrite !join_cons by discriminate. rewrite append_assoc. reflexivity.
Qed.

(** Joining what a split gives, with the separator, gives the text back. *)
Lemma join_split (sep : ascii) (s : string) : join (String sep "") (split sep s) = s.
Proof.
  induction s as [|c s IH]; [reflexivity|]. rewrite split_cons.
  destruct (ascii_eqb c sep) eqn:E.
  - apply Ascii.eqb_eq in E. subst c.
    rewrite join_cons by apply split_nonempty. rewrite IH. reflexivity.
  - rewrite join_prefixFirst by apply split_nonempty. rewrite IH. reflexivity.
Qed.

Lemma join_app (sep : string) (l l' : list string) :
  l <> [] -> l' <> [] -> join sep (l ++ l') = join sep l +:+ sep +:+ join sep l'.
Proof.
  intros Hl Hl'. induction l as [|x l IH]; [congruence|].
  destruct l as [|y l].
  - cbn [app]. rewrite join_cons by exact Hl'. reflexivity.
  - change ((x :: y :: l) ++ l') with (x :: ((y :: l) ++ l')).
    rewrite !join_cons by discriminate. rewrite IH by discriminate.
    rewrite !append_assoc. reflexivity.
Qed.

(** Splitting the lines joined with the separator gives the lines back,
    when no line has the separator. *)
Lemma split_join (sep : ascii) (l : list string) :
  l <> [] -> Forall (fun x => without sep x = true) l ->
  split sep (join (String sep "") l) = l.
Proof.
  intros Hne Hall. induction l as [|x l IH]; [congruence|].
  apply Forall_cons in Hall as [Hx Hl].
  destruct l as [|y l]; [exact (split_without sep x Hx)|].
  rewrite join_cons by discriminate.
  change (x +:+ String sep "" +:+ join (String sep "") (y :: l))
    with (x +:+ String sep (join (String sep "") (y :: l))).
  rewrite split_append, (split_without sep x Hx), IH by (discriminate || exact Hl).
  reflexivity.
Qed.

(** *** A well-formed block *)

Lemma findClosing_lines (lines rest : list string) (i : nat) :
  Forall (fun l => trim l <> "---") lines ->
  findClosing (lines ++ "---" :: rest) i = Some (i + List.length lines).
Proof.
  intros H. revert i. induction lines as [|l lines IH]; intros i.
  - cbn. f_equal. lia.
  - apply Forall_cons in H as [Hl H]. cbn [app findClosing List.length].
    destruct (String.eqb_spec (trim l) "---") as [E|_]; [contradiction|].
    rewrite (IH H). f_equal. lia.
Qed.

Definition lineBreak : string := String lf "".

Lemma block_lines (lines : list string) (rest : list string) :
  let all := "---" :: lines ++ "---" :: rest in
  findClosing (List.tl all) 1 = Some (S (List.length lines)) ->
  firstn (S (List.length lines) - 1) (skipn 1 all) = lines /\
  skipn (S (List.length lines) + 1) all = rest.
Proof.
  intros all _. subst all. split.
  - change (skipn 1 ("---" :: lines ++ "---" :: rest)) with (lines ++ "---" :: rest).
    replace (S (List.length lines) - 1) with (List.length lines + 0) by lia.
    rewrite List.firstn_app_2. cbn. apply app_nil_r.
  - replace (S (List.length lines) + 1) with (S (S (List.length lines))) by lia.
    change (skipn (S (S (List.length lines))) ("---" :: lines ++ "---" :: rest))
      with (skipn (S (List.length lines)) (lines ++ ["---"] ++ rest)).
    rewrite app_assoc.
    replace (S (List.length lines)) with (List.length (lines ++ ["---"]))
      by (rewrite List.length_app; simpl; lia).
    rewrite List.skipn_app, List.skipn_all, Nat.sub_diag. reflexivity.
Qed.

(** The parse of a text whose lines are [---], then [lines], then [---]
    and possibly more. *)
Lemma parseMetadata_lines (trimmed : string) (lines rest : list string) :
  trim trimmed = trimmed ->
  split lf trimmed = "---" :: lines ++ "---" :: rest ->
  Forall (fun l => trim l <> "---") lines ->
  parseMetadata trimmed =
    Parsed (parseMetadataLines lines) (trim (join lineBreak rest)).
Proof.
  intros Ht Hs Hl. unfold parseMetadata. rewrite Ht.
  assert (Hstart : startsWith trimmed "---" = true).
  { rewrite <- (join_split lf trimmed), Hs.
    apply startsWith_spec. destruct (lines ++ "---" :: rest) eqn:E.
    - destruct lines; discriminate E.
    - rewrite join_cons by discriminate. eexists. reflexivity. }
  rewrite Hstart. cbn [negb]. cbv zeta. rewrite Hs. cbn [List.tl].
  pose proof (findClosing_lines lines rest 1 Hl) as Hf. cbn [Nat.add] in Hf.
  rewrite Hf.
  destruct (block_lines lines rest Hf) as [H1 H2]. cbv zeta in H1, H2.
  rewrite H1, H2. reflexivity.
Qed.

(** X1: the text made of a delimiter line [---], metadata lines, a
    second delimiter line and a body parses to the bindings of the
    metadata lines and the body without the white space at its ends,
    provided that no metadata line holds a line feed or is itself a
    delimiter once trimmed. *)
Theorem parseMetadata_block (lines : list string) (body : string) :
  Forall (fun l => without lf l = true) lines ->
  Forall (fun l => trim l <> "---") lines ->
  parseMetadata (join lineBreak ("---" :: lines ++ ["---"; body])) =
    Parsed (parseMetadataLines lines) (trim body).
Proof.
  intros Hlf Hdelim.
  set (head := "---" :: lines ++ ["---"]).
  set (P := join lineBreak head).
  assert (Hhead : Forall (fun x => without lf x = true) head).
  { subst head. apply Forall_cons. split; [reflexivity|].
    apply Forall_app. split; [exact Hlf|]. repeat constructor. }
  assert (Hsplit : split lf P = head) by (apply split_join; [discriminate|exact Hhead]).
  assert (EP : exists q, P = "---" +:+ q).
  { subst P head. destruct (lines ++ ["---"]) eqn:E; [destruct lines; discriminate E|].
    rewrite join_cons by discriminate. eexists. reflexivity. }
  assert (HhP : headOk P /\ P <> "").
  { destruct EP as (q & ->). split; [reflexivity|discriminate]. }
  assert (HlP : lastOk P).
  { subst P head. change ("---" :: lines ++ ["---"]) with (("---" :: lines) ++ ["---"]).
    rewrite join_app by discriminate. rewrite <- append_assoc.
    apply lastOk_append; [reflexivity|discriminate]. }
  assert (Econtent : join lineBreak ("---" :: lines ++ ["---"; body])
                     = P +:+ lineBreak +:+ body).
  { change ("---" :: lines ++ ["---"; body]) with ("---" :: lines ++ ["---"] ++ [body]).
    rewrite app_assoc. change ("---" :: (lines ++ ["---"]) ++ [body]) with (head ++ [body]).
    rewrite join_app by discriminate. reflexivity. }
  rewrite Econtent.
  destruct (trim_split body) as (sp1 & sp2 & Ebody & H1 & H2).
  destruct (trim_ends body) as [Hhb Hlb].
  destruct (String.eqb_spec (trim body) "") as [Hempty|Hfull].
  - (* the body is white space only *)
    assert (Etrim : trim (P +:+ lineBreak +:+ body) = P).
    { change (P +:+ lineBreak +:+ body) with ("" +:+ P +:+ (lineBreak +:+ body)).
      apply trim_decomp; [reflexivity| |apply HhP|exact HlP].
      change (lineBreak +:+ body) with (String lf body). cbn [allChars].
      rewrite (trim_empty_spaces body Hempty). reflexivity. }
    assert (Hparse : parseMetadata P = Parsed (parseMetadataLines lines) (trim (join lineBreak []))).
    { apply parseMetadata_lines; [|rewrite Hsplit; reflexivity|exact Hdelim].
      apply trim_id; [apply HhP|exact HlP]. }
    unfold parseMetadata in *. rewrite Etrim.
    rewrite (trim_id P (proj1 HhP) HlP) in Hparse. rewrite Hparse, Hempty. reflexivity.
  - (* the body has a text *)
    set (t := P +:+ lineBreak +:+ sp1 +:+ trim body).
    assert (Et : P +:+ lineBreak +:+ body = "" +:+ t +:+ sp2).
    { subst t. rewrite Ebody at 1. rewrite !append_assoc. reflexivity. }
    assert (Hht : headOk t) by (apply headOk_append; apply HhP).
    assert (Hlt : lastOk t).
    { subst t. rewrite <- !append_assoc. apply lastOk_append; assumption. }
    assert (Etrim : trim (P +:+ lineBreak +:+ body) = t).
    { rewrite Et. apply trim_decomp; [reflexivity|exact H2|exact Hht|exact Hlt]. }
    assert (Hparse : parseMetadata t =
              Parsed (parseMetadataLines lines)
                     (trim (join lineBreak (split lf (sp1 +:+ trim body))))).
    { apply parseMetadata_lines; [apply trim_id; assumption| |exact Hdelim].
      subst t. change (P +:+ lineBreak +:+ sp1 +:+ trim body)
        with (P +:+ String lf (sp1 +:+ trim body)).
      rewrite split_append, Hsplit. subst head.
      change ("---" :: lines ++ ["---"]) with (("---" :: lines) ++ ["---"]).
      rewrite <- app_assoc. reflexivity. }
    unfold parseMetadata in *. rewrite Etrim.
    rewrite (trim_id t Hht Hlt) in Hparse. rewrite Hparse.
    unfold lineBreak. rewrite join_split.
    rewrite <- (append_empty_r (trim body)), trim_decomp by (assumption || reflexivity).
    rewrite append_empty_r. reflexivity.
Qed.

Lemma parseMetadata_block_witness :
  parseMetadata (join lineBreak ("---" :: ["title: Test"; "count: 3"] ++ ["---"; "Body"])) =
  Parsed (parseMetadataLines ["title: Test"; "count: 3"]) (trim "Body").
Proof.
  apply (parseMetadata_block ["title: Test"; "count: 3"] "Body");
    repeat constructor; intros H; vm_compute in H; discriminate H.
Defined.

(** *** Keys and values *)

Lemma find_char_before (s : string) (c : ascii) (i : nat) :
  find s (String c "") = Some i -> without c (take i s) = true.
Proof.
  unfold without. revert i. induction s as [|x s IH]; intros i; rewrite find_unfold.
  - cbn. discriminate.
  - cbn [startsWith]. destruct (ascii_eqb c x) eqn:E; cbn [andb].
    + destruct s; intros [= <-]; reflexivity.
    + destruct (find s (String c "")) as [j|]; [|discriminate].
      intros [= <-]. cbn [take allChars]. rewrite (IH j eq_refl), andb_true_r.
      unfold ascii_eqb in *. rewrite Ascii.eqb_sym, E. reflexivity.
Qed.

Lemma without_trim (c : ascii) (s : string) : without c s = true -> without c (trim s) = true.
Proof.
  unfold without. destruct (trim_split s) as (sp1 & sp2 & E & _). rewrite E at 1.
  rewrite !allChars_append. intros H.
  apply andb_true_iff in H as [_ H]. apply andb_true_iff in H as [H _]. exact H.
Qed.

Lemma without_includes (c : ascii) (s : string) :
  without c s = true -> includes s (String c "") = false.
Proof.
  unfold without, includes. induction s as [|x s IH]; rewrite find_unfold.
  - reflexivity.
  - cbn [startsWith allChars]. intros H. apply andb_true_iff in H as [Hx Hs].
    apply negb_true_iff in Hx. unfold ascii_eqb in *. rewrite Ascii.eqb_sym, Hx.
    cbn [andb]. specialize (IH Hs). destruct (find s (String c "")); [discriminate IH|].
    reflexivity.
Qed.

Lemma trim_nonempty (s : string) : headOk s -> s <> "" -> trim s <> "".
Proof.
  intros Hh Hne E. apply trim_empty_spaces in E.
  destruct s as [|c s]; [congruence|]. cbn in Hh, E. rewrite Hh in E. discriminate E.
Qed.

(** A key that the parser binds: not empty, without white space at its
    ends and without colon. *)
Definition parsedKey (k : string) : Prop :=
  k <> "" /\ trim k = k /\ includes k ":" = false.

(** A value that the parser binds: the empty string, or the coercion of a
    text that is not empty and has no white space at its ends. *)
Definition parsedValue (v : jsvalue) : Prop :=
  v = VString "" \/ exists t, t <> "" /\ trim t = t /\ v = parseValue t.

(** The assignment that a metadata line makes, if it makes one: the key
    before its first colon and the value after it. *)
Definition assignment (rawLine : string) : option (string * jsvalue) :=
  let line := trim rawLine in
  if String.eqb line "" then None
  else
    let colonIndex := indexOf line ":" in
    if (0 <? colonIndex)%Z then
      let key := trim (substring line 0 (Z.to_nat colonIndex)) in
      let valueAfterColon := trim (substringFrom line (Z.to_nat colonIndex + 1)) in
      Some (key, if String.eqb valueAfterColon "" then VString ""
                 else parseValue valueAfterColon)
    else None.

Lemma parseMetadataLine_assignment (metadata : MetadataObject) (rawLine : string) :
  parseMetadataLine metadata rawLine =
  match assignment rawLine with
  | Some (key, v) => setProperty metadata key v
  | None => metadata
  end.
Proof.
  unfold parseMetadataLine, assignment. cbv zeta.
  destruct (String.eqb (trim rawLine) ""); [reflexivity|].
  destruct (0 <? indexOf (trim rawLine) ":")%Z; [|reflexivity].
  destruct (String.eqb _ ""); reflexivity.
Qed.

Lemma assignment_inv (rawLine key : string) (v : jsvalue) :
  assignment rawLine = Some (key, v) -> parsedKey key /\ parsedValue v.
Proof.
  unfold assignment. set (line := trim rawLine).
  destruct (String.eqb_spec line "") as [_|Hline]; [discriminate|].
  unfold indexOf. destruct (find line ":") as [i|] eqn:Hfind; [|discriminate].
  destruct (Z.ltb_spec 0 (Z.of_nat i)) as [Hi|_]; [|discriminate].
  rewrite Nat2Z.id. unfold substring, substringFrom. cbn [drop].
  rewrite Nat.sub_0_r. cbv zeta. intros [= <- <-].
  split; [split; [|split]|].
  - apply trim_nonempty.
    + destruct (trim_ends rawLine) as [Hh _]. fold line in Hh.
      destruct line as [|c l]; [congruence|]. destruct i; [lia|]. exact Hh.
    + destruct line as [|c l]; [congruence|]. destruct i; [lia|]. discriminate.
  - apply trim_idempotent.
  - apply without_includes, without_trim, find_char_before, Hfind.
  - destruct (String.eqb_spec (trim (drop (i + 1) line)) "") as [_|Hvalue];
      [left; reflexivity|].
    right. eexists. split; [exact Hvalue|]. split; [apply trim_idempotent|reflexivity].
Qed.

(** What holds of the object while the lines of [all] are read: its keys
    and values are those of assignments; it has no own [__proto__] while
    it inherits the accessor; and it no longer inherits it only after a
    line that assigns [null] to [__proto__]. *)
Definition wellBuilt (all : list string) (metadata : MetadataObject) : Prop :=
  (forall k v, ownProperties metadata !! k = Some v -> parsedKey k /\ parsedValue v) /\
  (inheritsProto metadata = true -> ownProperties metadata !! "__proto__" = None) /\
  (inheritsProto metadata = false ->
   exists line, In line all /\ assignment line = Some ("__proto__", VNull)).

Lemma parseMetadataLine_wellBuilt (all : list string) (metadata : MetadataObject)
    (rawLine : string) :
  In rawLine all -> wellBuilt all metadata ->
  wellBuilt all (parseMetadataLine metadata rawLine).
Proof.
  intros Hin Hm. pose proof Hm as (Hown & Hproto & Hnull).
  rewrite parseMetadataLine_assignment.
  destruct (assignment rawLine) as [[key w]|] eqn:E; [|exact Hm].
  destruct (assignment_inv rawLine key w E) as [Hkey Hw].
  unfold setProperty.
  destruct (String.eqb_spec key "__proto__") as [->|Hne]; cbn [andb].
  - destruct (inheritsProto metadata) eqn:Hi.
    + destruct w; try exact Hm.
      split; [exact Hown|]. split; [discriminate|].
      intros _. exists rawLine. auto.
    + split; [|split; [discriminate|intros _; apply Hnull; reflexivity]].
      cbn [ownProperties]. intros k v.
      destruct (decide ("__proto__" = k)) as [<-|Hk].
      * rewrite lookup_insert_eq. intros [= <-]. auto.
      * rewrite lookup_insert_ne by exact Hk. apply Hown.
  - split; [|split]; cbn [ownProperties inheritsProto].
    + intros k v. destruct (decide (key = k)) as [<-|Hk].
      * rewrite lookup_insert_eq. intros [= <-]. auto.
      * rewrite lookup_insert_ne by exact Hk. apply Hown.
    + intros Hi. rewrite lookup_insert_ne by exact Hne. apply Hproto, Hi.
    + exact Hnull.
Qed.

Lemma parseMetadataLines_wellBuilt (all lines : list string) (metadata : MetadataObject) :
  incl lines all -> wellBuilt all metadata ->
  wellBuilt all (fold_left parseMetadataLine lines metadata).
Proof.
  revert metadata. induction lines as [|l lines IH]; intros metadata Hincl Hm; [exact Hm|].
  cbn [fold_left]. apply IH.
  - intros x Hx. apply Hincl. right. exact Hx.
  - apply parseMetadataLine_wellBuilt; [apply Hincl; left; reflexivity|exact Hm].
Qed.

Lemma parseMetadataLines_bindings (all lines : list string) (k : string) (v : jsvalue) :
  incl lines all ->
  parseMetadataLines lines !! k = Some v ->
  parsedKey k /\ parsedValue v /\
  (k = "__proto__" ->
   exists line, In line all /\ assignment line = Some ("__proto__", VNull)).
Proof.
  intros Hincl. unfold parseMetadataLines.
  destruct (parseMetadataLines_wellBuilt all lines (MkMetadataObject ∅ true) Hincl)
    as (Hown & Hproto & Hnull).
  { split; [|split]; cbn [ownProperties inheritsProto].
    - intros k' v'. rewrite lookup_empty. discriminate.
    - intros _. apply lookup_empty.
    - discriminate. }
  intros Hk. destruct (Hown k v Hk) as [H1 H2]. split; [exact H1|]. split; [exact H2|].
  intros ->. apply Hnull.
  destruct (inheritsProto _); [|reflexivity].
  rewrite Hproto in Hk by reflexivity. discriminate Hk.
Qed.

Lemma In_skipn {A} (n : nat) (l : list A) (x : A) : In x (skipn n l) -> In x l.
Proof.
  revert l. induction n as [|n IH]; intros [|y l] H; cbn [skipn] in H; auto.
  right. apply IH, H.
Qed.

(** X2: every key that [parseMetadata] binds is not empty, has no white
    space at its ends and no colon; the value it is bound to is the empty
    string or the coercion of a text that is not empty and has no white
    space at its ends; and the key [__proto__] is bound only when a line
    of the text assigns [null] to [__proto__] (which takes the inherited
    accessor of that name away from the object). *)
Theorem parseMetadata_bindings (content k : string) (v : jsvalue) :
  p_metadata (parseMetadata content) !! k = Some v ->
  (k <> "" /\ trim k = k /\ includes k ":" = false) /\
  (v = VString "" \/ exists t, t <> "" /\ trim t = t /\ v = parseValue t) /\
  (k = "__proto__" ->
   exists line, In line (split lf (trim content)) /\
                assignment line = Some ("__proto__", VNull)).
Proof.
  unfold parseMetadata.
  destruct (startsWith (trim content) "---"); cbn [negb p_metadata];
    [|rewrite lookup_empty; discriminate].
  cbv zeta. destruct (findClosing _ 1) as [i|]; cbn [p_metadata];
    [|rewrite lookup_empty; discriminate].
  apply parseMetadataLines_bindings.
  intros line Hin. apply LinkResolverSpec.In_firstn in Hin.
  eapply In_skipn, Hin.
Qed.

(** A block that takes the accessor away and then binds [__proto__]. *)
Definition protoBlock : string :=
  join lineBreak ["---"; "__proto__: null"; "__proto__: 1"; "---"; "Body"].

Lemma parseMetadata_bindings_witness :
  ("__proto__" <> "" /\ trim "__proto__" = "__proto__" /\
   includes "__proto__" ":" = false) /\
  (VNumber (inject_Z 1) = VString "" \/
   exists t, t <> "" /\ trim t = t /\ VNumber (inject_Z 1) = parseValue t) /\
  ("__proto__" = "__proto__" ->
   exists line, In line (split lf (trim protoBlock)) /\
                assignment line = Some ("__proto__", VNull)).
Proof.
  apply (parseMetadata_bindings protoBlock "__proto__" (VNumber (inject_Z 1))).
  vm_compute. reflexivity.
Defined.

(** After [null] has become the prototype, a line binds [__proto__]. *)
Example parseMetadataLines_proto :
  parseMetadataLines ["__proto__: 1"; "title: a"] = {["title" := VString "a"]} /\
  parseMetadataLines ["__proto__: null"; "__proto__: 1"] =
    {["__proto__" := VNumber (inject_Z 1)]}.
Proof. split; vm_compute; reflexivity. Qed.

(** *** The number patterns *)

(** X3: the pattern of integers accepts exactly the texts made of an
    optional minus sign and one digit or more; the pattern of decimals
    accepts exactly the texts made of an optional minus sign, digits, an
    optional point and one digit or more; so every text that the first
    accepts is accepted by the second, which [parseValue] tries later. *)
Theorem number_patterns_language (v : string) :
  (test INT_PATTERN v = true <-> integerLiteral v) /\
  (test FLOAT_PATTERN v = true <-> decimalLiteral v) /\
  (test INT_PATTERN v = true -> test FLOAT_PATTERN v = true).
Proof.
  split; [apply INT_PATTERN_spec|]. split; [apply FLOAT_PATTERN_spec|].
  intros H. apply FLOAT_PATTERN_spec, integer_is_decimal, INT_PATTERN_spec, H.
Qed.

(** *** Arrays *)

Lemma split_pieces_without (sep : ascii) (s : string) :
  Forall (fun x => without sep x = true) (split sep s).
Proof.
  induction s as [|c s IH]; [repeat constructor|]. rewrite split_cons.
  destruct (ascii_eqb c sep) eqn:E.
  - constructor; [reflexivity|exact IH].
  - destruct (split sep s) as [|h t]; cbn [prefixFirst].
    + constructor; [|constructor]. unfold without. cbn. rewrite E. reflexivity.
    + apply Forall_cons in IH as [Hh Ht]. constructor; [|exact Ht].
      unfold without in *. rewrite append_cons. cbn [allChars].
      change ("" +:+ h) with h. rewrite E, Hh. reflexivity.
Qed.

Lemma split_pieces_allChars (p : ascii -> bool) (sep : ascii) (s : string) :
  allChars p s = true -> Forall (fun x => allChars p x = true) (split sep s).
Proof.
  induction s as [|c s IH]; [repeat constructor|]. cbn [allChars]. intros H.
  apply andb_true_iff in H as [Hc Hs]. specialize (IH Hs). rewrite split_cons.
  destruct (ascii_eqb c sep).
  - constructor; [reflexivity|exact IH].
  - destruct (split sep s) as [|h t]; cbn [prefixFirst].
    + constructor; [|constructor]. cbn. rewrite Hc. reflexivity.
    + apply Forall_cons in IH as [Hh Ht]. constructor; [|exact Ht].
      rewrite append_cons. cbn [allChars]. change ("" +:+ h) with h.
      rewrite Hc, Hh. reflexivity.
Qed.

Lemma split_two (sep : ascii) (s : string) :
  includes s (String sep "") = true -> 2 <= List.length (split sep s).
Proof.
  unfold includes. induction s as [|c s IH]; rewrite find_unfold; [cbn; discriminate|].
  rewrite split_cons. cbn [startsWith]. unfold ascii_eqb in *.
  rewrite (Ascii.eqb_sym sep c). destruct (Ascii.eqb c sep); cbn [andb].
  - intros _. pose proof (split_nonempty sep s).
    destruct (split sep s); [congruence|]. cbn. lia.
  - intros H. destruct (find s (String sep "")); [|discriminate H].
    specialize (IH eq_refl). destruct (split sep s); cbn in *; lia.
Qed.

Lemma anyChar_allChars (p : ascii -> bool) (s : string) :
  anyChar p s = false -> allChars (fun c => negb (p c)) s = true.
Proof.
  induction s as [|c s IH]; [reflexivity|]. cbn. intros H.
  apply orb_false_iff in H as [Hc Hs]. rewrite Hc, (IH Hs). reflexivity.
Qed.

Lemma trim_no_space (s : string) :
  allChars (fun c => negb (is_space c)) s = true -> trim s = s.
Proof.
  intros H. apply trim_id.
  - destruct s as [|c s]; [exact I|]. cbn in *.
    apply andb_true_iff in H as [Hc _]. apply negb_true_iff, Hc.
  - unfold lastOk. rewrite <- allChars_rev in H.
    destruct (rev s) as [|c r]; [exact I|]. cbn in *.
    apply andb_true_iff in H as [Hc _]. apply negb_true_iff, Hc.
Qed.

Lemma parseValue_array_inv (value : string) (items : list string) :
  parseValue value = VArray items ->
  includes value "," = true /\ items = map trim (split "," value).
Proof.
  unfold parseValue.
  repeat match goal with
  | |- context [if ?b then _ else _] => destruct b eqn:?; try discriminate
  | |- context [match parseInt ?v with _ => _ end] => destruct (parseInt v); try discriminate
  | |- context [number_or_string ?v ?o] => destruct o; cbn [number_or_string]; try discriminate
  end.
  intros [= <-]. split; [|reflexivity].
  match goal with H : _ && _ = true |- _ => apply andb_true_iff in H as [H _]; exact H end.
Qed.

(** X4: when a value is coerced to an array, the array has two items or
    more, no item holds a comma, and, if the value has no white space at
    all, joining the items with commas gives the value back. *)
Theorem parseValue_array (value : string) (items : list string) :
  parseValue value = VArray items ->
  2 <= List.length items /\
  Forall (fun item => includes item "," = false) items /\
  (anyChar is_space value = false -> join "," items = value).
Proof.
  intros H. apply parseValue_array_inv in H as [Hc ->]. split; [|split].
  - rewrite List.length_map. apply split_two, Hc.
  - apply Forall_map. eapply Forall_impl; [apply (split_pieces_without "," value)|].
    intros x Hx. cbn. apply without_includes, without_trim, Hx.
  - intros Hs. apply anyChar_allChars in Hs.
    assert (E : map trim (split "," value) = split "," value).
    { pose proof (split_pieces_allChars _ "," value Hs) as Hall.
      induction Hall as [|x l Hx _ IH]; [reflexivity|].
      cbn [map]. rewrite (trim_no_space x Hx), IH. reflexivity. }
    rewrite E. apply join_split.
Qed.

Lemma parseValue_array_witness :
  2 <= List.length ["react"; "vue"; "angular"] /\
  Forall (fun item => includes item "," = false) ["react"; "vue"; "angular"] /\
  (anyChar is_space "react,vue,angular" = false ->
   join "," ["react"; "vue"; "angular"] = "react,vue,angular").
Proof.
  apply (parseValue_array "react,vue,angular" ["react"; "vue"; "angular"]).
  vm_compute. reflexivity.
Defined.

(** *** Normalization *)

(** X5: [parseWithNormalization] keeps the content of [parseMetadata];
    its metadata binds no key to [null]; [globs] is bound to the empty
    array when it was absent, to an array of its text (empty for a blank
    text) when it was a string, and is left out when it was [null];
    [alwaysApply] is bound to [false] when it was absent, to the
    comparison of its text with [true] in any case when it was a string,
    and is left out when it was [null]; every other key keeps its value,
    unless it was [null]. *)
Theorem parseWithNormalization_shape (content : string) :
  let raw := p_metadata (parseMetadata content) in
  let out := p_metadata (parseWithNormalization content) in
  p_content (parseWithNormalization content) = p_content (parseMetadata content) /\
  (forall k v, out !! k = Some v -> v <> VNull) /\
  out !! "globs" =
    match raw !! "globs" with
    | None => Some (VArray [])
    | Some (VString s) => Some (VArray (if String.eqb (trim s) "" then [] else [s]))
    | Some VNull => None
    | Some v => Some v
    end /\
  out !! "alwaysApply" =
    match raw !! "alwaysApply" with
    | None => Some (VBool false)
    | Some (VString s) => Some (VBool (String.eqb (toLowerCase s) "true"))
    | Some VNull => None
    | Some v => Some v
    end /\
  (forall k, k <> "globs" -> k <> "alwaysApply" ->
     out !! k = match raw !! k with Some VNull => None | o => o end).
Proof.
  intros raw out. subst out. unfold parseWithNormalization. cbn [p_metadata p_content].
  fold raw. split; [reflexivity|]. split; [|split; [|split]].
  - intros k v H ->. apply normalizeMetadata_no_null in H. discriminate H.
  - unfold normalizeMetadata. rewrite removeNulls_lookup.
    rewrite normalizeAlwaysApply_other by discriminate. unfold normalizeGlobs.
    destruct (raw !! "globs") as [[s| | | |]|] eqn:E; rewrite ?E, ?lookup_insert_eq;
      try reflexivity.
    destruct (String.eqb (trim s) ""); rewrite lookup_insert_eq; reflexivity.
  - unfold normalizeMetadata. rewrite removeNulls_lookup. unfold normalizeAlwaysApply.
    rewrite (normalizeGlobs_other raw "alwaysApply") by discriminate.
    destruct (raw !! "alwaysApply") as [[s| | | |]|] eqn:E;
      rewrite ?lookup_insert_eq, ?normalizeGlobs_other, ?E by discriminate; reflexivity.
  - intros k Hg Ha. unfold normalizeMetadata.
    rewrite removeNulls_lookup, normalizeAlwaysApply_other, normalizeGlobs_other by assumption.
    destruct (raw !! k) as [[]|]; reflexivity.
Qed.

(** *** Texts without a block *)

Lemma findClosing_none (lines : list string) (i : nat) :
  Forall (fun l => trim l <> "---") lines -> findClosing lines i = None.
Proof.
  intros H. revert i. induction H as [|l lines Hl _ IH]; intros i; [reflexivity|].
  cbn [findClosing]. destruct (String.eqb_spec (trim l) "---"); [contradiction|].
  apply IH.
Qed.

(** X6: the content that [parseMetadata] returns has no white space at
    its ends.  When the text, trimmed, does not begin with [---], or when
    none of its lines after the first is [---] once trimmed, the metadata
    is empty and the content is the whole text, trimmed: an unclosed
    block is content. *)
Theorem parseMetadata_content (content : string) :
  trim (p_content (parseMetadata content)) = p_content (parseMetadata content) /\
  (startsWith (trim content) "---" = false ->
     parseMetadata content = Parsed ∅ (trim content)) /\
  (Forall (fun l => trim l <> "---") (List.tl (split lf (trim content))) ->
     parseMetadata content = Parsed ∅ (trim content)).
Proof.
  unfold parseMetadata. split; [|split].
  - destruct (startsWith (trim content) "---"); cbn [negb p_content];
      [|apply trim_idempotent].
    cbv zeta. destruct (findClosing _ 1); cbn [p_content]; apply trim_idempotent.
  - intros ->. reflexivity.
  - intros H. destruct (startsWith (trim content) "---"); [|reflexivity].
    cbn [negb]. cbv zeta. rewrite (findClosing_none _ 1 H). reflexivity.
Qed.

End MetadataParserProps.

(** ** The matcher finds words of the language of its pattern *)
Module RegexSound.
Import JsString Regex StringFacts RegexFacts.

(** *** Pieces of a text *)

Lemma take_all (s : string) : take (String.length s) s = s.
Proof. rewrite <- (append_empty_r s) at 2. apply take_append. Qed.

Lemma take_append_le (n : nat) (a b : string) :
  n <= String.length a -> take n (a +:+ b) = take n a.
Proof.
  revert a. induction n as [|n IH]; intros a H; [reflexivity|].
  destruct a as [|c a]; [simpl in H; lia|].
  rewrite append_cons. cbn [take]. rewrite IH by (simpl in H; lia). reflexivity.
Qed.

Lemma drop_append_le (n : nat) (a b : string) :
  n <= String.length a -> drop n (a +:+ b) = drop n a +:+ b.
Proof.
  revert a. induction n as [|n IH]; intros a H; [reflexivity|].
  destruct a as [|c a]; [simpl in H; lia|].
  rewrite append_cons. cbn [drop]. apply IH. simpl in H. lia.
Qed.

Lemma drop_append_ge (n : nat) (a b : string) :
  drop (String.length a + n) (a +:+ b) = drop n b.
Proof. induction a as [|c a IH]; [reflexivity|]. rewrite append_cons. exact IH. Qed.

Lemma length_drop (n : nat) (s : string) :
  String.length (drop n s) = String.length s - n.
Proof.
  revert s. induction n as [|n IH]; intros s; [cbn; lia|].
  destruct s as [|c s]; [reflexivity|]. cbn [drop String.length]. apply IH.
Qed.

Lemma substring_append_l (a b : string) (i j : nat) :
  i <= j -> j <= String.length a -> substring (a +:+ b) i j = substring a i j.
Proof.
  intros Hij Hj. unfold substring. rewrite drop_append_le by lia.
  apply take_append_le. rewrite length_drop. lia.
Qed.

Lemma substring_append_r (a b : string) (i j : nat) :
  substring (a +:+ b) (String.length a + i) (String.length a + j) = substring b i j.
Proof.
  unfold substring. rewrite drop_append_ge. f_equal. lia.
Qed.

Lemma substring_all (s : string) : substring s 0 (String.length s) = s.
Proof. unfold substring. rewrite Nat.sub_0_r. apply take_all. Qed.

Lemma drop_drop (n m : nat) (s : string) : drop n (drop m s) = drop (m + n) s.
Proof.
  revert s. induction m as [|m IH]; intros s; [reflexivity|].
  destruct s as [|c s]; [destruct n; reflexivity|]. cbn [drop Nat.add]. apply IH.
Qed.

Lemma drop_step (n : nat) (s : string) (c : ascii) (tl : string) :
  drop n s = String c tl -> drop (S n) s = tl /\ n < String.length s.
Proof.
  intros H. split.
  - replace (S n) with (n + 1) by lia. rewrite <- drop_drop, H. reflexivity.
  - assert (L : String.length (drop n s) = S (String.length tl)) by (rewrite H; reflexivity).
    rewrite length_drop in L. lia.
Qed.

Lemma take_drop (n : nat) (s : string) : take n s +:+ drop n s = s.
Proof.
  revert s. induction n as [|n IH]; intros s; [reflexivity|].
  destruct s as [|c s]; [reflexivity|]. cbn [take drop]. rewrite append_cons, IH.
  reflexivity.
Qed.

Lemma length_take (n : nat) (s : string) :
  n <= String.length s -> String.length (take n s) = n.
Proof.
  revert s. induction n as [|n IH]; intros s H; [reflexivity|].
  destruct s as [|c s]; [simpl in H; lia|]. cbn [take String.length].
  rewrite IH by (simpl in H; lia). reflexivity.
Qed.

(** *** The language of a pattern, with the texts of its groups *)

(** [Den r w cs]: the pattern [r] can consume the word [w], capturing the
    texts [cs] (the latest first).  Assertions consume nothing and are
    not looked at. *)
Inductive Den : regex -> string -> list (nat * string) -> Prop :=
| Den_Eps : Den Eps "" []
| Den_Chr p c : p c = true -> Den (Chr p) (String c "") []
| Den_Cat r1 r2 u v c1 c2 :
    Den r1 u c1 -> Den r2 v c2 -> Den (Cat r1 r2) (u +:+ v) (c2 ++ c1)
| Den_Alt_l r1 r2 w c : Den r1 w c -> Den (Alt r1 r2) w c
| Den_Alt_r r1 r2 w c : Den r2 w c -> Den (Alt r1 r2) w c
| Den_Star_nil g r : Den (Star g r) "" []
| Den_Star_cons g r u v c1 c2 :
    Den r u c1 -> Den (Star g r) v c2 -> Den (Star g r) (u +:+ v) (c2 ++ c1)
| Den_Group n r w c : Den r w c -> Den (Group n r) w ((n, w) :: c)
| Den_LineStart : Den LineStart "" []
| Den_LineEnd : Den LineEnd "" []
| Den_InputStart : Den InputStart "" []
| Den_InputEnd : Den InputEnd "" [].

(** The text of a capture [(group, (from, to))], read in the word [w]
    that starts at index [base]. *)
Definition textOf (base : nat) (w : string) (c : nat * (nat * nat)) : nat * string :=
  (c.1, substring w (c.2.1 - base) (c.2.2 - base)).

Definition within (base : nat) (w : string) (c : nat * (nat * nat)) : Prop :=
  base <= c.2.1 /\ c.2.1 <= c.2.2 /\ c.2.2 <= base + String.length w.

(** The matcher went from [st] to [st'] along a word of [r]. *)
Definition Step (r : regex) (st st' : mstate) : Prop :=
  exists w cs added,
    rest st = w +:+ rest st' /\ pos st' = pos st + String.length w /\
    Den r w cs /\ caps st' = added ++ caps st /\
    Forall (within (pos st) w) added /\ map (textOf (pos st) w) added = cs.

Lemma Step_here (r : regex) (st : mstate) : Den r "" [] -> Step r st st.
Proof.
  intros H. exists "", [], []. repeat split; try reflexivity; try exact H.
  - cbn. lia.
  - constructor.
Qed.

Lemma textOf_append_l (base : nat) (u v : string) (c : nat * (nat * nat)) :
  within base u c -> textOf base (u +:+ v) c = textOf base u c.
Proof.
  intros (H1 & H2 & H3). unfold textOf. f_equal. apply substring_append_l; lia.
Qed.

Lemma textOf_append_r (base : nat) (u v : string) (c : nat * (nat * nat)) :
  within (base + String.length u) v c ->
  textOf base (u +:+ v) c = textOf (base + String.length u) v c.
Proof.
  intros (H1 & H2 & H3). unfold textOf. f_equal.
  replace (c.2.1 - base) with (String.length u + (c.2.1 - (base + String.length u))) by lia.
  replace (c.2.2 - base) with (String.length u + (c.2.2 - (base + String.length u))) by lia.
  apply substring_append_r.
Qed.

(** Two steps in a row, for a pattern [r] that holds the words of [r1]
    followed by the words of [r2]. *)
Lemma Step_seq (r1 r2 r : regex) (st st1 st2 : mstate) :
  (forall u v c1 c2, Den r1 u c1 -> Den r2 v c2 -> Den r (u +:+ v) (c2 ++ c1)) ->
  Step r1 st st1 -> Step r2 st1 st2 -> Step r st st2.
Proof.
  intros Hr (u & c1 & a1 & E1 & P1 & D1 & C1 & W1 & T1)
            (v & c2 & a2 & E2 & P2 & D2 & C2 & W2 & T2).
  exists (u +:+ v), (c2 ++ c1), (a2 ++ a1).
  split; [rewrite E1, E2, append_assoc; reflexivity|].
  split; [rewrite P2, P1, length_append; lia|].
  split; [apply Hr; assumption|].
  split; [rewrite C2, C1, app_assoc; reflexivity|].
  rewrite P1 in W2, T2.
  split.
  - apply Forall_app. split.
    + eapply Forall_impl; [exact W2|]. intros c (H1 & H2 & H3). unfold within.
      rewrite length_append. lia.
    + eapply Forall_impl; [exact W1|]. intros c (H1 & H2 & H3). unfold within.
      rewrite length_append. lia.
  - rewrite map_app. f_equal.
    + rewrite <- T2. apply map_ext_Forall.
      eapply Forall_impl; [exact W2|]. intros c Hc. apply textOf_append_r, Hc.
    + rewrite <- T1. apply map_ext_Forall.
      eapply Forall_impl; [exact W1|]. intros c Hc. apply textOf_append_l, Hc.
Qed.

Lemma Step_mono (r r' : regex) (st st' : mstate) :
  (forall w c, Den r w c -> Den r' w c) -> Step r st st' -> Step r' st st'.
Proof.
  intros H (w & cs & added & E & P & D & C & W & T).
  exists w, cs, added. repeat split; auto.
Qed.

Lemma star_loop_sound {A} (g : bool) (r : regex) (k : mstate -> option A) :
  (forall st (k' : mstate -> option A) x,
     rmatch r st k' = Some x -> exists st', Step r st st' /\ k' st' = Some x) ->
  forall fuel st x,
    star_loop (rmatch r) g k fuel st = Some x ->
    exists st', Step (Star g r) st st' /\ k st' = Some x.
Proof.
  intros Hr. induction fuel as [|fuel IH]; intros st x H.
  - exists st. split; [apply Step_here, Den_Star_nil|exact H].
  - rewrite star_loop_unfold in H. cbv zeta in H.
    assert (Hagain : forall y,
      rmatch r st (fun st' =>
        if pos st' =? pos st then None else star_loop (rmatch r) g k fuel st') = Some y ->
      exists st', Step (Star g r) st st' /\ k st' = Some y).
    { intros y Hy. apply Hr in Hy as (st1 & S1 & Hy).
      destruct (pos st1 =? pos st); [discriminate Hy|].
      apply IH in Hy as (st2 & S2 & Hy). exists st2. split; [|exact Hy].
      apply (Step_seq r (Star g r) (Star g r) st st1 st2); [|exact S1|exact S2].
      intros u v c1 c2. apply Den_Star_cons. }
    assert (Hstop : forall y, k st = Some y ->
              exists st', Step (Star g r) st st' /\ k st' = Some y).
    { intros y Hy. exists st. split; [apply Step_here, Den_Star_nil|exact Hy]. }
    destruct g; unfold orElse in H.
    + destruct (rmatch r st _) as [y|] eqn:E; [|apply Hstop, H].
      injection H as <-. apply Hagain. reflexivity.
    + destruct (k st) as [y|] eqn:E; [injection H as <-; apply Hstop; reflexivity|].
      apply Hagain, H.
Qed.

(** Whatever the matcher returns, its continuation returned it, in a
    state reached along a word of the pattern. *)
Theorem rmatch_sound (r : regex) :
  forall (A : Type) (st : mstate) (k : mstate -> option A) (x : A),
    rmatch r st k = Some x -> exists st', Step r st st' /\ k st' = Some x.
Proof.
  induction r as [|p|r1 IH1 r2 IH2|r1 IH1 r2 IH2|g r IH|n r IH| | | |];
    intros A st k x H; cbn [rmatch] in H.
  - exists st. split; [apply Step_here, Den_Eps|exact H].
  - destruct (rest st) as [|c tl] eqn:E; [discriminate H|].
    destruct (p c) eqn:Hp; [|discriminate H].
    exists (advance c tl st). split; [|exact H].
    exists (String c ""), [], []. cbn [rest pos caps advance String.length].
    repeat split; try reflexivity; try assumption; try lia; try constructor.
    exact Hp.
  - apply IH1 in H as (st1 & S1 & H). apply IH2 in H as (st2 & S2 & H).
    exists st2. split; [|exact H].
    apply (Step_seq r1 r2 (Cat r1 r2) st st1 st2); [|exact S1|exact S2].
    intros u v c1 c2. apply Den_Cat.
  - unfold orElse in H. destruct (rmatch r1 st k) as [y|] eqn:E.
    + injection H as <-. apply IH1 in E as (st' & S & E). exists st'.
      split; [|exact E]. apply (Step_mono r1); [|exact S]. intros w c. apply Den_Alt_l.
    + apply IH2 in H as (st' & S & H). exists st'.
      split; [|exact H]. apply (Step_mono r2); [|exact S]. intros w c. apply Den_Alt_r.
  - apply (star_loop_sound g r k (fun st k' x => IH A st k' x)) in H. exact H.
  - apply IH in H as (st1 & (w & cs & added & E & P & D & C & W & T) & H).
    exists (capture n (pos st) st1). split; [|exact H].
    exists w, ((n, w) :: cs), ((n, (pos st, pos st1)) :: added).
    cbn [rest pos caps capture].
    split; [exact E|]. split; [exact P|]. split; [apply Den_Group, D|].
    split; [rewrite C; reflexivity|]. split.
    + constructor; [|exact W]. unfold within. cbn. lia.
    + cbn [map]. rewrite T. f_equal. unfold textOf. cbn [fst snd]. f_equal.
      rewrite P, Nat.sub_diag, Nat.add_comm, Nat.add_sub. apply substring_all.
  - exists st. split; [apply Step_here, Den_LineStart|].
    destruct (prev st) as [c|]; [|exact H].
    destruct (is_line_terminator c); [exact H|discriminate H].
  - exists st. split; [apply Step_here, Den_LineEnd|].
    destruct (rest st) as [|c tl]; [exact H|].
    destruct (is_line_terminator c); [exact H|discriminate H].
  - exists st. split; [apply Step_here, Den_InputStart|].
    destruct (prev st); [discriminate H|exact H].
  - exists st. split; [apply Step_here, Den_InputEnd|].
    destruct (rest st); [exact H|discriminate H].
Qed.

(** *** Searches *)

(** The state of a search at the index [pos st] of [s], before any
    capture. *)
Definition placed (s : string) (st : mstate) : Prop :=
  rest st = drop (pos st) s /\ caps st = [].

Lemma placed_start (s : string) : placed s (start_state s).
Proof. split; reflexivity. Qed.

Lemma placed_next (s : string) (st : mstate) (c : ascii) (tl : string) :
  placed s st -> rest st = String c tl -> placed s (MState (Some c) tl (S (pos st)) []).
Proof.
  intros [Hr _] E. split; [|reflexivity]. cbn [rest pos].
  rewrite Hr in E. symmetry. apply (drop_step _ _ _ _ E).
Qed.

Lemma placed_forget (s : string) (st : mstate) :
  placed s st -> placed s (MState (prev st) (rest st) (pos st) []).
Proof. intros [Hr _]. split; [exact Hr|reflexivity]. Qed.

Lemma placed_skip (s : string) (i : nat) (st : mstate) :
  placed s st -> placed s (skip i st).
Proof.
  revert st. induction i as [|i IH]; intros st H; [apply placed_forget, H|].
  cbn [skip]. destruct (rest st) as [|c tl] eqn:E.
  - rewrite <- E. apply placed_forget, H.
  - apply IH, placed_next; assumption.
Qed.

(** The text of group [n] among the captured texts. *)
Fixpoint lookupText (n : nat) (cs : list (nat * string)) : option string :=
  match cs with
  | [] => None
  | (g, t) :: cs' => if g =? n then Some t else lookupText n cs'
  end.

(** A match of [r] in [s]: a word of [r] that stands in [s] from the
    start of the match to its end, with the texts of the groups. *)
Definition matchOf (r : regex) (s : string) (m : rmatch_result) : Prop :=
  exists w cs,
    Den r w cs /\
    drop (m_start m) s = w +:+ drop (m_end m) s /\
    m_end m = m_start m + String.length w /\
    group s m 0 = Some w /\
    forall n, group s m (S n) = lookupText (S n) cs.

Lemma substring_in_word (s w tail : string) (base a b : nat) :
  drop base s = w +:+ tail -> base <= a -> a <= b -> b <= base + String.length w ->
  substring s a b = substring w (a - base) (b - base).
Proof.
  intros E H1 H2 H3. unfold substring.
  assert (Ea : drop a s = drop (a - base) (drop base s))
    by (rewrite drop_drop; f_equal; lia).
  rewrite Ea, E, drop_append_le by lia.
  replace (b - base - (a - base)) with (b - a) by lia.
  apply take_append_le. rewrite length_drop. lia.
Qed.

Lemma lookup_cap_text (s w tail : string) (base n : nat) (added : list (nat * (nat * nat))) :
  drop base s = w +:+ tail ->
  Forall (within base w) added ->
  match lookup_cap n added with
  | Some (a, b) => Some (substring s a b)
  | None => None
  end = lookupText n (map (textOf base w) added).
Proof.
  intros E H. induction H as [|[g [a b]] added Hc _ IH]; [reflexivity|].
  cbn [lookup_cap map textOf lookupText fst snd]. destruct (g =? n); [|exact IH].
  destruct Hc as (H1 & H2 & H3). cbn [fst snd] in *. f_equal.
  apply (substring_in_word s w tail); assumption.
Qed.

Lemma match_here_sound (r : regex) (s : string) (st : mstate) (m : rmatch_result) :
  placed s st -> match_here r st = Some m -> matchOf r s m.
Proof.
  intros [Hr Hc] H. unfold match_here in H.
  apply rmatch_sound in H as (st' & (w & cs & added & E & P & D & C & W & T) & H).
  injection H as <-. rewrite Hc, app_nil_r in C.
  assert (Ed : drop (pos st) s = w +:+ rest st') by (rewrite <- Hr; exact E).
  assert (Er : rest st' = drop (pos st') s).
  { rewrite P, <- drop_drop, Ed. symmetry. apply drop_append. }
  exists w, cs. cbn [m_start m_end m_caps]. split; [exact D|].
  split; [rewrite <- Er; exact Ed|]. split; [exact P|]. split.
  - cbn [group m_start m_end]. f_equal.
    rewrite (substring_in_word s w (rest st') (pos st)) by (assumption || lia).
    rewrite Nat.sub_diag, P, Nat.add_comm, Nat.add_sub. apply substring_all.
  - intros n. cbn [group m_caps]. rewrite C, <- T.
    rewrite <- (lookup_cap_text s w (rest st') (pos st) (S n) added Ed W).
    destruct (lookup_cap (S n) added) as [[a b]|]; reflexivity.
Qed.

Lemma search_sound (r : regex) (s : string) (fuel : nat) (st : mstate) (m : rmatch_result) :
  placed s st -> search r fuel st = Some m -> matchOf r s m.
Proof.
  revert st. induction fuel as [|fuel IH]; intros st Hp H; rewrite search_unfold in H.
  - destruct (match_here r st) eqn:E; [|discriminate H].
    injection H as <-. apply (match_here_sound r s st); assumption.
  - destruct (match_here r st) eqn:E.
    + injection H as <-. apply (match_here_sound r s st); assumption.
    + destruct (rest st) as [|c tl] eqn:Er; [discriminate H|].
      apply (IH _ (placed_next s st c tl Hp Er) H).
Qed.

Lemma matchAll_from_sound (r : regex) (s : string) (fuel : nat) (st : mstate) :
  placed s st -> Forall (matchOf r s) (matchAll_from r fuel st).
Proof.
  revert st. induction fuel as [|fuel IH]; intros st Hp; [constructor|].
  cbn [matchAll_from].
  destruct (search r (String.length (rest st)) st) as [m|] eqn:E; [|constructor].
  pose proof (search_sound r s _ st m Hp E) as Hm.
  destruct (_ <? _); constructor; try exact Hm; try constructor.
  apply IH, placed_skip, Hp.
Qed.

(** Every match that [matchAll] lists is a match of the pattern in the
    text. *)
Theorem matchAll_sound (r : regex) (s : string) : Forall (matchOf r s) (matchAll r s).
Proof. apply matchAll_from_sound, placed_start. Qed.

Lemma exec_sound (r : regex) (s : string) (m : rmatch_result) :
  exec r s = Some m -> matchOf r s m.
Proof. apply search_sound, placed_start. Qed.

Lemma matchOf_contains (r : regex) (s : string) (m : rmatch_result) :
  matchOf r s m -> exists w cs, Den r w cs /\ contains s w.
Proof.
  intros (w & cs & D & E & _). exists w, cs. split; [exact D|].
  exists (take (m_start m) s), (drop (m_end m) s).
  rewrite <- E. symmetry. apply take_drop.
Qed.

End RegexSound.

(** ** The link resolver: what it recognizes and what it leaves alone *)
Module LinkResolverProps.
Import JsString Regex Types LinkResolver StringFacts RegexFacts RegexSound LinkResolverSpec.

(** *** Words of the patterns *)

Fixpoint groupFree (r : regex) : bool :=
  match r with
  | Group _ _ => false
  | Cat r1 r2 | Alt r1 r2 => groupFree r1 && groupFree r2
  | Star _ r1 => groupFree r1
  | _ => true
  end.

Lemma Den_groupFree (r : regex) (w : string) (cs : list (nat * string)) :
  Den r w cs -> groupFree r = true -> cs = [].
Proof.
  induction 1 as [|p c Hp|r1 r2 u v c1 c2 _ IH1 _ IH2|r1 r2 w c _ IH|r1 r2 w c _ IH
                 |g r|g r u v c1 c2 _ IH1 _ IH2|n r w c _ IH| | | |];
    cbn [groupFree]; intros H; try reflexivity; try discriminate H;
    try (apply andb_true_iff in H as [H1 H2]).
  - rewrite (IH1 H1), (IH2 H2). reflexivity.
  - apply IH, H1.
  - apply IH, H2.
  - rewrite (IH1 H), (IH2 H). reflexivity.
Qed.

Lemma Den_Cat_inv (r1 r2 : regex) (w : string) (cs : list (nat * string)) :
  Den (Cat r1 r2) w cs ->
  exists u v c1 c2, w = u +:+ v /\ cs = c2 ++ c1 /\ Den r1 u c1 /\ Den r2 v c2.
Proof. inversion 1; subst. eauto 10. Qed.

Lemma Den_Cat_free_l (r1 r2 : regex) (w : string) (cs : list (nat * string)) :
  groupFree r1 = true -> Den (Cat r1 r2) w cs ->
  exists u v, w = u +:+ v /\ Den r1 u [] /\ Den r2 v cs.
Proof.
  intros Hf H. apply Den_Cat_inv in H as (u & v & c1 & c2 & -> & -> & D1 & D2).
  pose proof (Den_groupFree _ _ _ D1 Hf) as ->. rewrite app_nil_r. eauto.
Qed.

Lemma Den_Cat_free_r (r1 r2 : regex) (w : string) (cs : list (nat * string)) :
  groupFree r2 = true -> Den (Cat r1 r2) w cs ->
  exists u v, w = u +:+ v /\ Den r1 u cs /\ Den r2 v [].
Proof.
  intros Hf H. apply Den_Cat_inv in H as (u & v & c1 & c2 & -> & -> & D1 & D2).
  pose proof (Den_groupFree _ _ _ D2 Hf) as ->. eauto.
Qed.

Lemma Den_Chr_inv (p : ascii -> bool) (w : string) (cs : list (nat * string)) :
  Den (Chr p) w cs -> exists c, w = String c "" /\ p c = true.
Proof. inversion 1; subst. eauto. Qed.

Lemma Den_lit (s w : string) (cs : list (nat * string)) : Den (lit s) w cs -> w = s.
Proof.
  revert w cs. induction s as [|c s IH]; intros w cs H.
  - inversion H. reflexivity.
  - destruct s as [|c' s].
    + apply Den_Chr_inv in H as (x & -> & Hx). unfold ascii_eqb in Hx.
      apply Ascii.eqb_eq in Hx. subst x. reflexivity.
    + change (lit (String c (String c' s))) with (Cat (lit_char c) (lit (String c' s))) in H.
      apply Den_Cat_inv in H as (u & v & c1 & c2 & -> & _ & D1 & D2).
      apply Den_Chr_inv in D1 as (x & -> & Hx). unfold ascii_eqb in Hx.
      apply Ascii.eqb_eq in Hx. subst x. rewrite (IH _ _ D2). reflexivity.
Qed.

Lemma Den_Star_class (g : bool) (p : ascii -> bool) (w : string) (cs : list (nat * string)) :
  Den (Star g (Chr p)) w cs -> allChars p w = true.
Proof.
  intros H. remember (Star g (Chr p)) as r eqn:E.
  induction H as [| | | | | |g' r' u v c1 c2 H1 _ _ IH2| | | | |]; try discriminate E.
  - reflexivity.
  - injection E as -> ->. apply Den_Chr_inv in H1 as (c & -> & Hc).
    cbn [allChars]. change (String c "" +:+ v) with (String c v). cbn [allChars].
    rewrite Hc. apply IH2. reflexivity.
Qed.

Lemma Den_plus_class (p : ascii -> bool) (w : string) (cs : list (nat * string)) :
  Den (plus (Chr p)) w cs -> w <> "" /\ allChars p w = true.
Proof.
  unfold plus. intros H.
  apply Den_Cat_inv in H as (u & v & c1 & c2 & -> & _ & D1 & D2).
  apply Den_Chr_inv in D1 as (c & -> & Hc). apply Den_Star_class in D2.
  change (String c "" +:+ v) with (String c v). cbn [allChars]. rewrite Hc, D2.
  split; [discriminate|reflexivity].
Qed.

(** A reference of one of the three forms, over the characters [cls]. *)
Definition isReference (cls : ascii -> bool) (link : string) : Prop :=
  exists prefix body,
    link = prefix +:+ body +:+ ".mdc" /\
    (prefix = "./" \/ prefix = ".cursor/rules/" \/ prefix = "mdc:") /\
    body <> "" /\ allChars cls body = true.

Lemma Den_form (prefix : string) (cls : ascii -> bool) (w : string)
    (cs : list (nat * string)) :
  Den (Cat (lit prefix) (Cat (plus (Chr cls)) (lit ".mdc"))) w cs ->
  exists body, w = prefix +:+ body +:+ ".mdc" /\ body <> "" /\ allChars cls body = true.
Proof.
  intros H. apply Den_Cat_inv in H as (u & v & c1 & c2 & -> & _ & D1 & D2).
  apply Den_Cat_inv in D2 as (b & e & c3 & c4 & -> & _ & D3 & D4).
  apply Den_lit in D1, D4. subst u e. apply Den_plus_class in D3 as [Hb Hc].
  exists b. auto.
Qed.

Lemma Den_reference (cls : ascii -> bool) (w : string) (cs : list (nat * string)) :
  Den (reference cls) w cs -> isReference cls w.
Proof.
  unfold reference. intros H. inversion H as [| | |r1 r2 w' c' D|r1 r2 w' c' D| | | | | | |]; subst.
  - apply (Den_form "./") in D as (body & -> & Hb & Hc). exists "./", body. auto.
  - inversion D as [| | |r1 r2 w' c' D'|r1 r2 w' c' D'| | | | | | |]; subst.
    + apply (Den_form ".cursor/rules/") in D' as (body & -> & Hb & Hc).
      exists ".cursor/rules/", body. auto.
    + apply (Den_form "mdc:") in D' as (body & -> & Hb & Hc).
      exists "mdc:", body. auto 6.
Qed.

Lemma isReference_contains (cls : ascii -> bool) (link : string) :
  isReference cls link -> contains link ".mdc" /\ link <> "".
Proof.
  intros (prefix & body & -> & Hp & Hb & _). split.
  - exists (prefix +:+ body), "". rewrite append_assoc. reflexivity.
  - destruct Hp as [->|[->| ->]]; discriminate.
Qed.

(** The words of the pattern of references: an anchor element around a
    reference (the texts of groups 1 and 2), or a bare reference (the
    text of group 3). *)
Lemma Den_MDC_LINK_PATTERN (w : string) (cs : list (nat * string)) :
  Den MDC_LINK_PATTERN w cs ->
  (exists link, cs = [(1, w); (2, link)] /\ isReference notSpaceNorQuote link /\
                contains w link) \/
  (cs = [(3, w)] /\ isReference notSpaceNorBracket w).
Proof.
  unfold MDC_LINK_PATTERN. intros H.
  inversion H as [| | |r1 r2 w' c' D|r1 r2 w' c' D| | | | | | |]; subst.
  - left. inversion D as [| | | | | | |n r w' c D'| | | |]; subst.
    cbn [seq] in D'.
    do 8 (apply Den_Cat_free_l in D' as (?u & ?v & -> & _ & D'); [|reflexivity]).
    apply Den_Cat_free_r in D' as (link & t & -> & D' & _); [|reflexivity].
    inversion D' as [| | | | | | |n r w' c0 D2| | | |]; subst.
    pose proof (Den_groupFree _ _ _ D2 eq_refl) as ->.
    exists link. split; [reflexivity|]. split; [apply (Den_reference _ _ _ D2)|].
    do 8 apply contains_append_l. apply contains_here.
  - right. inversion D as [| | | | | | |n r w' c D'| | | |]; subst.
    pose proof (Den_groupFree _ _ _ D' eq_refl) as ->.
    split; [reflexivity|]. apply (Den_reference _ _ _ D').
Qed.

(** *** The references of a body *)

(** A reference as the resolver recognizes it: one of the three prefixes,
    a text without white space, and the extension. *)
Definition recognized (link : string) : Prop :=
  exists prefix body,
    link = prefix +:+ body +:+ ".mdc" /\
    (prefix = "./" \/ prefix = ".cursor/rules/" \/ prefix = "mdc:") /\
    body <> "" /\ allChars (fun c => negb (is_space c)) body = true.

Lemma allChars_impl (p q : ascii -> bool) (s : string) :
  (forall c, p c = true -> q c = true) -> allChars p s = true -> allChars q s = true.
Proof.
  intros H. induction s as [|c s IH]; [reflexivity|]. cbn [allChars]. intros Hs.
  apply andb_true_iff in Hs as [Hc Hs]. rewrite (H c Hc), (IH Hs). reflexivity.
Qed.

Lemma isReference_recognized (cls : ascii -> bool) (link : string) :
  (forall c, cls c = true -> is_space c = false) ->
  isReference cls link -> recognized link.
Proof.
  intros Hcls (prefix & body & E & Hp & Hb & Hc). exists prefix, body.
  repeat split; try assumption. apply (allChars_impl cls); [|exact Hc].
  intros c H. rewrite (Hcls c H). reflexivity.
Qed.

Lemma notSpaceNorQuote_space (c : ascii) : notSpaceNorQuote c = true -> is_space c = false.
Proof.
  unfold notSpaceNorQuote. intros H. apply negb_true_iff in H.
  apply orb_false_iff in H as [H _]. apply orb_false_iff in H as [H _]. exact H.
Qed.

Lemma notSpaceNorBracket_space (c : ascii) : notSpaceNorBracket c = true -> is_space c = false.
Proof.
  unfold notSpaceNorBracket. intros H. apply negb_true_iff in H.
  apply orb_false_iff in H as [H _]. apply orb_false_iff in H as [H _]. exact H.
Qed.

(** The reference of a match: the destination of the anchor element, or
    the bare reference. *)
Definition linkOf (content : string) (m : rmatch_result) : string :=
  match truthy (group content m 1) with
  | Some _ => default "" (group content m 2)
  | None => default "" (group content m 3)
  end.

Lemma truthy_Some (s : string) : s <> "" -> truthy (Some s) = Some s.
Proof. intros H. cbn. destruct (String.eqb_spec s ""); congruence. Qed.

Lemma contains_nonempty (w x : string) : contains w x -> x <> "" -> w <> "".
Proof.
  intros (a & b & ->) Hx E. destruct a; [|discriminate E].
  destruct x; [congruence|discriminate E].
Qed.

(** One turn of the loop on a match of the pattern adds exactly one
    cross-reference, the resolution of the reference of the match. *)
Lemma resolveMatch_adds_one (config : InternalPluginConfig) (files : DiscoveredFiles)
    (content sourceFilePath : string) (acc : resolution) (m : rmatch_result) :
  matchOf MDC_LINK_PATTERN content m ->
  res_crossReferences (resolveMatch config files content sourceFilePath acc m) =
    res_crossReferences acc ++
    [resolveSingleLink config files (linkOf content m) sourceFilePath] /\
  recognized (linkOf content m) /\ contains content (linkOf content m).
Proof.
  intros Hm. pose proof (matchOf_contains _ _ _ Hm) as (w0 & cs0 & D0 & C0).
  destruct Hm as (w & cs & D & E & P & G0 & G).
  assert (Hcw : contains content w).
  { exists (take (m_start m) content), (drop (m_end m) content).
    rewrite <- E. symmetry. apply take_drop. }
  unfold resolveMatch, linkOf.
  apply Den_MDC_LINK_PATTERN in D as [(link & -> & Hr & Hc)|[-> Hr]].
  - destruct (isReference_contains _ _ Hr) as [_ Hl].
    rewrite !G. cbn [lookupText Nat.eqb].
    rewrite (truthy_Some w (contains_nonempty w link Hc Hl)). cbn [default res_crossReferences].
    split; [reflexivity|]. split.
    + apply (isReference_recognized _ _ notSpaceNorQuote_space Hr).
    + destruct Hc as (a & b & ->). destruct Hcw as (a' & b' & ->).
      exists (a' +:+ a), (b +:+ b'). rewrite !append_assoc. reflexivity.
  - destruct (isReference_contains _ _ Hr) as [_ Hl].
    rewrite !G. cbn [lookupText Nat.eqb].
    rewrite (truthy_Some w Hl). cbn [truthy default res_crossReferences].
    split; [reflexivity|]. split; [|exact Hcw].
    apply (isReference_recognized _ _ notSpaceNorBracket_space Hr).
Qed.

Lemma resolveLinks_from (config : InternalPluginConfig) (files : DiscoveredFiles)
    (content sourceFilePath : string) (ms : list rmatch_result) (acc : resolution) :
  Forall (matchOf MDC_LINK_PATTERN content) ms ->
  res_crossReferences
    (fold_left (resolveMatch config files content sourceFilePath) ms acc) =
  res_crossReferences acc ++
  map (fun m => resolveSingleLink config files (linkOf content m) sourceFilePath) ms.
Proof.
  intros H. revert acc. induction H as [|m ms Hm _ IH]; intros acc.
  - cbn. rewrite app_nil_r. reflexivity.
  - cbn [fold_left map]. rewrite IH.
    destruct (resolveMatch_adds_one config files content sourceFilePath acc m Hm) as [-> _].
    rewrite <- app_assoc. reflexivity.
Qed.

Lemma resolveLinks_refs (config : InternalPluginConfig) (files : DiscoveredFiles)
    (content sourceFilePath : string) :
  let refs := res_crossReferences (resolveLinks config files content sourceFilePath) in
  let matches := matchAll MDC_LINK_PATTERN content in
  refs = map (fun m => resolveSingleLink config files (linkOf content m) sourceFilePath)
             matches /\
  Forall (fun ref =>
            recognized (original ref) /\ contains content (original ref) /\
            ref = resolveSingleLink config files (original ref) sourceFilePath) refs.
Proof.
  intros refs matches. subst refs. unfold resolveLinks. fold matches.
  pose proof (matchAll_sound MDC_LINK_PATTERN content) as Hall. fold matches in Hall.
  rewrite (resolveLinks_from _ _ _ _ matches _ Hall). cbn [res_crossReferences app].
  split; [reflexivity|].
  apply Forall_map. eapply Forall_impl; [exact Hall|]. intros m Hm. cbn.
  destruct (resolveMatch_adds_one config files content sourceFilePath
              (MkResolution content []) m Hm) as (_ & Hr & Hc).
  auto.
Qed.

(** X7: [resolveLinks] yields exactly one cross-reference for each match
    of the pattern, in the order of the matches; each is the resolution,
    against the index, of a text that stands in the body and has one of
    the three recognized forms: the prefix [./], [.cursor/rules/] or
    [mdc:], then a text without white space, then the extension [.mdc]. *)
Theorem resolveLinks_references (config : InternalPluginConfig) (files : DiscoveredFiles)
    (content sourceFilePath : string) :
  let refs := res_crossReferences (resolveLinks config files content sourceFilePath) in
  let matches := matchAll MDC_LINK_PATTERN content in
  refs = map (fun m => resolveSingleLink config files (linkOf content m) sourceFilePath)
             matches /\
  List.length refs = List.length matches /\
  Forall (fun ref =>
            recognized (original ref) /\ contains content (original ref) /\
            ref = resolveSingleLink config files (original ref) sourceFilePath) refs.
Proof.
  intros refs matches.
  destruct (resolveLinks_refs config files content sourceFilePath) as [E H].
  fold refs matches in E, H. split; [exact E|]. split; [|exact H].
  rewrite E. apply List.length_map.
Qed.

(** X8: a body in which the text [.mdc] does not occur has no reference:
    [resolveLinks] returns it unchanged, with no cross-reference. *)
Theorem resolveLinks_untouched (config : InternalPluginConfig) (files : DiscoveredFiles)
    (content sourceFilePath : string) :
  includes content ".mdc" = false ->
  resolveLinks config files content sourceFilePath = MkResolution content [].
Proof.
  intros Hno. unfold resolveLinks.
  pose proof (matchAll_sound MDC_LINK_PATTERN content) as Hall.
  destruct (matchAll MDC_LINK_PATTERN content) as [|m ms]; [reflexivity|].
  apply Forall_cons in Hall as [Hm _]. exfalso.
  apply matchOf_contains in Hm as (w & cs & D & (a & b & ->)).
  assert (Hw : contains w ".mdc").
  { apply Den_MDC_LINK_PATTERN in D as [(link & _ & Hr & Hc)|[_ Hr]].
    - destruct (isReference_contains _ _ Hr) as [(x & y & ->) _].
      destruct Hc as (a' & b' & ->). exists (a' +:+ x), (y +:+ b').
      rewrite !append_assoc. reflexivity.
    - apply (isReference_contains _ _ Hr). }
  assert (Hc : contains (a +:+ w +:+ b) ".mdc")
    by apply contains_append_l, contains_append_r, Hw.
  apply includes_spec in Hc. congruence.
Qed.

Lemma resolveLinks_untouched_witness :
  resolveLinks testConfig testFiles "<p>No references here.</p>" "main.mdc" =
  MkResolution "<p>No references here.</p>" [].
Proof.
  apply (resolveLinks_untouched testConfig testFiles "<p>No references here.</p>" "main.mdc").
  reflexivity.
Defined.

(** *** References to the documents of the index *)

Lemma startsWith_append (p t : string) : startsWith (p +:+ t) p = true.
Proof. apply startsWith_spec. exists t. reflexivity. Qed.

Lemma targetFilePath_scheme (config : InternalPluginConfig) (p : string) :
  targetFilePath config ("mdc:" +:+ sourceDir config +:+ "/" +:+ p) = p.
Proof.
  unfold targetFilePath.
  change (startsWith ("mdc:" +:+ sourceDir config +:+ "/" +:+ p) "mdc:")
    with (startsWith (sourceDir config +:+ "/" +:+ p) "").
  replace (startsWith (sourceDir config +:+ "/" +:+ p) "") with true
    by (destruct (sourceDir config +:+ "/" +:+ p); reflexivity).
  change (substringFrom ("mdc:" +:+ sourceDir config +:+ "/" +:+ p) 4)
    with (sourceDir config +:+ "/" +:+ p).
  cbv zeta. rewrite <- (append_assoc (sourceDir config) "/" p), startsWith_append.
  unfold substringFrom.
  replace (String.length (sourceDir config) + 1)
    with (String.length (sourceDir config +:+ "/")) by (rewrite length_append; reflexivity).
  apply drop_append.
Qed.

Lemma targetFilePath_marker (config : InternalPluginConfig) (p : string) :
  targetFilePath config (".cursor/rules/" +:+ p) = p.
Proof.
  unfold targetFilePath.
  change (startsWith (".cursor/rules/" +:+ p) "mdc:") with false. cbv iota.
  unfold includes, indexOf. rewrite find_unfold, startsWith_append. reflexivity.
Qed.

Lemma targetFilePath_dot (config : InternalPluginConfig) (p : string) :
  includes ("./" +:+ p) ".cursor/rules/" = false ->
  targetFilePath config ("./" +:+ p) = p.
Proof.
  intros H. unfold targetFilePath.
  change (startsWith ("./" +:+ p) "mdc:") with false. cbv iota. rewrite H.
  rewrite startsWith_append. reflexivity.
Qed.

Lemma resolveSingleLink_to (config : InternalPluginConfig) (rules : list RuleContent)
    (rule : RuleContent) (link sourceFilePath : string) :
  In rule rules -> targetFilePath config link = filePath rule ->
  resolveSingleLink config (setDiscoveredFiles rules) link sourceFilePath =
  MkCrossReference link (ContentLoader.generatePermalink config (filePath rule)) true.
Proof.
  intros Hin Ht. unfold resolveSingleLink, ContentLoader.generatePermalink.
  cbv zeta. rewrite Ht. f_equal. unfold validateTargetExists.
  assert (H : JsMap.has (setDiscoveredFiles rules) (filePath rule) = true).
  { apply has_setDiscoveredFiles. exists rule. auto. }
  rewrite H. reflexivity.
Qed.

(** X9: a reference to a document of the index by its path, in any of
    the three forms -- [mdc:] and the source directory, the marker
    [.cursor/rules/], or [./] (when the marker does not occur in it) --
    is valid and resolves to the permalink that [generatePermalink] gives
    the document. *)
Theorem reference_to_document (config : InternalPluginConfig) (rules : list RuleContent)
    (rule : RuleContent) (sourceFilePath : string) :
  In rule rules ->
  let path := filePath rule in
  let index := setDiscoveredFiles rules in
  let target := ContentLoader.generatePermalink config path in
  resolveSingleLink config index ("mdc:" +:+ sourceDir config +:+ "/" +:+ path) sourceFilePath
    = MkCrossReference ("mdc:" +:+ sourceDir config +:+ "/" +:+ path) target true /\
  resolveSingleLink config index (".cursor/rules/" +:+ path) sourceFilePath
    = MkCrossReference (".cursor/rules/" +:+ path) target true /\
  (includes ("./" +:+ path) ".cursor/rules/" = false ->
   resolveSingleLink config index ("./" +:+ path) sourceFilePath
     = MkCrossReference ("./" +:+ path) target true).
Proof.
  intros Hin path index target. subst path index target.
  split; [|split; [|intros H]]; apply resolveSingleLink_to; try exact Hin.
  - apply targetFilePath_scheme.
  - apply targetFilePath_marker.
  - apply targetFilePath_dot, H.
Qed.

Lemma reference_to_document_witness :
  resolveSingleLink testConfig testFiles
    ("mdc:" +:+ sourceDir testConfig +:+ "/" +:+ filePath (ruleAt "modes/plan.mdc")) "main.mdc"
  = MkCrossReference
      ("mdc:" +:+ sourceDir testConfig +:+ "/" +:+ filePath (ruleAt "modes/plan.mdc"))
      (ContentLoader.generatePermalink testConfig (filePath (ruleAt "modes/plan.mdc"))) true.
Proof.
  refine (proj1 (reference_to_document testConfig
                   [ruleAt "main.mdc"; ruleAt "modes/implement.mdc";
                    ruleAt "modes/plan.mdc"; ruleAt "adr-structure.mdc"]
                   (ruleAt "modes/plan.mdc") "main.mdc" _)).
  right. right. left. reflexivity.
Defined.

(** X10: against the index that [setDiscoveredFiles] builds, a reference
    is valid exactly when the path of some document, as it is or with its
    separators normalized, is the stripped path of the reference, or that
    path without a leading [./], or the latter with its separators
    normalized. *)
Theorem reference_validity (config : InternalPluginConfig) (rules : list RuleContent)
    (link sourceFilePath : string) :
  let stripped := targetFilePath config link in
  let clean := stripPrefix "./" stripped in
  isValid (resolveSingleLink config (setDiscoveredFiles rules) link sourceFilePath) = true <->
  exists rule, In rule rules /\
    let path := filePath rule in
    (path = stripped \/ normalizeSeparators path = stripped) \/
    (path = clean \/ normalizeSeparators path = clean) \/
    (path = normalizeSeparators clean \/
     normalizeSeparators path = normalizeSeparators clean).
Proof.
  intros stripped clean. unfold resolveSingleLink. cbn [isValid].
  unfold validateTargetExists. fold stripped. cbv zeta. fold clean.
  pose proof (has_setDiscoveredFiles rules stripped) as H1.
  pose proof (has_setDiscoveredFiles rules clean) as H2.
  pose proof (has_setDiscoveredFiles rules (normalizeSeparators clean)) as H3.
  split.
  - intros H.
    destruct (JsMap.has (setDiscoveredFiles rules) stripped);
      [destruct (proj1 H1 eq_refl) as (rule & Hin & Hk); exists rule; auto|].
    destruct (JsMap.has (setDiscoveredFiles rules) clean);
      [destruct (proj1 H2 eq_refl) as (rule & Hin & Hk); exists rule; auto|].
    destruct (JsMap.has (setDiscoveredFiles rules) (normalizeSeparators clean));
      [|discriminate H].
    destruct (proj1 H3 eq_refl) as (rule & Hin & Hk); exists rule; auto.
  - intros (rule & Hin & [Hk|[Hk|Hk]]).
    + rewrite (proj2 H1) by (exists rule; auto). reflexivity.
    + rewrite (proj2 H2) by (exists rule; auto).
      destruct (JsMap.has (setDiscoveredFiles rules) stripped); reflexivity.
    + rewrite (proj2 H3) by (exists rule; auto).
      destruct (JsMap.has (setDiscoveredFiles rules) stripped),
               (JsMap.has (setDiscoveredFiles rules) clean); reflexivity.
Qed.

(** *** Warnings and statistics *)

Lemma filter_negb_length {A} (p : A -> bool) (l : list A) :
  List.length (List.filter (fun x => negb (p x)) l) =
  List.length l - List.length (List.filter p l).
Proof.
  induction l as [|x l IH]; [reflexivity|]. cbn [List.filter].
  pose proof (List.filter_length_le p l).
  destruct (p x); cbn [negb List.length]; rewrite IH; lia.
Qed.

Lemma generateWarnings_length (files : DiscoveredFiles)
    (crossReferences : list CrossReference) (sourceFilePath : string) :
  List.length (generateWarnings files crossReferences sourceFilePath) =
  List.length (List.filter (fun ref => negb (isValid ref)) crossReferences).
Proof.
  unfold generateWarnings.
  rewrite (generateWarnings_from files crossReferences sourceFilePath []).
  apply List.length_map.
Qed.

(** X11: [generateWarnings] gives as many warnings as
    [getResolutionStats] counts broken references, and none exactly when
    every reference is valid. *)
Theorem generateWarnings_count (files : DiscoveredFiles)
    (crossReferences : list CrossReference) (sourceFilePath : string) :
  List.length (generateWarnings files crossReferences sourceFilePath) =
    broken (getResolutionStats crossReferences) /\
  (generateWarnings files crossReferences sourceFilePath = [] <->
   forallb isValid crossReferences = true).
Proof.
  split.
  - rewrite generateWarnings_length. unfold getResolutionStats. cbn [broken].
    apply filter_negb_length.
  - unfold generateWarnings.
    rewrite (generateWarnings_from files crossReferences sourceFilePath []). cbn [app].
    induction crossReferences as [|ref refs IH]; [split; reflexivity|].
    cbn [List.filter forallb]. destruct (isValid ref); cbn [negb andb map].
    + exact IH.
    + split; discriminate.
Qed.

End LinkResolverProps.

(** ** The content loader: the two passes and the documents *)
Module ContentLoaderProps.
Import JsString Regex MetadataParser Types ContentLoader StringFacts RegexFacts RegexSound.
Import ContentLoaderSpec.

#[local] Arguments processMarkdown : simpl never.
#[local] Arguments parseWithNormalization : simpl never.
#[local] Arguments extractTitle : simpl never.
#[local] Arguments extractTOC : simpl never.
#[local] Arguments generatePermalink : simpl never.
#[local] Arguments NodePath.join : simpl never.
#[local] Arguments LinkResolver.resolveLinks : simpl never.
#[local] Arguments LinkResolver.generateWarnings : simpl never.
#[local] Arguments LinkResolver.setDiscoveredFiles : simpl never.

(** *** The second pass, document by document *)

(** The resolution of the references of a document against an index. *)
Definition resolutionOf (config : InternalPluginConfig) (index : LinkResolver.DiscoveredFiles)
    (doc : RuleContent) : LinkResolver.resolution :=
  LinkResolver.resolveLinks config index (content doc) (filePath doc).

Definition rewritten (config : InternalPluginConfig) (index : LinkResolver.DiscoveredFiles)
    (doc : RuleContent) : RuleContent :=
  withContent doc (LinkResolver.res_content (resolutionOf config index doc)).

Definition referencesOf (config : InternalPluginConfig) (index : LinkResolver.DiscoveredFiles)
    (doc : RuleContent) : list CrossReference :=
  LinkResolver.res_crossReferences (resolutionOf config index doc).

Definition warningsOf (config : InternalPluginConfig) (index : LinkResolver.DiscoveredFiles)
    (doc : RuleContent) : list string :=
  LinkResolver.generateWarnings index (referencesOf config index doc) (filePath doc).

Lemma secondPass_fold (config : InternalPluginConfig) (index : LinkResolver.DiscoveredFiles)
    (docs : list RuleContent) (acc : list RuleContent * list CrossReference * list string) :
  fold_left (resolveOne config index) docs acc =
  (acc.1.1 ++ map (rewritten config index) docs,
   acc.1.2 ++ flat_map (referencesOf config index) docs,
   acc.2 ++ flat_map (warningsOf config index) docs).
Proof.
  revert acc. induction docs as [|doc docs IH]; intros [[done refs] warnings].
  - cbn. rewrite !app_nil_r. reflexivity.
  - cbn [fold_left]. rewrite IH. cbn [resolveOne fst snd map flat_map].
    rewrite <- !app_assoc. reflexivity.
Qed.

Lemma secondPass_eq (config : InternalPluginConfig) (docs : list RuleContent) :
  let index := LinkResolver.setDiscoveredFiles docs in
  secondPass config docs =
  (map (rewritten config index) docs, flat_map (referencesOf config index) docs,
   flat_map (warningsOf config index) docs).
Proof. intros index. unfold secondPass. fold index. apply secondPass_fold. Qed.

Lemma discoverMdcFiles_returns (host : Host) (sourceDir : string) :
  exists mdcFiles, discoverMdcFiles host sourceDir = Returned mdcFiles /\
    (forall e, glob host (normalizeSeparators (NodePath.join [sourceDir; "**/*.mdc"]))
               = Thrown e -> mdcFiles = []).
Proof.
  unfold discoverMdcFiles. destruct (glob host _) as [l|e]; cbn [tryCatch].
  - exists l. split; [reflexivity|]. intros e H. discriminate H.
  - exists []. split; [reflexivity|]. reflexivity.
Qed.

(** The result of [loadContent] when the source directory exists. *)
Lemma loadContent_eq (host : Host) (config : InternalPluginConfig) (projectRoot : string)
    (mdcFiles : list string) :
  let sourceDir := resolve host projectRoot (Types.sourceDir config) in
  existsSync host sourceDir = true ->
  discoverMdcFiles host sourceDir = Returned mdcFiles ->
  let docs := transformed host config sourceDir mdcFiles in
  let index := LinkResolver.setDiscoveredFiles docs in
  loadContent host config projectRoot =
  MkProcessingResult (map (rewritten config index) docs)
    (flat_map (referencesOf config index) docs)
    (flat_map (warningsOf config index) docs) [].
Proof.
  intros sourceDir He Hd docs index. unfold loadContent. fold sourceDir.
  rewrite He, Hd. cbn [negb mbind outcome_bind]. rewrite firstPass_spec.
  fold docs. rewrite (secondPass_eq config docs). reflexivity.
Qed.

Lemma loadContent_nothing_to_load_aux (host : Host) (config : InternalPluginConfig)
    (projectRoot : string) :
  let sourceDir := resolve host projectRoot (Types.sourceDir config) in
  (loadContent host config projectRoot =
     MkProcessingResult [] [] ["Source directory not found: " +:+ sourceDir] [] /\
   existsSync host sourceDir = false) \/
  (exists mdcFiles, existsSync host sourceDir = true /\
     discoverMdcFiles host sourceDir = Returned mdcFiles).
Proof.
  intros sourceDir. destruct (existsSync host sourceDir) eqn:He.
  - right. destruct (discoverMdcFiles_returns host sourceDir) as (l & Hd & _). eauto.
  - left. split; [|reflexivity]. unfold loadContent. fold sourceDir. rewrite He.
    reflexivity.
Qed.


(** X12: [loadContent] never reports an error: the errors of its result
    are always empty.  When the source directory does not exist the
    result is empty but for one warning that names the directory; when
    the enumerator throws the result is empty, without warning. *)
Theorem loadContent_nothing_to_load (host : Host) (config : InternalPluginConfig)
    (projectRoot : string) :
  let sourceDir := resolve host projectRoot (Types.sourceDir config) in
  r_errors (loadContent host config projectRoot) = [] /\
  (existsSync host sourceDir = false ->
     loadContent host config projectRoot =
       MkProcessingResult [] [] ["Source directory not found: " +:+ sourceDir] []) /\
  (existsSync host sourceDir = true ->
   forall e,
     glob host (normalizeSeparators (NodePath.join [sourceDir; "**/*.mdc"])) = Thrown e ->
     loadContent host config projectRoot = MkProcessingResult [] [] [] []).
Proof.
  intros sourceDir.
  destruct (discoverMdcFiles_returns host sourceDir) as (mdcFiles & Hd & Hglob).
  destruct (existsSync host sourceDir) eqn:He.
  - pose proof (loadContent_eq host config projectRoot mdcFiles He Hd) as E.
    cbv zeta in E. fold sourceDir in E. rewrite E. cbn [r_errors].
    split; [reflexivity|]. split; [discriminate|]. intros _ e Hg.
    rewrite (Hglob e Hg). reflexivity.
  - assert (E : loadContent host config projectRoot =
                MkProcessingResult [] [] ["Source directory not found: " +:+ sourceDir] []).
    { unfold loadContent. fold sourceDir. rewrite He. reflexivity. }
    rewrite E. split; [reflexivity|]. split; [reflexivity|discriminate].
Qed.

(** X13: when the source directory exists, the second pass changes
    nothing of a document but its content, which becomes the body that
    [resolveLinks] rewrites against the index of all the documents of the
    first pass; the documents keep their order, and the cross-references
    and the warnings of the result are those of the documents, in that
    order. *)
Theorem loadContent_second_pass (host : Host) (config : InternalPluginConfig)
    (projectRoot : string) (mdcFiles : list string) :
  let sourceDir := resolve host projectRoot (Types.sourceDir config) in
  existsSync host sourceDir = true ->
  discoverMdcFiles host sourceDir = Returned mdcFiles ->
  let docs := transformed host config sourceDir mdcFiles in
  let index := LinkResolver.setDiscoveredFiles docs in
  let result := loadContent host config projectRoot in
  Forall2 (fun doc final =>
             id final = id doc /\ filePath final = filePath doc /\
             title final = title doc /\ metadata final = metadata doc /\
             permalink final = permalink doc /\ toc final = toc doc /\
             content final =
               LinkResolver.res_content
                 (LinkResolver.resolveLinks config index (content doc) (filePath doc)))
          docs (r_content result) /\
  r_crossReferences result =
    flat_map (fun doc =>
                LinkResolver.res_crossReferences
                  (LinkResolver.resolveLinks config index (content doc) (filePath doc)))
             docs /\
  r_warnings result =
    flat_map (fun doc =>
                LinkResolver.generateWarnings index
                  (LinkResolver.res_crossReferences
                     (LinkResolver.resolveLinks config index (content doc) (filePath doc)))
                  (filePath doc))
             docs.
Proof.
  intros sourceDir He Hd docs index result. subst result.
  pose proof (loadContent_eq host config projectRoot mdcFiles He Hd) as E.
  cbv zeta in E. fold sourceDir docs index in E. rewrite E.
  cbn [r_content r_crossReferences r_warnings].
  split; [|split; reflexivity].
  clear E. clearbody index. generalize docs. intros l.
  induction l as [|doc l IH]; [constructor|].
  cbn [map]. constructor; [|exact IH]. repeat split.
Qed.

(** A host with two documents: the first refers to the second, which
    the enumerator lists after it, and to a document that does not
    exist. *)
Definition linkedFiles : Host :=
  MkHost (fun _ => true)
    (fun _ => Returned ["/site/.cursor/rules/a.mdc"; "/site/.cursor/rules/b.mdc"])
    (fun file =>
       if String.eqb file "/site/.cursor/rules/a.mdc"
       then Returned "See ./b.mdc and ./missing.mdc"
       else Returned "The second")
    (fun _ => Returned "2023-01-01T00:00:00.000Z")
    (fun content => Returned ("<p>" +:+ content +:+ "</p>"))
    (fun root dir => root +:+ "/" +:+ dir)
    (fun from to => drop (String.length from + 1) to).

Example loadContent_linkedFiles :
  let result := loadContent linkedFiles defaultConfig "/site" in
  map content (r_content result) =
    ["<p>See /rules/b and /rules/missing</p>"; "<p>The second</p>"] /\
  r_crossReferences result =
    [MkCrossReference "./b.mdc" "/rules/b" true;
     MkCrossReference "./missing.mdc" "/rules/missing" false] /\
  List.length (r_warnings result) = 1.
Proof. vm_compute. repeat split. Qed.

Lemma loadContent_second_pass_witness :
  r_crossReferences (loadContent linkedFiles defaultConfig "/site") =
  flat_map (fun doc =>
              LinkResolver.res_crossReferences
                (LinkResolver.resolveLinks defaultConfig
                   (LinkResolver.setDiscoveredFiles
                      (transformed linkedFiles defaultConfig "/site/.cursor/rules"
                         ["/site/.cursor/rules/a.mdc"; "/site/.cursor/rules/b.mdc"]))
                   (content doc) (filePath doc)))
    (transformed linkedFiles defaultConfig "/site/.cursor/rules"
       ["/site/.cursor/rules/a.mdc"; "/site/.cursor/rules/b.mdc"]).
Proof.
  refine (proj1 (proj2 (loadContent_second_pass linkedFiles defaultConfig "/site"
                   ["/site/.cursor/rules/a.mdc"; "/site/.cursor/rules/b.mdc"] _ _)));
    reflexivity.
Defined.

(** *** The index and the result *)

Lemma resolveSingleLink_same_keys (config : InternalPluginConfig)
    (files files' : LinkResolver.DiscoveredFiles) (link sourceFilePath : string) :
  (forall k, JsMap.has files k = JsMap.has files' k) ->
  LinkResolver.resolveSingleLink config files link sourceFilePath =
  LinkResolver.resolveSingleLink config files' link sourceFilePath.
Proof.
  intros H. unfold LinkResolver.resolveSingleLink, LinkResolver.validateTargetExists.
  cbv zeta. rewrite !H. reflexivity.
Qed.

Lemma has_index_paths (docs docs' : list RuleContent) (k : string) :
  map filePath docs = map filePath docs' ->
  JsMap.has (LinkResolver.setDiscoveredFiles docs) k =
  JsMap.has (LinkResolver.setDiscoveredFiles docs') k.
Proof.
  intros H. apply eq_true_iff_eq. rewrite !LinkResolverSpec.has_setDiscoveredFiles.
  assert (G : forall l l' : list RuleContent, map filePath l = map filePath l' ->
              (exists rule, In rule l /\
                 (filePath rule = k \/ normalizeSeparators (filePath rule) = k)) ->
              exists rule, In rule l' /\
                 (filePath rule = k \/ normalizeSeparators (filePath rule) = k)).
  { intros l l' E (rule & Hin & Hk).
    assert (Hp : In (filePath rule) (map filePath l')).
    { rewrite <- E. apply List.in_map, Hin. }
    apply List.in_map_iff in Hp as (rule' & E' & Hin'). exists rule'.
    rewrite E'. auto. }
  split; apply G; [exact H|symmetry; exact H].
Qed.

Lemma rewritten_filePath (config : InternalPluginConfig)
    (index : LinkResolver.DiscoveredFiles) (docs : list RuleContent) :
  map filePath (map (rewritten config index) docs) = map filePath docs.
Proof. rewrite List.map_map. reflexivity. Qed.

(** X14: every cross-reference of the result of [loadContent] is the
    resolution of its original text against the index of all the
    documents of the result, from one of these documents: a reference to
    a document that is loaded is valid whatever the order in which the
    enumerator lists the files. *)
Theorem loadContent_references (host : Host) (config : InternalPluginConfig)
    (projectRoot : string) :
  let result := loadContent host config projectRoot in
  Forall (fun ref =>
            exists doc, In doc (r_content result) /\
              ref = LinkResolver.resolveSingleLink config
                      (LinkResolver.setDiscoveredFiles (r_content result))
                      (original ref) (filePath doc))
         (r_crossReferences result).
Proof.
  intros result. subst result.
  set (sourceDir := resolve host projectRoot (Types.sourceDir config)).
  destruct (loadContent_nothing_to_load_aux host config projectRoot)
    as [(E & _)|(mdcFiles & He & Hd)].
  { rewrite E. constructor. }
  pose proof (loadContent_eq host config projectRoot mdcFiles He Hd) as E.
  cbv zeta in E. rewrite E. cbn [r_content r_crossReferences].
  set (docs := transformed host config _ mdcFiles).
  set (index := LinkResolver.setDiscoveredFiles docs).
  apply List.Forall_forall. intros ref Href.
  apply List.in_flat_map in Href as (doc & Hdoc & Href).
  destruct (LinkResolverProps.resolveLinks_refs config index (content doc) (filePath doc))
    as [_ Hall].
  cbv zeta in Hall. rewrite List.Forall_forall in Hall.
  destruct (Hall ref Href) as (_ & _ & Eref).
  exists (rewritten config index doc). split; [apply List.in_map, Hdoc|].
  rewrite Eref at 1. cbn [filePath rewritten withContent].
  apply resolveSingleLink_same_keys. intros k.
  apply has_index_paths. symmetry. apply rewritten_filePath.
Qed.

(** *** Warnings and statistics of the result *)

Lemma warnings_length (config : InternalPluginConfig) (index : LinkResolver.DiscoveredFiles)
    (docs : list RuleContent) :
  List.length (flat_map (warningsOf config index) docs) =
  List.length (List.filter (fun ref => negb (isValid ref))
                 (flat_map (referencesOf config index) docs)).
Proof.
  induction docs as [|doc docs IH]; [reflexivity|].
  cbn [flat_map]. rewrite List.filter_app, !List.length_app, IH. f_equal.
  apply LinkResolverProps.generateWarnings_length.
Qed.

(** X15: when the source directory exists, the result of [loadContent]
    has as many warnings as [getResolutionStats] counts broken references
    among its cross-references. *)
Theorem loadContent_warnings (host : Host) (config : InternalPluginConfig)
    (projectRoot : string) :
  existsSync host (resolve host projectRoot (Types.sourceDir config)) = true ->
  let result := loadContent host config projectRoot in
  List.length (r_warnings result) =
  LinkResolver.broken (LinkResolver.getResolutionStats (r_crossReferences result)).
Proof.
  intros He result. subst result.
  destruct (discoverMdcFiles_returns host
              (resolve host projectRoot (Types.sourceDir config))) as (mdcFiles & Hd & _).
  pose proof (loadContent_eq host config projectRoot mdcFiles He Hd) as E.
  cbv zeta in E. rewrite E. cbn [r_warnings r_crossReferences].
  rewrite warnings_length. unfold LinkResolver.getResolutionStats.
  cbn [LinkResolver.broken]. apply LinkResolverProps.filter_negb_length.
Qed.

Lemma loadContent_warnings_witness :
  List.length (r_warnings (loadContent linkedFiles defaultConfig "/site")) =
  LinkResolver.broken
    (LinkResolver.getResolutionStats
       (r_crossReferences (loadContent linkedFiles defaultConfig "/site"))).
Proof.
  apply (loadContent_warnings linkedFiles defaultConfig "/site"). reflexivity.
Defined.

(** *** The documents *)

Lemma transform_fields (host : Host) (config : InternalPluginConfig)
    (file sourceDir : string) (doc : RuleContent) :
  transform host config file sourceDir = Returned doc ->
  exists text html mtime,
    readFileSync host file = Returned text /\
    processMarkdown host (p_content (parseWithNormalization text)) = Returned html /\
    statMtimeISO host file = Returned mtime /\
    let parsed := parseWithNormalization text in
    let relativePath := relative host sourceDir file in
    doc = MkRuleContent
            (normalizeSeparators (stripSuffix ".mdc" relativePath))
            relativePath
            (extractTitle (p_metadata parsed) (p_content parsed) relativePath)
            html
            (<["lastModified" := VString mtime]>
               (<["sourceFile" :=
                    VString (NodePath.join [Types.sourceDir config; relativePath])]>
                  (p_metadata parsed)))
            (generatePermalink config relativePath)
            (extractTOC html).
Proof.
  unfold transform.
  destruct (readFileSync host file) as [text|]; cbn [mbind outcome_bind]; [|discriminate].
  destruct (processMarkdown host _) as [html|] eqn:Eh; cbn [mbind outcome_bind];
    [|discriminate].
  destruct (statMtimeISO host file) as [mtime|]; cbn [mbind outcome_bind]; [|discriminate].
  intros [= <-]. exists text, html, mtime. auto.
Qed.

Lemma loadContent_document (host : Host) (config : InternalPluginConfig)
    (projectRoot : string) (doc : RuleContent) :
  In doc (r_content (loadContent host config projectRoot)) ->
  exists file first newContent,
    transform host config file (resolve host projectRoot (Types.sourceDir config))
      = Returned first /\
    doc = withContent first newContent.
Proof.
  destruct (loadContent_nothing_to_load_aux host config projectRoot)
    as [(E & _)|(mdcFiles & He & Hd)].
  { rewrite E. intros []. }
  pose proof (loadContent_eq host config projectRoot mdcFiles He Hd) as E.
  cbv zeta in E. rewrite E. cbn [r_content]. intros H.
  apply List.in_map_iff in H as (first & <- & Hin).
  apply list_elem_of_In, list_elem_of_omap in Hin as (file & _ & Hf).
  exists file, first. eexists. split; [|reflexivity].
  destruct (transform host config file _); [injection Hf as ->; reflexivity|discriminate Hf].
Qed.

(** X16: every document of the result of [loadContent] has for id its
    path without the extension, separators normalized; for permalink the
    base path joined with its id; in its metadata, the source file (the
    source directory joined with its path) and a time of modification,
    whatever the metadata block says of these two keys; and no metadata
    value that is [null]. *)
Theorem loadContent_document_fields (host : Host) (config : InternalPluginConfig)
    (projectRoot : string) (doc : RuleContent) :
  In doc (r_content (loadContent host config projectRoot)) ->
  id doc = normalizeSeparators (stripSuffix ".mdc" (filePath doc)) /\
  permalink doc = NodePath.join [crossReferenceBase config; id doc] /\
  metadata doc !! "sourceFile" =
    Some (VString (NodePath.join [Types.sourceDir config; filePath doc])) /\
  (exists mtime, metadata doc !! "lastModified" = Some (VString mtime)) /\
  (forall k v, metadata doc !! k = Some v -> v <> VNull).
Proof.
  intros H. apply loadContent_document in H as (file & first & newContent & Ht & ->).
  apply transform_fields in Ht as (text & html & mtime & _ & _ & _ & ->).
  cbn [withContent id filePath permalink metadata].
  split; [reflexivity|]. split; [reflexivity|].
  split; [rewrite lookup_insert_ne by discriminate; apply lookup_insert_eq|].
  split; [exists mtime; apply lookup_insert_eq|].
  intros k v Hk ->.
  destruct (decide ("lastModified" = k)) as [<-|H1];
    [rewrite lookup_insert_eq in Hk; discriminate Hk|].
  rewrite lookup_insert_ne in Hk by exact H1.
  destruct (decide ("sourceFile" = k)) as [<-|H2];
    [rewrite lookup_insert_eq in Hk; discriminate Hk|].
  rewrite lookup_insert_ne in Hk by exact H2.
  unfold parseWithNormalization in Hk. cbn [p_metadata] in Hk.
  apply MetadataParserSpec.normalizeMetadata_no_null in Hk. discriminate Hk.
Qed.

Lemma loadContent_document_fields_witness :
  let doc := List.nth 0 (r_content (loadContent linkedFiles defaultConfig "/site"))
               (LinkResolverSpec.ruleAt "") in
  id doc = normalizeSeparators (stripSuffix ".mdc" (filePath doc)) /\
  permalink doc = NodePath.join [crossReferenceBase defaultConfig; id doc] /\
  metadata doc !! "sourceFile" =
    Some (VString (NodePath.join [Types.sourceDir defaultConfig; filePath doc])) /\
  (exists mtime, metadata doc !! "lastModified" = Some (VString mtime)) /\
  (forall k v, metadata doc !! k = Some v -> v <> VNull).
Proof.
  apply (loadContent_document_fields linkedFiles defaultConfig "/site").
  vm_compute. left. reflexivity.
Defined.

(** A host whose renderer always throws. *)
Definition failingRenderer : Host :=
  MkHost (fun _ => true)
    (fun _ => Returned ["/site/.cursor/rules/a.mdc"])
    (fun _ => Returned "# Title")
    (fun _ => Returned "2023-01-01T00:00:00.000Z")
    (fun _ => Thrown "Cannot render")
    (fun root dir => root +:+ "/" +:+ dir)
    (fun from to => drop (String.length from + 1) to).

(** X17: when the renderer throws on the content of a file that can be
    read, with its time of modification, [processFile] still returns a
    document: its content is the markdown content in a [pre] element. *)
Theorem processFile_renderer_failure (host : Host) (config : InternalPluginConfig)
    (file sourceDir text mtime e : string) :
  readFileSync host file = Returned text ->
  statMtimeISO host file = Returned mtime ->
  processor host (p_content (parseWithNormalization text)) = Thrown e ->
  exists doc,
    processFile host config file sourceDir = Returned (Some doc) /\
    content doc = "<pre>" +:+ p_content (parseWithNormalization text) +:+ "</pre>".
Proof.
  intros Hr Hs Hp. unfold processFile, transform. rewrite Hr. cbn [mbind outcome_bind].
  unfold processMarkdown. rewrite Hp. cbn [tryCatch mbind outcome_bind]. rewrite Hs.
  cbn [mbind outcome_bind mret outcome_ret fmap outcome_fmap tryCatch].
  eexists. split; reflexivity.
Qed.

Lemma processFile_renderer_failure_witness :
  exists doc,
    processFile failingRenderer defaultConfig "/site/.cursor/rules/a.mdc" "/site/.cursor/rules"
      = Returned (Some doc) /\
    content doc = "<pre>" +:+ p_content (parseWithNormalization "# Title") +:+ "</pre>".
Proof.
  apply (processFile_renderer_failure failingRenderer defaultConfig
           "/site/.cursor/rules/a.mdc" "/site/.cursor/rules" "# Title"
           "2023-01-01T00:00:00.000Z" "Cannot render"); reflexivity.
Defined.

(** *** The table of contents *)

Lemma level_of_digit (x d : ascii) :
  isLevel d = true ->
  let tagName := toLowerCase (String x (String d "")) in
  1 <= Z.to_nat (default 0%Z (parseInt (substring tagName 1 2))) <= 6.
Proof.
  destruct d as [[] [] [] [] [] [] [] []]; intros H; try discriminate H;
    vm_compute; lia.
Qed.

Lemma Den_heading_name (t : string) (cs : list (nat * string)) :
  Den (Cat (ci "h") (Chr isLevel)) t cs ->
  exists x d, t = String x (String d "") /\ isLevel d = true.
Proof.
  intros H. apply LinkResolverProps.Den_Cat_inv in H as (u & v & c1 & c2 & -> & _ & D1 & D2).
  unfold ci in D1. apply LinkResolverProps.Den_Chr_inv in D1 as (x & -> & _).
  apply LinkResolverProps.Den_Chr_inv in D2 as (d & -> & Hd). exists x, d. auto.
Qed.

(** The words of the pattern of headings, with the texts of the name of
    the tag, of the [id] attribute if it is there, and of the content. *)
Lemma Den_HEADING_TAG_PATTERN (w : string) (cs : list (nat * string)) :
  Den HEADING_TAG_PATTERN w cs ->
  exists name inner x d,
    name = String x (String d "") /\ isLevel d = true /\
    lookupText 1 cs = Some name /\ lookupText 3 cs = Some inner /\
    (lookupText 2 cs = None \/
     exists idText, lookupText 2 cs = Some idText /\ allChars notDq idText = true).
Proof.
  unfold HEADING_TAG_PATTERN. cbn [seq]. intros H.
  apply LinkResolverProps.Den_Cat_free_l in H as (u0 & v0 & -> & _ & H); [|reflexivity].
  apply LinkResolverProps.Den_Cat_inv in H as (name & v1 & c1 & c2 & -> & -> & D1 & H).
  inversion D1 as [| | | | | | |n r w' c D1'| | | |]; subst.
  pose proof (LinkResolverProps.Den_groupFree _ _ _ D1' eq_refl) as ->.
  apply Den_heading_name in D1' as (x & d & -> & Hd).
  apply LinkResolverProps.Den_Cat_inv in H as (o & v2 & c3 & c4 & -> & -> & Dopt & H).
  do 2 (apply LinkResolverProps.Den_Cat_free_l in H as (?u & ?v & -> & _ & H); [|reflexivity]).
  apply LinkResolverProps.Den_Cat_free_r in H as (inner & t & -> & H & _); [|reflexivity].
  inversion H as [| | | | | | |n r w' c D3| | | |]; subst.
  pose proof (LinkResolverProps.Den_groupFree _ _ _ D3 eq_refl) as ->.
  exists (String x (String d "")), inner, x, d.
  split; [reflexivity|]. split; [exact Hd|].
  unfold opt in Dopt.
  inversion Dopt as [| | |r1 r2 w' c' D|r1 r2 w' c' D| | | | | | |]; subst.
  - do 5 (apply LinkResolverProps.Den_Cat_free_l in D as (?u & ?v & -> & _ & D);
          [|reflexivity]).
    apply LinkResolverProps.Den_Cat_free_r in D as (idText & q & -> & D & _); [|reflexivity].
    inversion D as [| | | | | | |n r w' c D2| | | |]; subst.
    pose proof (LinkResolverProps.Den_groupFree _ _ _ D2 eq_refl) as ->.
    apply LinkResolverProps.Den_Star_class in D2.
    cbn. repeat split. right. exists idText. auto.
  - inversion D; subst. cbn. auto.
Qed.

Lemma allChars_notDq (s : string) :
  allChars notDq s = true -> includes s (String dq "") = false.
Proof.
  intros H. apply MetadataParserProps.without_includes.
  unfold MetadataParserProps.without. exact H.
Qed.

Lemma tocItemOf_fields (htmlContent : string) (m : rmatch_result) (item : TOCItem) :
  matchOf HEADING_TAG_PATTERN htmlContent m ->
  tocItemOf htmlContent m = Some item ->
  toc_id item <> "" /\ includes (toc_id item) (String dq "") = false /\
  toc_value item <> "" /\ trim (toc_value item) = toc_value item /\
  1 <= toc_level item <= 6.
Proof.
  intros (w & cs & D & _ & _ & _ & G) H.
  apply Den_HEADING_TAG_PATTERN in D as (name & inner & x & d & -> & Hd & G1 & G3 & G2).
  unfold tocItemOf in H. rewrite !G, G1, G3 in H.
  cbn [default from_option Datatypes.id] in H.
  destruct (String.eqb_spec (default "" (lookupText 2 cs)) "") as [|Hid];
    cbn [negb andb] in H; [discriminate H|].
  destruct (String.eqb_spec (trim (removeTags inner)) "") as [|Hv];
    cbn [negb andb] in H; [discriminate H|].
  injection H as <-. cbn [toc_id toc_value toc_level].
  split; [exact Hid|]. split; [|split; [exact Hv|split]].
  - destruct G2 as [->|(idText & -> & Hq)]; [reflexivity|]. apply allChars_notDq, Hq.
  - apply TrimFacts.trim_idempotent.
  - apply level_of_digit, Hd.
Qed.

(** X18: every item of the table of contents that [extractTOC] builds
    has an id that is not empty and holds no double quote, a text that is
    not empty and has no white space at its ends, and a level from 1 to 6;
    there are at most as many items as matches of the pattern of
    headings. *)
Theorem extractTOC_items (htmlContent : string) :
  Forall (fun item =>
            toc_id item <> "" /\ includes (toc_id item) (String dq "") = false /\
            toc_value item <> "" /\ trim (toc_value item) = toc_value item /\
            1 <= toc_level item <= 6)
         (extractTOC htmlContent) /\
  List.length (extractTOC htmlContent) <=
    List.length (matchAll HEADING_TAG_PATTERN htmlContent).
Proof.
  unfold extractTOC.
  pose proof (matchAll_sound HEADING_TAG_PATTERN htmlContent) as Hall.
  induction Hall as [|m ms Hm _ [IH1 IH2]]; [split; [constructor|reflexivity]|].
  cbn [omap list_omap]. destruct (tocItemOf htmlContent m) as [item|] eqn:E.
  - split; [constructor; [apply (tocItemOf_fields htmlContent m item Hm E)|exact IH1]|].
    cbn [List.length]. lia.
  - split; [exact IH1|]. cbn [List.length]. lia.
Qed.

End ContentLoaderProps.

(** ** The sidebar generator: the documents of the sidebar *)
Module SidebarGeneratorProps.
Import JsString MetadataParser Types SidebarGenerator.
Import StringFacts TrimFacts MetadataParserSpec MetadataParserProps SidebarGeneratorSpec.

(** *** Maps of directories *)

Section JsMapValues.
Context {V B : Type} (g : V -> list B).

(** What [g] collects from the values of a map, in the order of the map. *)
Definition collect (m : JsMap.t V) : list B :=
  flat_map (fun entry => g (snd entry)) m.

Lemma has_set_same (m : JsMap.t V) (k : string) (v : V) :
  JsMap.has (JsMap.set m k v) k = true.
Proof.
  induction m as [|[k' v'] m IH]; cbn [JsMap.set JsMap.has].
  - rewrite String.eqb_refl. reflexivity.
  - destruct (String.eqb k' k) eqn:E; cbn [JsMap.has]; rewrite E; [reflexivity|exact IH].
Qed.

Lemma collect_set_new (m : JsMap.t V) (k : string) (v : V) :
  JsMap.has m k = false -> collect (JsMap.set m k v) = collect m ++ g v.
Proof.
  unfold collect. induction m as [|[k' v'] m IH]; cbn [JsMap.set JsMap.has]; intros H.
  - cbn. rewrite List.app_nil_r. reflexivity.
  - apply orb_false_iff in H as [E H]. rewrite E. cbn [flat_map snd].
    rewrite IH, List.app_assoc by exact H. reflexivity.
Qed.

Lemma collect_update (m : JsMap.t V) (k : string) (f : V -> V) (x : B) :
  JsMap.has m k = true ->
  (forall v, Permutation (g (f v)) (x :: g v)) ->
  Permutation (collect (JsMap.update m k f)) (x :: collect m).
Proof.
  intros H Hf. unfold collect.
  induction m as [|[k' v'] m IH]; cbn [JsMap.update JsMap.has] in *; [discriminate|].
  destruct (String.eqb k' k) eqn:E; cbn [flat_map snd].
  - rewrite Hf. reflexivity.
  - rewrite IH by exact H. symmetry. apply Permutation_middle.
Qed.

End JsMapValues.

Lemma flat_map_Permutation {A B} (f g : A -> list B) (l : list A) :
  List.Forall (fun a => Permutation (f a) (g a)) l ->
  Permutation (flat_map f l) (flat_map g l).
Proof.
  induction 1 as [|a l Ha _ IH]; cbn [flat_map]; [reflexivity|].
  apply Permutation_app; assumption.
Qed.

(** *** The files of a tree and the links of a sidebar *)

(** The file nodes of a directory tree: the files of the directory, then
    those of its subdirectories. *)
Fixpoint filesOf (tree : DirectoryNode) : list FileNode :=
  match tree with
  | MkDirectoryNode _ _ children items =>
      items ++ flat_map (fun entry => match entry with (_, d) => filesOf d end) children
  end.

Lemma filesOf_unfold (name path : string) (children : JsMap.t DirectoryNode)
    (items : list FileNode) :
  filesOf (MkDirectoryNode name path children items) = items ++ collect filesOf children.
Proof.
  cbn [filesOf]. f_equal. unfold collect. apply List.flat_map_ext. intros [k d]. reflexivity.
Qed.

(** The links of an item, at any depth, and of a list of items. *)
Fixpoint linksOf (item : SidebarItem) : list SidebarItem :=
  match item with
  | Link _ _ _ => [item]
  | Category _ sub _ _ _ => flat_map linksOf sub
  end.

Definition allLinks (sidebar : list SidebarItem) : list SidebarItem :=
  flat_map linksOf sidebar.

(** The file node that [addFileToTree] makes of a document. *)
Definition fileNodeOf (rule : RuleContent) : FileNode :=
  MkFileNode (NodePath.basename (filePath rule) ".mdc") (filePath rule) rule.

(** The walk of [addFileToTree] adds the file node, once, and keeps the
    others. *)
Lemma descend_filesOf (dirs entered : list string) (fileNode : FileNode)
    (node : DirectoryNode) :
  Permutation (filesOf (descend dirs entered fileNode node)) (fileNode :: filesOf node).
Proof.
  revert entered node. induction dirs as [|dirName dirs IH]; intros entered node;
    destruct node as [name path children items]; cbn [descend]; rewrite !filesOf_unfold.
  - rewrite <- List.app_assoc. cbn [List.app].
    symmetry. apply Permutation_middle.
  - cbv zeta. set (fresh := MkDirectoryNode dirName _ JsMap.empty []).
    assert (Hhas : JsMap.has (if JsMap.has children dirName then children
                              else JsMap.set children dirName fresh) dirName = true).
    { destruct (JsMap.has children dirName) eqn:E; [exact E|apply has_set_same]. }
    rewrite (collect_update filesOf _ dirName _ fileNode Hhas) by (intros v; apply IH).
    assert (Hsame : collect filesOf (if JsMap.has children dirName then children
                                     else JsMap.set children dirName fresh) =
                    collect filesOf children).
    { destruct (JsMap.has children dirName) eqn:E; [reflexivity|].
      rewrite (collect_set_new filesOf) by exact E. apply List.app_nil_r. }
    rewrite Hsame. symmetry. apply Permutation_middle.
Qed.

Lemma addFileToTree_filesOf (root : DirectoryNode) (rule : RuleContent) :
  Permutation (filesOf (addFileToTree root rule)) (fileNodeOf rule :: filesOf root).
Proof. unfold addFileToTree. apply descend_filesOf. Qed.

Lemma buildDirectoryTree_filesOf (ruleContent : list RuleContent) :
  Permutation (filesOf (buildDirectoryTree ruleContent)) (map fileNodeOf ruleContent).
Proof.
  unfold buildDirectoryTree.
  assert (H : forall root,
    Permutation (filesOf (fold_left addFileToTree ruleContent root))
                (filesOf root ++ map fileNodeOf ruleContent)).
  { induction ruleContent as [|rule rules IH]; intros root; cbn [fold_left map].
    - rewrite List.app_nil_r. reflexivity.
    - rewrite IH, addFileToTree_filesOf. apply Permutation_middle. }
  rewrite H. reflexivity.
Qed.

(** The links of a converted tree are the links of its files. *)
Lemma convertTree_allLinks (localeCompare : string -> string -> Z) (tree : DirectoryNode) :
  Permutation (allLinks (convertTreeToSidebarItems localeCompare tree))
    (map (fun fileNode => createSidebarItemFromFile (fn_rule fileNode)) (filesOf tree)).
Proof.
  induction tree as [name path children items IH] using DirectoryNode_induction.
  cbn [convertTreeToSidebarItems]. unfold allLinks, sortSidebarItems.
  rewrite <- (Permutation_flat_map linksOf (sortBy_perm _ _)).
  rewrite List.flat_map_app, filesOf_unfold, List.map_app.
  apply Permutation_app.
  - clear IH. induction items as [|fileNode items IHi]; [reflexivity|].
    cbn [map flat_map linksOf createSidebarItemFromFile List.app].
    apply perm_skip, IHi.
  - unfold collect. clear items.
    induction IH as [|[k d] children Hd _ IHc]; [reflexivity|].
    cbn [map flat_map linksOf snd] in *. rewrite List.map_app.
    apply Permutation_app; [exact Hd|exact IHc].
Qed.

Lemma generateSidebar_allLinks (localeCompare : string -> string -> Z)
    (ruleContent : list RuleContent) :
  Permutation (allLinks (generateSidebar localeCompare ruleContent))
              (map createSidebarItemFromFile ruleContent).
Proof.
  unfold generateSidebar. rewrite convertTree_allLinks, buildDirectoryTree_filesOf.
  rewrite List.map_map. reflexivity.
Qed.

(** X19: the links of the generated sidebar, at any depth, are the links
    of the given documents: every document has its link, with its title,
    its permalink and its position, once for each time it is given, and
    the sidebar has no other link; so it has as many links as there are
    documents. *)
Theorem generateSidebar_links (localeCompare : string -> string -> Z)
    (ruleContent : list RuleContent) :
  Permutation (allLinks (generateSidebar localeCompare ruleContent))
              (map createSidebarItemFromFile ruleContent) /\
  List.length (allLinks (generateSidebar localeCompare ruleContent)) =
  List.length ruleContent.
Proof.
  pose proof (generateSidebar_allLinks localeCompare ruleContent) as H.
  split; [exact H|]. rewrite (Permutation_length H). apply List.length_map.
Qed.

(** *** Sorting twice *)

Section SortTwice.
Context {A : Type} (cmp : A -> A -> Q).

Lemma sortInsert_least (x : A) (l : list A) :
  List.Forall (notAfter cmp x) l -> sortInsert cmp x l = x :: l.
Proof.
  intros H. destruct H as [|y l Hy _]; [reflexivity|].
  cbn [sortInsert]. apply Qle_bool_iff in Hy. rewrite Hy. reflexivity.
Qed.

Lemma sortBy_sorted_same (l : list A) :
  StronglySorted (notAfter cmp) l -> sortBy cmp l = l.
Proof.
  induction 1 as [|x l _ IH Hall]; [reflexivity|].
  change (sortBy cmp (x :: l)) with (sortInsert cmp x (sortBy cmp l)).
  rewrite IH. apply sortInsert_least, Hall.
Qed.

End SortTwice.

(** X20: for a collation that is a total preorder, sorting the items
    again changes nothing: the sorted items keep their order, also those
    that compare equal. *)
Theorem sortSidebarItems_again (localeCompare : string -> string -> Z)
    (items : list SidebarItem) :
  (forall a b, (localeCompare a b <= 0)%Z \/ (localeCompare b a <= 0)%Z) ->
  (forall a b c, (localeCompare a b <= 0)%Z -> (localeCompare b c <= 0)%Z ->
                 (localeCompare a c <= 0)%Z) ->
  sortSidebarItems localeCompare (sortSidebarItems localeCompare items) =
  sortSidebarItems localeCompare items.
Proof.
  intros Htotal Htrans. apply sortBy_sorted_same.
  apply sortSidebarItems_sorted; assumption.
Qed.

Lemma sortSidebarItems_again_witness :
  sortSidebarItems codeUnitCompare (sortSidebarItems codeUnitCompare siblings) =
  sortSidebarItems codeUnitCompare siblings.
Proof.
  exact (sortSidebarItems_again codeUnitCompare siblings
           codeUnitCompare_total codeUnitCompare_trans).
Defined.

(** The items of the category of the directory [modes] in the sidebar of
    the documents of the tests. *)
Definition modesItems : list SidebarItem :=
  [Link "Plan Mode" "/rules/modes/plan" (Some (inject_Z 2));
   Link "Doc Mode" "/rules/modes/doc" None;
   Link "Implement Mode" "/rules/modes/implement" None].

Lemma generateSidebar_order_witness :
  In modesItems (siblingLists (generateSidebar codeUnitCompare mockRules)) /\
  (codeUnitCompare "Doc Mode" "Implement Mode" <= 0)%Z.
Proof.
  assert (Hin : In modesItems (siblingLists (generateSidebar codeUnitCompare mockRules))).
  { rewrite (proj1 generateSidebar_mockRules). right. left. reflexivity. }
  split; [exact Hin|].
  exact (proj2 (proj2 (generateSidebar_order codeUnitCompare
                         codeUnitCompare_total codeUnitCompare_trans
                         mockRules modesItems Hin))
           1 2 _ _ ltac:(lia) eq_refl eq_refl eq_refl eq_refl).
Defined.

(** *** The categories of the sidebar *)

Section JsMapForall.
Context {V B : Type} (g : V -> list B) (P : B -> Prop).

Lemma update_set (m : JsMap.t V) (k : string) (v : V) (f : V -> V) :
  JsMap.update (JsMap.set m k v) k f = JsMap.set m k (f v).
Proof.
  induction m as [|[k' v'] m IH]; cbn [JsMap.set JsMap.update].
  - rewrite String.eqb_refl. reflexivity.
  - destruct (String.eqb k' k) eqn:E; cbn [JsMap.update]; rewrite E; [reflexivity|].
    rewrite IH. reflexivity.
Qed.

Lemma Forall_collect_set (m : JsMap.t V) (k : string) (v : V) :
  List.Forall P (collect g m) -> List.Forall P (g v) ->
  List.Forall P (collect g (JsMap.set m k v)).
Proof.
  unfold collect. intros Hm Hv.
  induction m as [|[k' v'] m IH]; cbn [JsMap.set flat_map snd] in *.
  - rewrite List.app_nil_r. exact Hv.
  - apply List.Forall_app in Hm as [H1 H2].
    destruct (String.eqb k' k); cbn [flat_map snd]; apply List.Forall_app; auto.
Qed.

Lemma Forall_collect_update (m : JsMap.t V) (k : string) (f : V -> V) :
  List.Forall P (collect g m) ->
  (forall v, List.Forall P (g v) -> List.Forall P (g (f v))) ->
  List.Forall P (collect g (JsMap.update m k f)).
Proof.
  unfold collect. intros Hm Hf.
  induction m as [|[k' v'] m IH]; cbn [JsMap.update flat_map snd] in *; [constructor|].
  apply List.Forall_app in Hm as [H1 H2].
  destruct (String.eqb k' k); cbn [flat_map snd]; apply List.Forall_app; auto.
Qed.

End JsMapForall.

(** The directories below a tree, at any depth. *)
Fixpoint dirsOf (tree : DirectoryNode) : list DirectoryNode :=
  match tree with
  | MkDirectoryNode _ _ children _ =>
      flat_map (fun entry => match entry with (_, d) => d :: dirsOf d end) children
  end.

Lemma dirsOf_unfold (name path : string) (children : JsMap.t DirectoryNode)
    (items : list FileNode) :
  dirsOf (MkDirectoryNode name path children items) =
  collect (fun d => d :: dirsOf d) children.
Proof.
  cbn [dirsOf]. unfold collect. apply List.flat_map_ext. intros [k d]. reflexivity.
Qed.

(** A directory with a name and, at some depth, a file. *)
Definition populated (d : DirectoryNode) : Prop :=
  dn_name d <> "" /\ filesOf d <> [].

Lemma descend_name (dirs entered : list string) (fileNode : FileNode)
    (node : DirectoryNode) :
  dn_name (descend dirs entered fileNode node) = dn_name node.
Proof. destruct dirs, node; reflexivity. Qed.

Lemma descend_files (dirs entered : list string) (fileNode : FileNode)
    (node : DirectoryNode) :
  filesOf (descend dirs entered fileNode node) <> [].
Proof.
  intros E. apply (Permutation_nil_cons (l := filesOf node) (x := fileNode)).
  rewrite <- E. apply descend_filesOf.
Qed.

Lemma descend_populated (dirs entered : list string) (fileNode : FileNode)
    (node : DirectoryNode) :
  List.Forall (fun dirName => dirName <> "") dirs ->
  List.Forall populated (dirsOf node) ->
  List.Forall populated (dirsOf (descend dirs entered fileNode node)).
Proof.
  intros Hdirs. revert entered node.
  induction Hdirs as [|dirName dirs Hname _ IH]; intros entered node Hnode;
    destruct node as [name path children items]; cbn [descend].
  - rewrite dirsOf_unfold in *. exact Hnode.
  - cbv zeta. rewrite dirsOf_unfold in *.
    assert (Hstep : forall v, dn_name v <> "" -> List.Forall populated (dirsOf v) ->
              List.Forall populated
                (descend dirs (entered ++ [dirName]) fileNode v ::
                 dirsOf (descend dirs (entered ++ [dirName]) fileNode v))).
    { intros v Hv Hbelow. constructor; [|apply IH, Hbelow].
      split; [rewrite descend_name; exact Hv|apply descend_files]. }
    destruct (JsMap.has children dirName).
    + apply Forall_collect_update; [exact Hnode|].
      intros v Hv. apply List.Forall_cons_iff in Hv as [[Hv _] Hbelow].
      apply Hstep; assumption.
    + rewrite update_set. apply Forall_collect_set; [exact Hnode|].
      apply Hstep; [exact Hname|constructor].
Qed.

Lemma Forall_removelast {A} (P : A -> Prop) (l : list A) :
  List.Forall P l -> List.Forall P (removelast l).
Proof.
  induction 1 as [|x l Hx Hl IH]; [constructor|].
  destruct l as [|y l]; [constructor|]. constructor; [exact Hx|exact IH].
Qed.

Lemma buildDirectoryTree_populated (ruleContent : list RuleContent) :
  List.Forall populated (dirsOf (buildDirectoryTree ruleContent)).
Proof.
  unfold buildDirectoryTree.
  assert (H : forall root, List.Forall populated (dirsOf root) ->
    List.Forall populated (dirsOf (fold_left addFileToTree ruleContent root))).
  { induction ruleContent as [|rule rules IH]; intros root Hroot; cbn [fold_left];
      [exact Hroot|].
    apply IH. unfold addFileToTree. apply descend_populated; [|exact Hroot].
    apply Forall_removelast, List.Forall_forall. intros part Hin.
    apply List.filter_In in Hin as [_ Hpart].
    apply negb_true_iff, String.eqb_neq in Hpart. exact Hpart. }
  apply H. constructor.
Qed.

(** The categories of an item, at any depth. *)
Fixpoint categoriesOf (item : SidebarItem) : list SidebarItem :=
  match item with
  | Link _ _ _ => []
  | Category _ sub _ _ _ => item :: flat_map categoriesOf sub
  end.

Definition allCategories (sidebar : list SidebarItem) : list SidebarItem :=
  flat_map categoriesOf sidebar.

(** Every category of a converted tree was made of a directory below it. *)
Lemma convertTree_categories (localeCompare : string -> string -> Z)
    (tree : DirectoryNode) (category : SidebarItem) :
  In category (allCategories (convertTreeToSidebarItems localeCompare tree)) ->
  exists dirNode, In dirNode (dirsOf tree) /\
    category = Category (formatDirectoryLabel (dn_name dirNode))
                 (convertTreeToSidebarItems localeCompare dirNode) true true None.
Proof.
  revert category.
  induction tree as [name path children items IH] using DirectoryNode_induction.
  intros category Hin. rewrite dirsOf_unfold. unfold collect.
  apply List.in_flat_map in Hin as (item & Hitem & Hcat).
  cbn [convertTreeToSidebarItems] in Hitem.
  apply (Permutation_in _ (Permutation_sym (sortBy_perm _ _))) in Hitem.
  apply List.in_app_or in Hitem as [Hfile|Hdir].
  - apply List.in_map_iff in Hfile as (fileNode & <- & _). destruct Hcat.
  - apply List.in_map_iff in Hdir as ([k d] & <- & Hd).
    destruct Hcat as [<-|Hbelow].
    + exists d. split; [|reflexivity].
      apply List.in_flat_map. exists (k, d). split; [exact Hd|left; reflexivity].
    + rewrite List.Forall_forall in IH.
      destruct (IH (k, d) Hd category Hbelow) as (dirNode & Hdir & ->).
      exists dirNode. split; [|reflexivity].
      apply List.in_flat_map. exists (k, d). split; [exact Hd|right; exact Hdir].
Qed.

(** *** The labels of the categories *)

(** Not a hyphen, nor an underscore. *)
Definition notSeparator (c : ascii) : bool := negb (isDashOrUnderscore c).

Lemma length_rev (s : string) : String.length (rev s) = String.length s.
Proof.
  induction s as [|c s IH]; [reflexivity|].
  rewrite rev_cons, length_append, IH. cbn. lia.
Qed.

Lemma splitWhere_go_nonempty (p : ascii -> bool) (s cur : string) :
  splitWhere_go p s cur <> [].
Proof.
  revert cur. induction s as [|c s IH]; intros cur; cbn [splitWhere_go]; [discriminate|].
  destruct (p c); [discriminate|apply IH].
Qed.

Lemma length_join_splitWhere_go (p : ascii -> bool) (s cur : string) :
  String.length (join " " (splitWhere_go p s cur)) = String.length cur + String.length s.
Proof.
  revert cur. induction s as [|c s IH]; intros cur; cbn [splitWhere_go].
  - cbn [join String.length]. rewrite length_rev. lia.
  - destruct (p c).
    + rewrite join_cons by apply splitWhere_go_nonempty.
      rewrite !length_append, IH, length_rev. cbn [String.length]. lia.
    + rewrite IH. cbn [String.length]. lia.
Qed.

Lemma splitWhere_go_pieces (p : ascii -> bool) (s cur : string) :
  allChars (fun c => negb (p c)) cur = true ->
  List.Forall (fun word => allChars (fun c => negb (p c)) word = true)
    (splitWhere_go p s cur).
Proof.
  revert cur. induction s as [|c s IH]; intros cur Hcur; cbn [splitWhere_go].
  - constructor; [|constructor]. rewrite allChars_rev. exact Hcur.
  - destruct (p c) eqn:E.
    + constructor; [rewrite allChars_rev; exact Hcur|]. apply IH. reflexivity.
    + apply IH. cbn [allChars]. rewrite E, Hcur. reflexivity.
Qed.

Lemma capital_chars (c : ascii) :
  1 <= String.length (capital c) /\
  (notSeparator c = true -> allChars notSeparator (capital c) = true).
Proof.
  destruct c as [[] [] [] [] [] [] [] []]; vm_compute; split; intros; congruence || lia.
Qed.

Lemma lower_char_notSeparator (c : ascii) :
  notSeparator c = true -> notSeparator (lower_char c) = true.
Proof.
  destruct c as [[] [] [] [] [] [] [] []]; vm_compute; intros; congruence.
Qed.

Lemma allChars_map_chars (p : ascii -> bool) (f : ascii -> ascii) (s : string) :
  (forall c, p c = true -> p (f c) = true) ->
  allChars p s = true -> allChars p (map_chars f s) = true.
Proof.
  intros Hf. induction s as [|c s IH]; [reflexivity|]. cbn [allChars map_chars].
  intros H. apply andb_true_iff in H as [Hc Hs]. rewrite (Hf c Hc), (IH Hs). reflexivity.
Qed.

Lemma capitalize_word (word : string) :
  String.length word <= String.length (capitalize word) /\
  (allChars notSeparator word = true -> allChars notSeparator (capitalize word) = true).
Proof.
  destruct word as [|c word]; [split; [reflexivity|auto]|]. cbn [capitalize].
  destruct (capital_chars c) as [Hlen Hsep]. split.
  - rewrite length_append. unfold toLowerCase. rewrite length_map_chars.
    cbn [String.length]. lia.
  - cbn [allChars]. intros H. apply andb_true_iff in H as [Hc Hw].
    rewrite allChars_append, (Hsep Hc). cbn [andb].
    apply allChars_map_chars; [apply lower_char_notSeparator|exact Hw].
Qed.

Lemma join_capitalize (words : list string) :
  String.length (join " " words) <= String.length (join " " (map capitalize words)) /\
  (List.Forall (fun word => allChars notSeparator word = true) words ->
   allChars notSeparator (join " " (map capitalize words)) = true).
Proof.
  induction words as [|word words [IHlen IHsep]]; [split; [reflexivity|auto]|].
  destruct (capitalize_word word) as [Hlen Hsep].
  destruct words as [|word' words]; [split; [exact Hlen|]|].
  - intros H. apply List.Forall_cons_iff in H as [H _]. apply Hsep, H.
  - cbn [map] in *.
    rewrite (join_cons " " word), (join_cons " " (capitalize word)) by discriminate.
    split.
    + rewrite !length_append. lia.
    + intros H. apply List.Forall_cons_iff in H as [Hw Hws].
      rewrite !allChars_append, (Hsep Hw), (IHsep Hws). reflexivity.
Qed.

Lemma formatDirectoryLabel_label (dirName : string) :
  String.length dirName <= String.length (formatDirectoryLabel dirName) /\
  allChars notSeparator (formatDirectoryLabel dirName) = true.
Proof.
  unfold formatDirectoryLabel, splitWhere.
  destruct (join_capitalize (splitWhere_go isDashOrUnderscore dirName "")) as [Hlen Hsep].
  split.
  - rewrite length_join_splitWhere_go in Hlen. exact Hlen.
  - apply Hsep, (splitWhere_go_pieces isDashOrUnderscore). reflexivity.
Qed.

(** X21: every category of the generated sidebar, at any depth, is
    collapsed and collapsible and has no position; its label is not empty
    and holds no hyphen and no underscore; and it is not empty: it has a
    link at some depth. *)
Theorem generateSidebar_categories (localeCompare : string -> string -> Z)
    (ruleContent : list RuleContent) (category : SidebarItem) :
  In category (allCategories (generateSidebar localeCompare ruleContent)) ->
  exists label items,
    category = Category label items true true None /\
    label <> "" /\
    allChars notSeparator label = true /\
    allLinks items <> [].
Proof.
  intros Hin. apply convertTree_categories in Hin as (dirNode & Hdir & ->).
  pose proof (buildDirectoryTree_populated ruleContent) as Hall.
  rewrite List.Forall_forall in Hall. destruct (Hall dirNode Hdir) as [Hname Hfiles].
  destruct (formatDirectoryLabel_label (dn_name dirNode)) as [Hlen Hsep].
  eexists _, _. split; [reflexivity|]. split; [|split; [exact Hsep|]].
  - intros E. rewrite E in Hlen. destruct (dn_name dirNode); [congruence|cbn in Hlen; lia].
  - intros E. pose proof (convertTree_allLinks localeCompare dirNode) as Hperm.
    rewrite E in Hperm. apply Permutation_nil in Hperm.
    apply List.map_eq_nil in Hperm. contradiction.
Qed.

Lemma generateSidebar_categories_witness :
  In (Category "Modes" modesItems true true None)
     (allCategories (generateSidebar codeUnitCompare mockRules)) /\
  exists label items,
    Category "Modes" modesItems true true None = Category label items true true None /\
    label <> "" /\
    allChars notSeparator label = true /\
    allLinks items <> [].
Proof.
  assert (Hin : In (Category "Modes" modesItems true true None)
                   (allCategories (generateSidebar codeUnitCompare mockRules))).
  { rewrite (proj1 generateSidebar_mockRules). left. reflexivity. }
  split; [exact Hin|].
  exact (generateSidebar_categories codeUnitCompare mockRules _ Hin).
Defined.

End SidebarGeneratorProps.

(** ** The plugin: the routes and the sidebar *)

(** [contentLoaded] of [index.ts]. *)
Module Plugin.
Import JsString MetadataParser Types SidebarGenerator.

(** The props of a route: the target of the page of the base path, or a
    document ([{ ...rule }]). *)
Inductive RouteProps : Type :=
| ToProps (to : string)
| RuleProps (rule : RuleContent).

Record RouteConfig : Type := MkRouteConfig {
  route_path : string;
  route_component : string;
  route_exact : bool;
  route_props : RouteProps
}.

(** A document without its content ([({ content, ...rule }) => rule]). *)
Record RuleSummary : Type := MkRuleSummary {
  s_id : string;
  s_filePath : string;
  s_title : string;
  s_metadata : Metadata;
  s_permalink : string;
  s_toc : list TOCItem
}.

Definition withoutContent (rule : RuleContent) : RuleSummary :=
  MkRuleSummary (id rule) (filePath rule) (title rule) (metadata rule)
    (permalink rule) (toc rule).

Record PluginData : Type := MkPluginData {
  pd_sidebar : list SidebarItem;
  pd_rules : list RuleSummary;
  pd_crossReferences : list CrossReference;
  pd_config : InternalPluginConfig;
  pd_totalRules : nat
}.

(** A call on [actions]. *)
Inductive Action : Type :=
| AddRoute (route : RouteConfig)
| SetGlobalData (data : PluginData).

(** [contentLoaded]: the calls that it makes on [actions], in their
    order, when none of them throws; the messages written on the console
    are left out. *)
Definition contentLoaded (localeCompare : string -> string -> Z)
    (config : InternalPluginConfig) (content : ProcessingResult) : list Action :=
  let ruleContents := r_content content in
  let crossReferences := r_crossReferences content in
  let sidebarConfig := generateSidebar localeCompare ruleContents in
  [AddRoute (MkRouteConfig (crossReferenceBase config) (component config) true
               (ToProps (NodePath.join [crossReferenceBase config; mainRule config])))] ++
  map (fun rule =>
         AddRoute (MkRouteConfig (permalink rule) (component config) true (RuleProps rule)))
      ruleContents ++
  [SetGlobalData (MkPluginData sidebarConfig (map withoutContent ruleContents)
                    crossReferences config (List.length ruleContents))].

End Plugin.

Module PluginProps.
Import JsString MetadataParser Types SidebarGenerator Plugin SidebarGeneratorProps.

(** The paths of the routes that are added, in their order. *)
Definition routePaths (actions : list Action) : list string :=
  omap (fun action =>
          match action with
          | AddRoute route => Some (route_path route)
          | SetGlobalData _ => None
          end) actions.

(** The global data that are set, in their order. *)
Definition globalData (actions : list Action) : list PluginData :=
  omap (fun action =>
          match action with
          | AddRoute _ => None
          | SetGlobalData data => Some data
          end) actions.

(** The target of a link; a category has none. *)
Definition href (item : SidebarItem) : option string :=
  match item with
  | Link _ target _ => Some target
  | Category _ _ _ _ _ => None
  end.

Lemma omap_app {A B} (f : A -> option B) (l l' : list A) :
  omap f (l ++ l') = omap f l ++ omap f l'.
Proof.
  induction l as [|a l IH]; [reflexivity|]. cbn [List.app omap list_omap].
  destruct (f a); cbn [List.app]; rewrite IH; reflexivity.
Qed.

Lemma omap_Permutation {A B} (f : A -> option B) (l l' : list A) :
  Permutation l l' -> Permutation (omap f l) (omap f l').
Proof.
  induction 1 as [|a l l' _ IH|a b l|l l' l'' _ IH1 _ IH2]; cbn [omap list_omap].
  - reflexivity.
  - destruct (f a); [apply perm_skip|]; exact IH.
  - destruct (f a), (f b); try reflexivity. apply perm_swap.
  - etransitivity; eassumption.
Qed.

Lemma routePaths_rules (component : string) (rules : list RuleContent) :
  routePaths (map (fun rule =>
                     AddRoute (MkRouteConfig (permalink rule) component true (RuleProps rule)))
                  rules) = map permalink rules /\
  globalData (map (fun rule =>
                     AddRoute (MkRouteConfig (permalink rule) component true (RuleProps rule)))
                  rules) = [].
Proof.
  induction rules as [|rule rules [IH1 IH2]]; [split; reflexivity|].
  unfold routePaths, globalData in *. cbn [map omap list_omap route_path].
  rewrite IH1, IH2. split; reflexivity.
Qed.

Lemma href_links (rules : list RuleContent) :
  omap href (map createSidebarItemFromFile rules) = map permalink rules.
Proof.
  induction rules as [|rule rules IH]; [reflexivity|].
  cbn [map omap list_omap createSidebarItemFromFile href]. rewrite IH. reflexivity.
Qed.

(** X22: [contentLoaded] sets the global data once, and adds a route at
    the base path and then one route for each document, in order, at its
    permalink.  The sidebar of the global data is the one that
    [generateSidebar] makes of the documents, and its links, at any depth,
    lead to the routes of the documents: their targets are the paths of
    these routes, each as many times as it is the path of a route. *)
Theorem contentLoaded_routes (localeCompare : string -> string -> Z)
    (config : InternalPluginConfig) (content : ProcessingResult) :
  let actions := contentLoaded localeCompare config content in
  exists data documentPaths,
    globalData actions = [data] /\
    routePaths actions = crossReferenceBase config :: documentPaths /\
    documentPaths = map permalink (r_content content) /\
    pd_sidebar data = generateSidebar localeCompare (r_content content) /\
    pd_totalRules data = List.length documentPaths /\
    Permutation (omap href (allLinks (pd_sidebar data))) documentPaths.
Proof.
  intros actions. subst actions. unfold contentLoaded. cbv zeta.
  destruct (routePaths_rules (component config) (r_content content)) as [E1 E2].
  eexists _, _. unfold routePaths, globalData in *. rewrite !omap_app, E1, E2.
  cbn [omap list_omap List.app route_path pd_sidebar pd_totalRules].
  rewrite List.app_nil_r.
  split; [reflexivity|]. split; [reflexivity|]. split; [reflexivity|].
  split; [reflexivity|]. split; [rewrite List.length_map; reflexivity|].
  rewrite <- href_links. apply omap_Permutation, generateSidebar_allLinks.
Qed.

End PluginProps.
